(** * DLHD extractor: a shallow embedding of [dlhd_extractor.py]

    The development follows the source file top-down: the string helpers of
    the Python runtime that the extractor calls, the regular expressions it
    searches with, Base64 and JSON as used by the cache file and by the
    parameter bundles, the request executor, and finally [extract] with its
    nested functions.

    Conventions.  A Python [str] is a [string] whose characters are the code
    points 0..255; a [bytes] value is a [string] whose characters are the
    bytes.  Every operation below is the Python one on such strings; where
    Python could produce a code point above 255 (UTF-8 decoding, a JSON
    [\u] escape) the operation has no image here and fails.  Numbers are
    integers ([Z]); floating point is not modelled. *)

From Stdlib Require Import String Ascii List ZArith NArith Bool Lia.
From Stdlib Require Import DecimalString DecimalZ DecimalPos DecimalN DecimalFacts.
Import ListNotations.
Local Open Scope list_scope.
Local Open Scope string_scope.
Set Warnings "-register-all".

(** ** Python string methods used by the extractor *)
Module PyStr.

Definition chars (s : string) : list ascii := list_ascii_of_string s.
Definition text (l : list ascii) : string := string_of_list_ascii l.

Definition code (c : ascii) : N := N_of_ascii c.

(** [s.startswith(p)] and [s.endswith(p)]. *)
Fixpoint startswith (p s : string) : bool :=
  match p, s with
  | EmptyString, _ => true
  | String a p', String b s' => Ascii.eqb a b && startswith p' s'
  | String _ _, EmptyString => false
  end.

Definition endswith (p s : string) : bool :=
  startswith (text (rev (chars p))) (text (rev (chars s))).

(** [s.lstrip(c)] for a one-character argument. *)
Fixpoint lstrip_char (c : ascii) (s : string) : string :=
  match s with
  | String a s' => if Ascii.eqb a c then lstrip_char c s' else s
  | EmptyString => EmptyString
  end.

(** [str.isspace] on the code points below 256. *)
Definition is_space (c : ascii) : bool :=
  let n := code c in
  ((9 <=? n) && (n <=? 13) || (28 <=? n) && (n <=? 32)
   || (n =? 133) || (n =? 160))%N.

Fixpoint lstrip_ws (s : string) : string :=
  match s with
  | String a s' => if is_space a then lstrip_ws s' else s
  | EmptyString => EmptyString
  end.

(** [s.strip()]. *)
Definition strip (s : string) : string :=
  text (rev (chars (lstrip_ws (text (rev (chars (lstrip_ws s))))))).

(** [s[:-1]]. *)
Definition drop_last (s : string) : string := text (removelast (chars s)).

(** [s[1:]]. *)
Definition drop_first (s : string) : string :=
  match s with String _ s' => s' | EmptyString => EmptyString end.

(** [sub in s]. *)
Fixpoint contains (sub s : string) : bool :=
  startswith sub s ||
  match s with
  | String _ s' => contains sub s'
  | EmptyString => false
  end.

(** [s.replace(old, new)] for a non-empty [old]: occurrences are replaced
    left to right and do not overlap; [skip] counts the characters of the
    occurrence being replaced that are still to be passed over. *)
Fixpoint replace_from (old new : string) (skip : nat) (s : string) : string :=
  match s with
  | EmptyString => EmptyString
  | String c s' =>
      match skip with
      | S k => replace_from old new k s'
      | O => if startswith old s
             then new ++ replace_from old new (String.length old - 1) s'
             else String c (replace_from old new 0 s')
      end
  end.

Definition replace (old new s : string) : string := replace_from old new 0 s.

(** [sep.join(l)]. *)
Definition join (sep : string) (l : list string) : string := String.concat sep l.

(** [str(n)] for an integer. *)
Definition str_int (z : Z) : string := NilZero.string_of_int (Z.to_int z).

(** The double quote, as a character and as a one-character string. *)
Definition dquote : ascii := "034"%char.
Definition dq : string := String dquote EmptyString.

(** The truth value of a [str]. *)
Definition nonempty (s : string) : bool :=
  match s with EmptyString => false | String _ _ => true end.

End PyStr.

(** ** UTF-8 on code points below 256 *)
Module Utf8.
Import PyStr.

(** [str.encode('utf-8')]. *)
Definition utf8_char (c : ascii) : list ascii :=
  let n := code c in
  if (n <? 128)%N then [c]
  else [ascii_of_N (192 + n / 64); ascii_of_N (128 + n mod 64)].

Definition encode (s : string) : string := text (flat_map utf8_char (chars s)).

(** [bytes.decode('utf-8')]: one-byte and two-byte sequences whose code
    point is below 256; any other sequence is a decoding error or leaves the
    range of the model. *)
Fixpoint decode_list (bs : list ascii) : option (list ascii) :=
  match bs with
  | [] => Some []
  | b :: rest =>
      if (code b <? 128)%N then option_map (cons b) (decode_list rest)
      else if ((code b =? 194) || (code b =? 195))%N then
        match rest with
        | c :: rest' =>
            if ((128 <=? code c) && (code c <? 192))%N
            then option_map
                   (cons (ascii_of_N ((code b - 192) * 64 + (code c - 128))))
                   (decode_list rest')
            else None
        | [] => None
        end
      else None
  end.

Definition decode (bs : string) : option string :=
  option_map text (decode_list (chars bs)).

End Utf8.

(** ** [urllib.parse.quote_plus] *)
Module Quote.
Import PyStr.

Definition hex_upper (d : N) : ascii :=
  if (d <? 10)%N then ascii_of_N (48 + d) else ascii_of_N (55 + d).

(** The characters that [quote] never escapes: letters, digits and [_.-~]. *)
Definition always_safe (c : ascii) : bool :=
  let n := code c in
  ((65 <=? n) && (n <=? 90) || (97 <=? n) && (n <=? 122)
   || (48 <=? n) && (n <=? 57)
   || (n =? 95) || (n =? 46) || (n =? 45) || (n =? 126))%N.

Definition quote_byte (b : ascii) : list ascii :=
  if always_safe b then [b]
  else if Ascii.eqb b " " then ["+"%char]
  else ["%"%char; hex_upper (code b / 16); hex_upper (code b mod 16)].

Definition quote_plus (s : string) : string :=
  text (flat_map quote_byte (chars (Utf8.encode s))).

End Quote.

(** ** The fragment of [re] used by the extractor

    Every pattern of the source is built from literals, character classes,
    greedy repetition of a class, alternation, one capture group and [$].
    Matching is Python's: alternatives and repetitions are tried in priority
    order with backtracking, and the first success is the match. *)
Module Regex.
Import PyStr.

Inductive re : Type :=
| Eps                          (* the empty pattern *)
| Str (lit : string)           (* a literal string *)
| Cls (p : ascii -> bool)      (* one character of a class *)
| Rep (p : ascii -> bool)      (* [p*], greedy *)
| Cat (r1 r2 : re)
| Alt (r1 r2 : re)             (* [r1|r2], [r1] first *)
| Grp (r : re)                 (* the capturing group [(r)] *)
| Eos.                         (* [$] *)

Infix "+++" := Cat (at level 60, right associativity).

(** [p+] and [r?]. *)
Definition plus (p : ascii -> bool) : re := Cls p +++ Rep p.
Definition opt (r : re) : re := Alt r Eps.

(** Character classes. *)
Definition digit (c : ascii) : bool := ((48 <=? code c) && (code c <=? 57))%N.
Definition space (c : ascii) : bool := is_space c.
Definition none_of (set : string) (c : ascii) : bool :=
  negb (existsb (Ascii.eqb c) (chars set)).
Definition one_of (set : string) (c : ascii) : bool :=
  existsb (Ascii.eqb c) (chars set).

(** Case folding of [re.IGNORECASE] on code points below 256 against an
    ASCII pattern character: only [A-Z] and [a-z] fold. *)
Definition lower (c : ascii) : ascii :=
  if ((65 <=? code c) && (code c <=? 90))%N then ascii_of_N (code c + 32) else c.

Definition chr_eq (ic : bool) (a b : ascii) : bool :=
  if ic then Ascii.eqb (lower a) (lower b) else Ascii.eqb a b.

(** The rest of [s] after the literal [lit], if [s] starts with it. *)
Fixpoint lit_rest (ic : bool) (lit s : string) : option string :=
  match lit, s with
  | EmptyString, _ => Some s
  | String a lit', String b s' => if chr_eq ic a b then lit_rest ic lit' s' else None
  | String _ _, EmptyString => None
  end.

(** Greedy [p*]: the longest run first, then shorter ones. *)
Fixpoint rep {A} (p : ascii -> bool) (k : string -> option A) (s : string) : option A :=
  match s with
  | String a s' =>
      if p a then
        match rep p k s' with
        | Some x => Some x
        | None => k s
        end
      else k s
  | EmptyString => k s
  end.

(** The first [n] characters of [s]. *)
Definition take (n : nat) (s : string) : string := String.substring 0 n s.

(** [run ic r s g k]: match [r] at the start of [s]; [g] is the text of the
    group so far and [k] continues with the rest of the input. *)
Fixpoint run {A} (ic : bool) (r : re) (s : string) (g : string)
         (k : string -> string -> option A) : option A :=
  match r with
  | Eps => k s g
  | Str lit =>
      match lit_rest ic lit s with
      | Some s' => k s' g
      | None => None
      end
  | Cls p =>
      match s with
      | String a s' => if p a then k s' g else None
      | EmptyString => None
      end
  | Rep p => rep p (fun s' => k s' g) s
  | Cat r1 r2 => run ic r1 s g (fun s' g' => run ic r2 s' g' k)
  | Alt r1 r2 =>
      match run ic r1 s g k with
      | Some x => Some x
      | None => run ic r2 s g k
      end
  | Grp r1 =>
      run ic r1 s g
          (fun s' _ => k s' (take (String.length s - String.length s') s))
  | Eos =>
      match s with
      | EmptyString => k s g
      | String a EmptyString => if Ascii.eqb a "010" then k s g else None
      | _ => None
      end
  end.

(** A match anchored at the start of [s]: the group and the unread rest. *)
Definition match_here (ic : bool) (r : re) (s : string) : option (string * string) :=
  run ic r s EmptyString (fun s' g => Some (g, s')).

(** [re.search(r, s).group(1)]: the leftmost match. *)
Fixpoint search (ic : bool) (r : re) (s : string) : option string :=
  match match_here ic r s with
  | Some (g, _) => Some g
  | None =>
      match s with
      | String _ s' => search ic r s'
      | EmptyString => None
      end
  end.

(** [re.findall(r, s)] for a pattern with one group: the groups of the
    successive non-overlapping matches.  [skip] counts the characters of the
    last match still to be passed over. *)
Fixpoint findall_from (r : re) (skip : nat) (s : string) : list string :=
  match skip, s with
  | S k, String _ s' => findall_from r k s'
  | S _, EmptyString => []
  | O, _ =>
      match match_here false r s with
      | Some (g, rest) =>
          g :: match s with
               | String _ s' =>
                   findall_from r (String.length s - String.length rest - 1) s'
               | EmptyString => []
               end
      | None =>
          match s with
          | String _ s' => findall_from r 0 s'
          | EmptyString => []
          end
      end
  end.

Definition findall (r : re) (s : string) : list string := findall_from r 0 s.

End Regex.

(** ** [base64.b64encode] and [base64.b64decode] *)
Module Base64.
Import PyStr.

(** The character of a 6-bit value in the standard alphabet. *)
Definition enc6 (n : N) : ascii :=
  if (n <? 26)%N then ascii_of_N (65 + n)
  else if (n <? 52)%N then ascii_of_N (97 + (n - 26))
  else if (n <? 62)%N then ascii_of_N (48 + (n - 52))
  else if (n =? 62)%N then "+"%char
  else "/"%char.

(** The 6-bit value of an alphabet character. *)
Definition dec6 (c : ascii) : option N :=
  let n := code c in
  if ((65 <=? n) && (n <=? 90))%N then Some (n - 65)%N
  else if ((97 <=? n) && (n <=? 122))%N then Some (n - 97 + 26)%N
  else if ((48 <=? n) && (n <=? 57))%N then Some (n - 48 + 52)%N
  else if (n =? 43)%N then Some 62%N
  else if (n =? 47)%N then Some 63%N
  else None.

Definition pad : ascii := "="%char.

(** [binascii.b2a_base64] without the newline: three bytes give four
    characters, a short last group is padded. *)
Fixpoint encode_list (bs : list ascii) : list ascii :=
  match bs with
  | [] => []
  | [a] =>
      [enc6 (code a / 4); enc6 (code a mod 4 * 16); pad; pad]
  | [a; b] =>
      [enc6 (code a / 4); enc6 (code a mod 4 * 16 + code b / 16);
       enc6 (code b mod 16 * 4); pad]
  | a :: b :: c :: rest =>
      enc6 (code a / 4) :: enc6 (code a mod 4 * 16 + code b / 16)
      :: enc6 (code b mod 16 * 4 + code c / 64) :: enc6 (code c mod 64)
      :: encode_list rest
  end.

Definition b64encode (bs : string) : string := text (encode_list (chars bs)).

(** [binascii.a2b_base64] in its default, non-strict mode: characters
    outside the alphabet are skipped; [quad_pos] is the position in the
    current group of four, [leftchar] the bits not yet written, [pads] the
    padding characters seen since the last data character, [out] the bytes
    decoded so far.  Padding that completes a group ends the decoding; an
    incomplete group at the end of the input is an error. *)
Fixpoint decode_loop (s : list ascii) (quad_pos : nat) (leftchar : N)
         (pads : nat) (out : list ascii) : option (list ascii) :=
  match s with
  | [] => if Nat.eqb quad_pos 0 then Some out else None
  | ch :: s' =>
      if Ascii.eqb ch pad then
        if Nat.leb 2 quad_pos then
          if Nat.leb 4 (quad_pos + S pads) then Some out
          else decode_loop s' quad_pos leftchar (S pads) out
        else decode_loop s' quad_pos leftchar pads out
      else
        match dec6 ch with
        | None => decode_loop s' quad_pos leftchar pads out
        | Some v =>
            match quad_pos with
            | 0 => decode_loop s' 1 v 0 out
            | 1 => decode_loop s' 2 (v mod 16) 0
                     (out ++ [ascii_of_N (leftchar * 4 + v / 16)])
            | 2 => decode_loop s' 3 (v mod 4) 0
                     (out ++ [ascii_of_N (leftchar * 16 + v / 4)])
            | _ => decode_loop s' 0 0 0
                     (out ++ [ascii_of_N (leftchar * 64 + v)])
            end
        end
  end.

Definition is_ascii (s : string) : bool :=
  forallb (fun c => (code c <? 128)%N) (chars s).

(** [base64.b64decode(s)] for a [str] argument: the argument must be ASCII. *)
Definition b64decode (s : string) : option string :=
  if is_ascii s then option_map text (decode_loop (chars s) 0 0 0 []) else None.

(** [base64.b64decode(s).decode('utf-8')]. *)
Definition b64decode_utf8 (s : string) : option string :=
  match b64decode s with
  | Some bs => Utf8.decode bs
  | None => None
  end.

End Base64.

(** ** Python dictionaries

    A [dict] keeps its keys in insertion order and holds each key once: an
    association list whose keys are distinct. *)
Module PyDict.

Section Dict.
Context {V : Type}.

Definition dict := list (string * V).

(** [d.get(k)]. *)
Fixpoint get (k : string) (d : dict) : option V :=
  match d with
  | [] => None
  | (k', v) :: d' => if String.eqb k k' then Some v else get k d'
  end.

(** [k in d]. *)
Definition mem (k : string) (d : dict) : bool :=
  match get k d with Some _ => true | None => false end.

(** [d[k] = v]: an existing key keeps its place, a new key goes last. *)
Fixpoint set (k : string) (v : V) (d : dict) : dict :=
  match d with
  | [] => [(k, v)]
  | (k', v') :: d' =>
      if String.eqb k k' then (k', v) :: d' else (k', v') :: set k v d'
  end.

(** [del d[k]]. *)
Fixpoint del (k : string) (d : dict) : dict :=
  match d with
  | [] => []
  | (k', v') :: d' => if String.eqb k k' then d' else (k', v') :: del k d'
  end.

(** [d.update(e)] and [dict(pairs)]. *)
Definition update (d e : dict) : dict :=
  fold_left (fun acc kv => set (fst kv) (snd kv) acc) e d.

Definition of_pairs (pairs : list (string * V)) : dict := update [] pairs.

Definition keys (d : dict) : list string := map fst d.

End Dict.
Arguments dict : clear implicits.

End PyDict.

(** ** JSON values, [json.dumps] and [json.loads] *)
Module Json.
Import PyStr.
Local Open Scope string_scope.

Inductive json : Type :=
| JNull
| JBool (b : bool)
| JInt (z : Z)
| JStr (s : string)
| JArr (l : list json)
| JObj (d : list (string * json)).

Definition bslash : ascii := "092"%char.

(** The truth value of a decoded JSON value, [bool(v)]. *)
Definition truthy (v : json) : bool :=
  match v with
  | JNull => false
  | JBool b => b
  | JInt z => negb (Z.eqb z 0)
  | JStr s => nonempty s
  | JArr l => match l with [] => false | _ => true end
  | JObj d => match d with [] => false | _ => true end
  end.

(** [v == s] for a string literal [s]. *)
Definition eq_str (v : json) (s : string) : bool :=
  match v with
  | JStr t => String.eqb t s
  | _ => false
  end.

(** *** Serialisation: [json.dumps(v)] with its defaults *)

Definition hex_lower (d : N) : ascii :=
  if (d <? 10)%N then ascii_of_N (48 + d) else ascii_of_N (87 + d).

(** One character of a string literal ([ensure_ascii] is on). *)
Definition escape_char (c : ascii) : string :=
  let n := code c in
  if Ascii.eqb c dquote then String bslash (String dquote EmptyString)
  else if Ascii.eqb c bslash then String bslash (String bslash EmptyString)
  else if (n =? 10)%N then String bslash "n"
  else if (n =? 13)%N then String bslash "r"
  else if (n =? 9)%N then String bslash "t"
  else if (n =? 12)%N then String bslash "f"
  else if (n =? 8)%N then String bslash "b"
  else if ((n <? 32) || (126 <? n))%N
       then String bslash
              (String "u" (String "0" (String "0"
                 (String (hex_lower (n / 16)) (String (hex_lower (n mod 16)) EmptyString)))))
  else String c EmptyString.

Fixpoint escape (s : string) : string :=
  match s with
  | EmptyString => EmptyString
  | String c s' => escape_char c ++ escape s'
  end.

Definition encode_str (s : string) : string :=
  String dquote (escape s ++ String dquote EmptyString).

(** The elements of an array and the members of an object, separated by a
    comma and a space. *)
Fixpoint dump_items (dump : json -> string) (l : list json) : string :=
  match l with
  | [] => EmptyString
  | [x] => dump x
  | x :: l' => dump x ++ ", " ++ dump_items dump l'
  end.

Fixpoint dump_members (dump : json -> string) (d : list (string * json)) : string :=
  match d with
  | [] => EmptyString
  | [kx] => encode_str (fst kx) ++ ": " ++ dump (snd kx)
  | kx :: d' =>
      encode_str (fst kx) ++ ": " ++ dump (snd kx) ++ ", " ++ dump_members dump d'
  end.

Fixpoint dumps (v : json) : string :=
  match v with
  | JNull => "null"
  | JBool true => "true"
  | JBool false => "false"
  | JInt z => str_int z
  | JStr s => encode_str s
  | JArr l => "[" ++ dump_items dumps l ++ "]"
  | JObj d => "{" ++ dump_members dumps d ++ "}"
  end.

(** *** Parsing: [json.loads(s)] *)

(** The decoder's whitespace: space, tab, line feed, carriage return. *)
Definition is_ws (c : ascii) : bool :=
  let n := code c in ((n =? 32) || (n =? 9) || (n =? 10) || (n =? 13))%N.

Fixpoint skip_ws (s : string) : string :=
  match s with
  | String c s' => if is_ws c then skip_ws s' else s
  | EmptyString => EmptyString
  end.

Definition hex_val (c : ascii) : option N :=
  let n := code c in
  if ((48 <=? n) && (n <=? 57))%N then Some (n - 48)%N
  else if ((97 <=? n) && (n <=? 102))%N then Some (n - 87)%N
  else if ((65 <=? n) && (n <=? 70))%N then Some (n - 55)%N
  else None.

Definition hex4 (a b c d : ascii) : option N :=
  match hex_val a, hex_val b, hex_val c, hex_val d with
  | Some x, Some y, Some z, Some w => Some (((x * 16 + y) * 16 + z) * 16 + w)%N
  | _, _, _, _ => None
  end.

(** The character of a one-letter escape. *)
Definition unescape (e : ascii) : option ascii :=
  if Ascii.eqb e dquote then Some dquote
  else if Ascii.eqb e bslash then Some bslash
  else if Ascii.eqb e "/" then Some "/"%char
  else if Ascii.eqb e "b" then Some "008"%char
  else if Ascii.eqb e "f" then Some "012"%char
  else if Ascii.eqb e "n" then Some "010"%char
  else if Ascii.eqb e "r" then Some "013"%char
  else if Ascii.eqb e "t" then Some "009"%char
  else None.

Definition push (c : ascii) (r : option (string * string)) : option (string * string) :=
  match r with
  | Some (s, rest) => Some (String c s, rest)
  | None => None
  end.

(** [scanstring]: the input after the opening quote; the result is the
    string and the input after the closing quote.  Control characters must
    be escaped; an escaped code point above 255 has no image in the model. *)
Fixpoint scanstring (s : string) : option (string * string) :=
  match s with
  | EmptyString => None
  | String c s' =>
      if Ascii.eqb c dquote then Some (EmptyString, s')
      else if Ascii.eqb c bslash then
        match s' with
        | String e s'' =>
            if Ascii.eqb e "u" then
              match s'' with
              | String h1 (String h2 (String h3 (String h4 s3))) =>
                  match hex4 h1 h2 h3 h4 with
                  | Some n =>
                      if (n <? 256)%N then push (ascii_of_N n) (scanstring s3)
                      else None
                  | None => None
                  end
              | _ => None
              end
            else
              match unescape e with
              | Some ch => push ch (scanstring s'')
              | None => None
              end
        | EmptyString => None
        end
      else if (code c <? 32)%N then None
      else push c (scanstring s')
  end.

(** The digits at the start of the input, as a decimal numeral. *)
Fixpoint read_uint (s : string) : Decimal.uint * string :=
  match s with
  | String c s' =>
      if Regex.digit c then
        let (u, rest) := read_uint s' in
        match uint_of_char c (Some u) with
        | Some u' => (u', rest)
        | None => (Decimal.Nil, s)
        end
      else (Decimal.Nil, s)
  | EmptyString => (Decimal.Nil, EmptyString)
  end.

(** An integer literal: an optional minus sign, then either [0] or a
    non-zero digit followed by digits.  A fraction or an exponent after
    it would make the literal a float, which the model does not have: the
    unread rest then makes the caller fail. *)
Definition scan_int (s : string) : option (Z * string) :=
  let (neg, s1) :=
    match s with
    | String "-" s' => (true, s')
    | _ => (false, s)
    end in
  match s1 with
  | String "0" s2 => Some (0%Z, s2)
  | String c _ =>
      if Regex.digit c then
        let (u, rest) := read_uint s1 in
        Some (Z.of_int (if neg then Decimal.Neg u else Decimal.Pos u), rest)
      else None
  | EmptyString => None
  end.

Definition drop (n : nat) (s : string) : string :=
  String.substring n (String.length s - n) s.

(** [scan_once], [JSONArray] and [JSONObject].  [fuel] bounds the number of
    nested calls; every call reads at least one character within two steps,
    so [loads] below never runs out. *)
Fixpoint scan_once (fuel : nat) (s : string) : option (json * string) :=
  match fuel with
  | O => None
  | S f =>
      match s with
      | EmptyString => None
      | String c s' =>
          if Ascii.eqb c dquote then
            match scanstring s' with
            | Some (x, r) => Some (JStr x, r)
            | None => None
            end
          else if Ascii.eqb c "{" then
            match skip_ws s' with
            | String c1 s2 =>
                if Ascii.eqb c1 "}" then Some (JObj [], s2)
                else if Ascii.eqb c1 dquote then
                  match scan_members f s2 with
                  | Some (pairs, r) => Some (JObj (PyDict.of_pairs pairs), r)
                  | None => None
                  end
                else None
            | EmptyString => None
            end
          else if Ascii.eqb c "[" then
            match skip_ws s' with
            | String c1 s2 =>
                if Ascii.eqb c1 "]" then Some (JArr [], s2)
                else
                  match scan_elements f (String c1 s2) with
                  | Some (vs, r) => Some (JArr vs, r)
                  | None => None
                  end
            | EmptyString => None
            end
          else if startswith "null" s then Some (JNull, drop 4 s)
          else if startswith "true" s then Some (JBool true, drop 4 s)
          else if startswith "false" s then Some (JBool false, drop 5 s)
          else
            match scan_int s with
            | Some (z, r) => Some (JInt z, r)
            | None => None
            end
      end
  end

with scan_elements (fuel : nat) (s : string) : option (list json * string) :=
  match fuel with
  | O => None
  | S f =>
      match scan_once f s with
      | Some (v, r) =>
          match skip_ws r with
          | String c r' =>
              if Ascii.eqb c "]" then Some ([v], r')
              else if Ascii.eqb c "," then
                match scan_elements f (skip_ws r') with
                | Some (vs, r'') => Some (v :: vs, r'')
                | None => None
                end
              else None
          | EmptyString => None
          end
      | None => None
      end
  end

with scan_members (fuel : nat) (s : string) : option (list (string * json) * string) :=
  match fuel with
  | O => None
  | S f =>
      match scanstring s with
      | Some (key, r) =>
          match skip_ws r with
          | String c r1 =>
              if Ascii.eqb c ":" then
                match scan_once f (skip_ws r1) with
                | Some (v, r2) =>
                    match skip_ws r2 with
                    | String c2 r3 =>
                        if Ascii.eqb c2 "}" then Some ([(key, v)], r3)
                        else if Ascii.eqb c2 "," then
                          match skip_ws r3 with
                          | String c3 r4 =>
                              if Ascii.eqb c3 dquote then
                                match scan_members f r4 with
                                | Some (ps, r5) => Some ((key, v) :: ps, r5)
                                | None => None
                                end
                              else None
                          | EmptyString => None
                          end
                        else None
                    | EmptyString => None
                    end
                | None => None
                end
              else None
          | EmptyString => None
          end
      | None => None
      end
  end.

(** [json.loads(s)]: one value, whitespace around it, nothing else. *)
Definition loads (s : string) : option json :=
  match scan_once (2 * String.length s + 2) (skip_ws s) with
  | Some (v, r) =>
      match skip_ws r with
      | EmptyString => Some v
      | String _ _ => None
      end
  | None => None
  end.

End Json.

(** ** Formatting a decoded value inside an f-string: [str(v)] *)
Module PyFormat.
Import PyStr Json.
Local Open Scope string_scope.

(** [str.isprintable] on the code points below 256. *)
Definition printable (c : ascii) : bool :=
  let n := code c in
  ((32 <=? n) && (n <=? 126) || (161 <=? n) && negb (n =? 173))%N.

(** One character inside [repr(s)], [quote] being the delimiter chosen. *)
Definition repr_char (quote c : ascii) : string :=
  let n := code c in
  if Ascii.eqb c quote || Ascii.eqb c bslash then String bslash (String c EmptyString)
  else if (n =? 9)%N then String bslash "t"
  else if (n =? 10)%N then String bslash "n"
  else if (n =? 13)%N then String bslash "r"
  else if printable c then String c EmptyString
  else String bslash
         (String "x" (String (hex_lower (n / 16)) (String (hex_lower (n mod 16)) EmptyString))).

(** [repr(s)]: single quotes, unless the string has a single quote and no
    double quote. *)
Definition repr_str (s : string) : string :=
  let quote :=
    if contains "'" s && negb (contains dq s) then dquote else "'"%char in
  String quote
    (String.concat EmptyString (map (repr_char quote) (chars s))
     ++ String quote EmptyString).

Fixpoint repr (v : json) : string :=
  match v with
  | JNull => "None"
  | JBool true => "True"
  | JBool false => "False"
  | JInt z => str_int z
  | JStr s => repr_str s
  | JArr l => "[" ++ join ", " (map repr l) ++ "]"
  | JObj d =>
      "{" ++ join ", " (map (fun kv => repr_str (fst kv) ++ ": " ++ repr (snd kv)) d)
      ++ "}"
  end.

(** [str(v)], what [f"{v}"] inserts. *)
Definition str (v : json) : string :=
  match v with
  | JStr s => s
  | _ => repr v
  end.

End PyFormat.

(** ** The extractor: exceptions, environment and state *)
Module Extractor.
Import PyStr Regex Json.
Local Open Scope string_scope.

(** HTTP headers, a [dict] from names to values. *)
Definition headers := PyDict.dict string.

(** The exceptions the code tells apart: its own [ExtractorError], the
    transport class caught by the first handler of the request executor
    ([ClientConnectionError], [ServerDisconnectedError],
    [ClientPayloadError], [TimeoutError], [OSError], [ConnectionResetError])
    and every other [Exception].  Each carries its [str(e)]. *)
Inductive exn : Type :=
| ExtractorError (msg : string)
| TransportError (msg : string)
| OtherError (msg : string).

Definition str_exn (e : exn) : string :=
  match e with
  | ExtractorError m => m
  | TransportError m => m
  | OtherError m => m
  end.

Inductive result (A : Type) : Type :=
| Ok (a : A)
| Raise (e : exn).
Arguments Ok {A} a.
Arguments Raise {A} e.

(** Faults raised by library calls inside the modelled code; their message
    text belongs to the library. *)
Inductive fault : Type :=
| HttpStatus (status : Z)              (* [raise_for_status] on a status of 400 or more *)
| JsonDecode (doc : string)            (* [json.loads] *)
| BadOperand (op : string) (v : json)  (* a [TypeError] or [AttributeError] on [v] *)
| BadUrl (url : string)                (* [urlparse] *)
| NoResponse.                          (* a method called on [None] *)

(** What the program does to the outside world, in order. *)
Inductive event : Type :=
| EvSession                              (* a [ClientSession] is built *)
| EvSessionClose                         (* the session is closed *)
| EvGet (url : string) (h : headers)     (* [session.get] *)
| EvHead (url : json) (h : json)         (* [session.head] *)
| EvSleep (seconds : Z)                  (* [asyncio.sleep] *)
| EvWrite (content : string).            (* the cache file is opened for writing *)

(** The answer of the network to one request. *)
Inductive net_outcome : Type :=
| Response (status : Z) (body : string)
| Fails (e : exn).

(** The environment: the library functions left abstract and the answers of
    the outside world, which may depend on everything done so far. *)
Class Env : Type := {
  (** [urlparse(u)]: scheme and netloc, or [None] when it raises. *)
  urlparse : string -> option (string * string);
  (** [str(e)] of a library fault. *)
  fault_text : fault -> string;
  (** Building a session: [None] when it succeeds. *)
  session_new : list event -> option exn;
  http_get : list event -> string -> headers -> net_outcome;
  http_head : list event -> json -> json -> net_outcome;
  (** Writing the cache file: [None] when it succeeds, otherwise the
      [IOError] leaves the file as given. *)
  file_write : list event -> string -> option (option string)
}.

(** The mutable state of a [DLHDExtractor] and of the world around it. *)
Record state : Type := mkState {
  session : bool;                     (* [self.session] is set and not closed *)
  cached_base_url : option string;    (* [self._cached_base_url] *)
  iframe_context : option string;     (* [self._iframe_context] *)
  stream_data_cache : json;           (* [self._stream_data_cache] *)
  cache_file : option string;         (* the text of the cache file, if it exists *)
  trace : list event
}.

Definition set_session (b : bool) (st : state) : state :=
  mkState b st.(cached_base_url) st.(iframe_context) st.(stream_data_cache)
          st.(cache_file) st.(trace).
Definition set_cached_base_url (u : option string) (st : state) : state :=
  mkState st.(session) u st.(iframe_context) st.(stream_data_cache)
          st.(cache_file) st.(trace).
Definition set_iframe_context (u : option string) (st : state) : state :=
  mkState st.(session) st.(cached_base_url) u st.(stream_data_cache)
          st.(cache_file) st.(trace).
Definition set_cache (c : json) (st : state) : state :=
  mkState st.(session) st.(cached_base_url) st.(iframe_context) c
          st.(cache_file) st.(trace).
Definition set_cache_file (f : option string) (st : state) : state :=
  mkState st.(session) st.(cached_base_url) st.(iframe_context)
          st.(stream_data_cache) f st.(trace).
Definition emit (e : event) (st : state) : state :=
  mkState st.(session) st.(cached_base_url) st.(iframe_context)
          st.(stream_data_cache) st.(cache_file) (st.(trace) ++ [e]).

(** Computations: they read and change the state and return or raise. *)
Definition M (A : Type) : Type := state -> result A * state.

Definition ret {A} (a : A) : M A := fun st => (Ok a, st).
Definition raise {A} (e : exn) : M A := fun st => (Raise e, st).
Definition bind {A B} (m : M A) (k : A -> M B) : M B :=
  fun st =>
    match m st with
    | (Ok a, st') => k a st'
    | (Raise e, st') => (Raise e, st')
    end.
(** [try: m  except Exception as e: h e]. *)
Definition catch {A} (m : M A) (h : exn -> M A) : M A :=
  fun st =>
    match m st with
    | (Ok a, st') => (Ok a, st')
    | (Raise e, st') => h e st'
    end.
Definition get_state : M state := fun st => (Ok st, st).
Definition modify (f : state -> state) : M unit := fun st => (Ok tt, f st).

Notation "x <- m ;; k" := (bind m (fun x => k))
  (at level 61, m at next level, right associativity).
Notation "m ;;; k" := (bind m (fun _ => k))
  (at level 61, right associativity).

Definition user_agent : string :=
  "Mozilla/5.0 (Macintosh; Intel Mac OS X 10_15_7) AppleWebKit/537.36 (KHTML, like Gecko) Chrome/136.0.0.0 Safari/537.36".

Record response : Type := mkResponse { status : Z; body : string }.

Section Code.
Context {E : Env}.

Definition lib_error {A} (f : fault) : M A := raise (OtherError (fault_text f)).

(** [urlparse(u)] as a computation: the pair (scheme, netloc). *)
Definition parse_url (u : string) : M (string * string) :=
  match urlparse u with
  | Some p => ret p
  | None => lib_error (BadUrl u)
  end.

(** [scheme + "://" + netloc] of a URL. *)
Definition origin_of (u : string) : M string :=
  p <- parse_url u ;; ret (fst p ++ "://" ++ snd p).

(** [_get_session]. *)
Definition get_session : M unit :=
  fun st =>
    if st.(session) then (Ok tt, st)
    else
      match session_new st.(trace) with
      | None => (Ok tt, emit EvSession (set_session true st))
      | Some e => (Raise e, st)
      end.

(** The [close] of the session inside the executor and [DLHDExtractor.close]:
    a live session is closed, and [self.session] becomes [None]. *)
Definition close_session : M unit :=
  fun st =>
    if st.(session) then (Ok tt, emit EvSessionClose (set_session false st))
    else (Ok tt, st).

(** [_save_cache]. [json.dumps], UTF-8, Base64; the Base64 text is ASCII, so
    decoding it to [str] leaves it as it is.  An [IOError] is logged only. *)
Definition cache_text (c : json) : string :=
  Base64.b64encode (Utf8.encode (dumps c)).

Definition save_cache : M unit :=
  fun st =>
    let content := cache_text st.(stream_data_cache) in
    match file_write st.(trace) content with
    | None => (Ok tt, emit (EvWrite content) (set_cache_file (Some content) st))
    | Some remains => (Ok tt, emit (EvWrite content) (set_cache_file remains st))
    end.

(** [_get_headers_for_url]. *)
Definition get_headers_for_url (url : string) (base_headers : headers) : M headers :=
  parsed <- parse_url url ;;
  st <- get_state ;;
  if contains "newkso.ru" (snd parsed) then
    match st.(iframe_context) with
    | Some ctx =>
        if nonempty ctx then
          p <- parse_url ctx ;;
          ret (PyDict.update base_headers
                 [("User-Agent", user_agent); ("Referer", ctx);
                  ("Origin", "https://" ++ snd p)])
        else
          let o := fst parsed ++ "://" ++ snd parsed in
          ret (PyDict.update base_headers
                 [("User-Agent", user_agent); ("Referer", o); ("Origin", o)])
    | None =>
        let o := fst parsed ++ "://" ++ snd parsed in
        ret (PyDict.update base_headers
               [("User-Agent", user_agent); ("Referer", o); ("Origin", o)])
    end
  else ret base_headers.

(** One pass through the [try] body of [_make_robust_request]: the session,
    the GET, [raise_for_status] and the text. *)
Definition attempt_get (url : string) (final_headers : headers) : M response :=
  get_session ;;;
  st <- get_state ;;
  modify (emit (EvGet url final_headers)) ;;;
  match http_get st.(trace) url final_headers with
  | Response code text =>
      if (400 <=? code)%Z then lib_error (HttpStatus code)
      else ret (mkResponse code text)
  | Fails e => raise e
  end.

(** The loop [for attempt in range(retries)]; [remaining] counts the
    iterations left.  Falling out of the loop returns [None]. *)
Fixpoint request_loop (url : string) (final_headers : headers)
         (retries initial_delay : Z) (remaining : nat) (attempt : Z)
  : M (option response) :=
  match remaining with
  | O => ret None
  | S n =>
      fun st =>
        match attempt_get url final_headers st with
        | (Ok r, st1) => (Ok (Some r), st1)
        | (Raise (TransportError m), st1) =>
            ((if (attempt =? retries - 1)%Z then close_session else ret tt) ;;;
             if (attempt <? retries - 1)%Z then
               modify (emit (EvSleep (initial_delay * 2 ^ attempt))) ;;;
               request_loop url final_headers retries initial_delay n (attempt + 1)
             else
               raise (ExtractorError
                        ("Tutti i " ++ str_int retries ++ " tentativi falliti per "
                         ++ url ++ ": " ++ m))) st1
        | (Raise e, st1) =>
            (if (attempt =? retries - 1)%Z then
               raise (ExtractorError ("Errore finale per " ++ url ++ ": " ++ str_exn e))
             else
               modify (emit (EvSleep initial_delay)) ;;;
               request_loop url final_headers retries initial_delay n (attempt + 1)) st1
        end
  end.

(** [_make_robust_request(url, headers, retries, initial_delay)]. *)
Definition make_robust_request (url : string) (hdrs : headers)
           (retries initial_delay : Z) : M (option response) :=
  final_headers <- get_headers_for_url url hdrs ;;
  request_loop url final_headers retries initial_delay (Z.to_nat retries) 0.

(** A call with the default [retries=3, initial_delay=2] followed by
    [await resp.text()]. *)
Definition fetch (url : string) (hdrs : headers) : M string :=
  r <- make_robust_request url hdrs 3 2 ;;
  match r with
  | Some resp => ret resp.(body)
  | None => lib_error NoResponse
  end.

(** *** The patterns of [extract] *)

Definition digits : re := plus digit.
Definition one_of_words (ws : list string) : re :=
  match ws with
  | [] => Eps
  | w :: ws' => fold_left (fun r w' => Alt r (Str w')) ws' (Str w)
  end.

(** The patterns of [extract_channel_id], searched with [re.IGNORECASE]. *)
Definition channel_id_patterns : list re :=
  [ Str "/premium" +++ Grp digits +++ Str "/mono.m3u8" +++ Eos;
    Str "/" +++ one_of_words ["watch"; "stream"; "cast"; "player"]
        +++ Str "/stream-" +++ Grp digits +++ Str ".php";
    Str "watch.php?id=" +++ Grp digits;
    Alt (Str "%2F") (Str "/") +++ Str "stream-" +++ Grp digits +++ Str ".php";
    Str "stream-" +++ Grp digits +++ Str ".php" ].

(** The first pattern of the list that matches gives the group. *)
Fixpoint first_match (ic : bool) (patterns : list re) (s : string) : option string :=
  match patterns with
  | [] => None
  | p :: rest =>
      match search ic p s with
      | Some g => Some g
      | None => first_match ic rest s
      end
  end.

(** [extract_channel_id]. *)
Definition extract_channel_id (url_str : string) : option string :=
  first_match true channel_id_patterns url_str.

(** The button of the new page format, the iframe, the anchor of the old
    page format. *)
Definition player_link_pattern : re :=
  Str "<button" +++ Rep (none_of ">") +++ Str ("data-url=" ++ dq)
  +++ Grp (plus (none_of dq)) +++ Str dq +++ Rep (none_of ">")
  +++ Str ">Player" +++ Rep space +++ digits +++ Str "</button>".

Definition iframe_pattern : re :=
  Str ("iframe src=" ++ dq) +++ Grp (Rep (none_of dq)).

Definition anchor_pattern : re :=
  Str "<a" +++ Rep (none_of ">") +++ Str ("href=" ++ dq)
  +++ Grp (plus (none_of dq)) +++ Str dq +++ Rep (none_of ">") +++ Str ">"
  +++ Rep space +++ Str "<button" +++ Rep (none_of ">") +++ Str ">"
  +++ Rep space +++ Str "Player" +++ Rep space +++ Str "2" +++ Rep space
  +++ Str "</button>".

(** Either quote, then a non-empty value free of quotes, then either quote. *)
Definition quotes : string := dq ++ "'".
Definition quoted_value : re :=
  Cls (one_of quotes) +++ Grp (plus (none_of quotes)) +++ Cls (one_of quotes).

(** An equals sign with optional whitespace around it. *)
Definition equals : re := Rep space +++ Str "=" +++ Rep space.

(** The patterns of [extract_var_old_format] for the variable [name]. *)
Definition old_format_patterns (name : string) : list re :=
  [ Str "var " +++ opt (Str "__") +++ Str name +++ equals
      +++ Str ("atob(" ++ dq) +++ Grp (plus (none_of dq)) +++ Str (dq ++ ")");
    Str "var " +++ opt (Str "__") +++ Str name +++ equals
      +++ Str "atob('" +++ Grp (plus (none_of "'")) +++ Str "')";
    one_of_words ["var"; "let"; "const"] +++ plus space +++ opt (Str "__")
      +++ Str name +++ equals
      +++ Str ("atob(" ++ dq) +++ Grp (plus (none_of dq)) +++ Str (dq ++ ")") ].

Definition xjz_pattern : re :=
  one_of_words ["const"; "var"; "let"] +++ plus space +++ Str "XJZ" +++ equals
  +++ quoted_value.

Definition bundle_patterns : list re :=
  [ Str "const" +++ plus space +++ Str "BUNDLE" +++ equals +++ quoted_value;
    Str "var" +++ plus space +++ Str "BUNDLE" +++ equals +++ quoted_value;
    Str "let" +++ plus space +++ Str "BUNDLE" +++ equals +++ quoted_value ].

Definition channel_key_patterns : list re :=
  [ Str "const" +++ plus space +++ Str "CHANNEL_KEY" +++ equals +++ quoted_value;
    Str "var" +++ plus space +++ Str "CHANNEL_KEY" +++ equals +++ quoted_value;
    Str "let" +++ plus space +++ Str "CHANNEL_KEY" +++ equals +++ quoted_value;
    Str "channelKey" +++ equals +++ quoted_value;
    Str "var" +++ plus space +++ Str "channelKey" +++ equals +++ quoted_value;
    one_of_words ["let"; "const"] +++ plus space +++ Str "channelKey" +++ equals
      +++ quoted_value ].

(** *** The parameter decoder *)

(** [extract_var_old_format(js, name)]: a pattern whose literal does not
    decode is passed over. *)
Fixpoint old_format_loop (patterns : list re) (js : string) : option string :=
  match patterns with
  | [] => None
  | p :: rest =>
      match search false p js with
      | Some g =>
          match Base64.b64decode_utf8 g with
          | Some t => Some t
          | None => old_format_loop rest js
          end
      | None => old_format_loop rest js
      end
  end.

Definition extract_var_old_format (js name : string) : option string :=
  old_format_loop (old_format_patterns name) js.

(** The loop over the items of a bundle: a value that is a Base64 string of
    UTF-8 text is decoded, any other value is kept. *)
Definition decode_value (v : json) : json :=
  match v with
  | JStr s =>
      match Base64.b64decode_utf8 s with
      | Some t => JStr t
      | None => v
      end
  | _ => v
  end.

Definition decode_items (obj : PyDict.dict json) : PyDict.dict json :=
  fold_left (fun decoded kv => PyDict.set (fst kv) (decode_value (snd kv)) decoded)
            obj [].

(** The body shared by the two bundle formats once the Base64 text is found. *)
Definition decode_bundle (b64 : string) : option (PyDict.dict json) :=
  match Base64.b64decode_utf8 b64 with
  | Some doc =>
      match loads doc with
      | Some (JObj obj) => Some (decode_items obj)
      | _ => None
      end
  | None => None
  end.

(** [extract_xjz_format(js)]. *)
Definition extract_xjz_format (js : string) : option (PyDict.dict json) :=
  match search false xjz_pattern js with
  | Some xjz_b64 => decode_bundle xjz_b64
  | None => None
  end.

(** [extract_bundle_format(js)]. *)
Definition extract_bundle_format (js : string) : option (PyDict.dict json) :=
  match first_match false bundle_patterns js with
  | Some bundle_data =>
      if nonempty bundle_data then decode_bundle bundle_data else None
  | None => None
  end.

(** The channel key, looked up on its own. *)
Definition extract_channel_key (iframe_content : string) : option string :=
  first_match false channel_key_patterns iframe_content.

Inductive strategy : Type := UsedXJZ | UsedBundle | UsedLegacy.

(** The five fields a strategy sets; [JNull] is Python's [None]. *)
Record auth_fields : Type := mkFields {
  auth_host : json;
  auth_php : json;
  auth_ts : json;
  auth_rnd : json;
  auth_sig : json
}.

Definition field (d : PyDict.dict json) (k : string) : json :=
  match PyDict.get k d with
  | Some v => v
  | None => JNull
  end.

Definition fields_of_bundle (d : PyDict.dict json) : auth_fields :=
  mkFields (field d "b_host") (field d "b_script") (field d "b_ts")
           (field d "b_rnd") (field d "b_sig").

Definition of_option (o : option string) : json :=
  match o with
  | Some s => JStr s
  | None => JNull
  end.

Definition bundle_truthy (o : option (PyDict.dict json)) : option (PyDict.dict json) :=
  match o with
  | Some (kv :: d) => Some (kv :: d)
  | _ => None
  end.

(** The cascade of lines 377-403, over the three strategies: XJZ, then
    BUNDLE, then the old inline variables. *)
Definition select_fields
           (xjz bundle : string -> option (PyDict.dict json))
           (old : string -> string -> option string)
           (iframe_content : string) : strategy * auth_fields :=
  match bundle_truthy (xjz iframe_content) with
  | Some xjz_data => (UsedXJZ, fields_of_bundle xjz_data)
  | None =>
      match bundle_truthy (bundle iframe_content) with
      | Some bundle_data => (UsedBundle, fields_of_bundle bundle_data)
      | None =>
          let ts := old iframe_content "c" in
          let rnd := old iframe_content "d" in
          let sig := old iframe_content "e" in
          let host := old iframe_content "a" in
          let php := old iframe_content "b" in
          (UsedLegacy,
           mkFields (of_option host) (of_option php) (of_option ts)
                    (of_option rnd) (of_option sig))
      end
  end.

Definition decode_fields (iframe_content : string) : strategy * auth_fields :=
  select_fields extract_xjz_format extract_bundle_format extract_var_old_format
                iframe_content.

(** The names of the parameters that are not set, in the order checked. *)
Definition missing_params (channel_key : option string) (f : auth_fields) : list string :=
  (if match channel_key with Some k => nonempty k | None => false end
   then [] else ["channel_key"])
  ++ (if truthy f.(auth_ts) then [] else ["auth_ts"])
  ++ (if truthy f.(auth_rnd) then [] else ["auth_rnd"])
  ++ (if truthy f.(auth_sig) then [] else ["auth_sig"])
  ++ (if truthy f.(auth_host) then [] else ["auth_host"])
  ++ (if truthy f.(auth_php) then [] else ["auth_php"]).

(** *** The auth URL and the stream URL *)

(** A bare [a.php] stands for [/auth.php]. *)
Definition normalize_auth_php (php : string) : string :=
  if nonempty php then
    if String.eqb (lstrip_char "/" (strip php)) "a.php" then "/auth.php" else php
  else php.

(** The three cases of joining the host and the script. *)
Definition join_auth_url (host php : string) : string :=
  if endswith "/" host && startswith "/" php then drop_last host ++ php
  else if negb (endswith "/" host) && negb (startswith "/" php)
       then host ++ "/" ++ php
  else host ++ php.

(** Lines 424-438 on string fields. *)
Definition build_auth_url (channel_key ts rnd sig host php : string) : string :=
  let auth_sig_quoted := Quote.quote_plus sig in
  let php' := normalize_auth_php php in
  join_auth_url host php'
  ++ "?channel_id=" ++ channel_key ++ "&ts=" ++ ts ++ "&rnd=" ++ rnd
  ++ "&sig=" ++ auth_sig_quoted.

(** Lines 461-465. *)
Definition clean_m3u8_url (server_key : json) (channel_key : string) : string :=
  if eq_str server_key "top1/cdn"
  then "https://top1.newkso.ru/top1/cdn/" ++ channel_key ++ "/mono.m3u8"
  else "https://" ++ PyFormat.str server_key ++ "new.newkso.ru/"
       ++ PyFormat.str server_key ++ "/" ++ channel_key ++ "/mono.m3u8".

(** *** [try_endpoint] *)

(** A method of [str] applied to a decoded value: anything but a string
    raises. *)
Definition as_str (op : string) (v : json) : M string :=
  match v with
  | JStr s => ret s
  | _ => lib_error (BadOperand op v)
  end.

(** A link of the page made absolute. *)
Definition absolute_link (baseurl link : string) : string :=
  if startswith "http" link then link else baseurl ++ lstrip_char "/" link.

(** The loop over the player links of the new page format (lines 238-253).
    [daddylive_headers] is one dictionary changed in place, so it is threaded
    through; the result is the dictionary, the last error and, when a player
    page has an iframe, the iframe source and the player URL. *)
Fixpoint player_loop (baseurl : string) (links : list string) (hdrs : headers)
         (last_player_error : option exn)
  : M (headers * option exn * option (string * string)) :=
  match links with
  | [] => ret (hdrs, last_player_error, None)
  | link0 :: rest =>
      let link := absolute_link baseurl link0 in
      let h1 := PyDict.set "Referer" link hdrs in
      match urlparse link with
      | None =>
          player_loop baseurl rest h1 (Some (OtherError (fault_text (BadUrl link))))
      | Some (scheme, netloc) =>
          let h2 := PyDict.set "Origin" (scheme ++ "://" ++ netloc) h1 in
          fun st =>
            match fetch link h2 st with
            | (Ok content2, st') =>
                match findall iframe_pattern content2 with
                | iframe :: _ => (Ok (h2, last_player_error, Some (iframe, link)), st')
                | [] => player_loop baseurl rest h2 last_player_error st'
                end
            | (Raise e, st') => player_loop baseurl rest h2 (Some e) st'
            end
      end
  end.

(** The old page format (lines 255-276): the first anchor around a
    [Player 2] button. *)
Definition legacy_player (baseurl content1 : string) (hdrs : headers)
           (last_player_error : option exn) : M (headers * (string * string)) :=
  match findall anchor_pattern content1 with
  | [] =>
      raise (ExtractorError
               match last_player_error with
               | Some e => "No player links found. Last error: " ++ str_exn e
               | None => "No player links found"
               end)
  | link0 :: _ =>
      let link := replace "//cast" "/cast" (absolute_link baseurl link0) in
      let h1 := PyDict.set "Referer" link hdrs in
      o <- origin_of link ;;
      let h2 := PyDict.set "Origin" o h1 in
      content2 <- fetch link h2 ;;
      match findall iframe_pattern content2 with
      | [] =>
          raise (ExtractorError
                   match last_player_error with
                   | Some e => "No iframe found in any player page: " ++ str_exn e
                   | None => "No iframe found in player page"
                   end)
      | iframe :: _ => ret (h2, (iframe, link))
      end
  end.

(** The check of lines 405-421. *)
Definition check_params (channel_key : option string) (f : auth_fields) : M string :=
  match missing_params channel_key f, channel_key with
  | [], Some k => ret k
  | missing, _ =>
      raise (ExtractorError ("Parametri mancanti: " ++ join ", " missing))
  end.

(** Lines 447-497: the server lookup and the result. *)
Definition server_resolution (iframe_url netloc : string) (hdrs : headers)
           (channel_key : string) (f : auth_fields) (php : string) : M json :=
  let server_lookup_url :=
    "https://" ++ netloc ++ "/server_lookup.php?channel_id=" ++ channel_key in
  lookup_text <- fetch server_lookup_url hdrs ;;
  server_data <- match loads lookup_text with
                 | Some v => ret v
                 | None => lib_error (JsonDecode lookup_text)
                 end ;;
  server_key <- match server_data with
                | JObj d => ret (field d "server_key")
                | v => lib_error (BadOperand "get" v)
                end ;;
  if truthy server_key then
    let referer_raw := "https://" ++ netloc in
    let url := clean_m3u8_url server_key channel_key in
    ua <- match PyDict.get "User-Agent" hdrs with
          | Some v => ret v
          | None => lib_error (BadOperand "User-Agent" JNull)
          end ;;
    let stream_headers :=
      if contains "newkso.ru" url
      then [("User-Agent", JStr ua); ("Referer", JStr iframe_url);
            ("Origin", JStr referer_raw)]
      else [("User-Agent", JStr ua); ("Referer", JStr referer_raw);
            ("Origin", JStr referer_raw)] in
    ret (JObj
           [("destination_url", JStr url);
            ("request_headers", JObj stream_headers);
            ("mediaflow_endpoint", JStr "hls_manifest_proxy");
            ("auth_data",
             JObj [("channel_key", JStr channel_key);
                   ("auth_ts", f.(auth_ts));
                   ("auth_rnd", f.(auth_rnd));
                   ("auth_sig", f.(auth_sig));
                   ("auth_host", f.(auth_host));
                   ("auth_php", JStr php);
                   ("iframe_url", JStr iframe_url)])])
  else raise (ExtractorError "Nessun server_key trovato").

(** The headers of the auth request: those of the page requests with the
    iframe as referer and its origin. *)
Definition auth_headers (iframe_url netloc : string) (hdrs : headers) : headers :=
  PyDict.set "Origin" ("https://" ++ netloc) (PyDict.set "Referer" iframe_url hdrs).

(** Lines 423-445: the auth URL and the auth request, then the lookup. *)
Definition handshake (iframe_url : string) (hdrs : headers)
           (channel_key : string) (f : auth_fields) : M json :=
  sig <- as_str "quote_plus" f.(auth_sig) ;;
  php <- as_str "strip" f.(auth_php) ;;
  host <- as_str "endswith" f.(auth_host) ;;
  let auth_url :=
    build_auth_url channel_key (PyFormat.str f.(auth_ts)) (PyFormat.str f.(auth_rnd))
                   sig host php in
  p <- parse_url iframe_url ;;
  make_robust_request auth_url (auth_headers iframe_url (snd p) hdrs) 3 2 ;;;
  server_resolution iframe_url (snd p) hdrs channel_key f (normalize_auth_php php).

(** The [try] block of lines 357-501: whatever it raises is wrapped. *)
Definition param_stage (iframe_url : string) (hdrs : headers)
           (iframe_content : string) : M json :=
  catch
    (let channel_key := extract_channel_key iframe_content in
     let f := snd (decode_fields iframe_content) in
     k <- check_params channel_key f ;;
     handshake iframe_url hdrs k f)
    (fun param_error =>
       raise (ExtractorError
                ("Fallimento estrazione parametri: " ++ str_exn param_error))).

Definition try_endpoint (baseurl endpoint channel_id : string) : M json :=
  let stream_url := baseurl ++ endpoint ++ "stream-" ++ channel_id ++ ".php" in
  daddy_origin <- origin_of baseurl ;;
  let daddylive_headers :=
    [("User-Agent", user_agent); ("Referer", baseurl); ("Origin", daddy_origin)] in
  content1 <- fetch stream_url daddylive_headers ;;
  let player_links := findall player_link_pattern content1 in
  r <- player_loop baseurl player_links daddylive_headers None ;;
  found <- match snd r with
           | Some hit => ret (fst (fst r), hit)
           | None => legacy_player baseurl content1 (fst (fst r)) (snd (fst r))
           end ;;
  let hdrs := fst found in
  let player_url := snd (snd found) in
  iframe_url <- (if startswith "http" (fst (snd found)) then ret (fst (snd found))
                 else o <- origin_of player_url ;;
                      ret (o ++ "/" ++ lstrip_char "/" (fst (snd found)))) ;;
  modify (set_iframe_context (Some iframe_url)) ;;;
  iframe_content <- fetch iframe_url hdrs ;;
  param_stage iframe_url hdrs iframe_content.

(** *** [extract] *)

(** [get_daddylive_base_url]. *)
Definition probe_base_url : M string :=
  catch
    (make_robust_request "https://daddylive.sx/" [] 3 2 ;;;
     modify (set_cached_base_url (Some "https://daddylive.sx/")) ;;;
     ret "https://daddylive.sx/")
    (fun _ => ret "https://daddylive.sx/").

Definition get_daddylive_base_url : M string :=
  st <- get_state ;;
  match st.(cached_base_url) with
  | Some u => if nonempty u then ret u else probe_base_url
  | None => probe_base_url
  end.

(** The operations of [extract] on [self._stream_data_cache], which holds
    whatever [json.loads] gave at start-up: they are the dictionary
    operations on an object and what Python does on the other values. *)
Definition cache_contains (c : json) (k : string) : M bool :=
  match c with
  | JObj d => ret (PyDict.mem k d)
  | JArr l => ret (existsb (fun v => eq_str v k) l)
  | JStr s => ret (contains k s)
  | _ => lib_error (BadOperand "in" c)
  end.

Definition cache_getitem (c : json) (k : string) : M json :=
  match c with
  | JObj d =>
      match PyDict.get k d with
      | Some v => ret v
      | None => lib_error (BadOperand "getitem" c)
      end
  | _ => lib_error (BadOperand "getitem" c)
  end.

Definition cache_delitem (k : string) : M unit :=
  st <- get_state ;;
  match st.(stream_data_cache) with
  | JObj d =>
      if PyDict.mem k d then modify (set_cache (JObj (PyDict.del k d)))
      else lib_error (BadOperand "delitem" (JObj d))
  | c => lib_error (BadOperand "delitem" c)
  end.

Definition cache_setitem (k : string) (v : json) : M unit :=
  st <- get_state ;;
  match st.(stream_data_cache) with
  | JObj d => modify (set_cache (JObj (PyDict.set k v d)))
  | c => lib_error (BadOperand "setitem" c)
  end.

(** The HEAD request of the cache check, lines 518-528: valid on a status
    of 200, invalid on any other status and on any exception. *)
Definition head_probe (stream_url stream_headers : json) : M bool :=
  catch
    (get_session ;;;
     st <- get_state ;;
     modify (emit (EvHead stream_url stream_headers)) ;;;
     match http_head st.(trace) stream_url stream_headers with
     | Response code _ => ret (code =? 200)%Z
     | Fails e => raise e
     end)
    (fun _ => ret false).

(** Lines 510-536 when [force_refresh] is off: the cached entry if it is
    still valid, otherwise nothing, after the stale entry is dropped. *)
Definition cache_probe (channel_id : string) : M (option json) :=
  st <- get_state ;;
  present <- cache_contains st.(stream_data_cache) channel_id ;;
  if present then
    cached_data <- cache_getitem st.(stream_data_cache) channel_id ;;
    d <- match cached_data with
         | JObj d => ret d
         | v => lib_error (BadOperand "get" v)
         end ;;
    let stream_url := field d "destination_url" in
    let stream_headers :=
      match PyDict.get "request_headers" d with
      | Some h => h
      | None => JObj []
      end in
    is_valid <- (if truthy stream_url then head_probe stream_url stream_headers
                 else ret false) ;;
    if is_valid then ret (Some cached_data)
    else cache_delitem channel_id ;;; save_cache ;;; ret None
  else ret None.

Definition endpoints : list string := ["stream/"; "cast/"; "player/"; "watch/"].

(** The loop over the endpoints, lines 544-563. *)
Fixpoint endpoint_loop (baseurl channel_id : string) (eps : list string)
         (last_exc : option exn) : M json :=
  match eps with
  | [] =>
      raise (ExtractorError
               match last_exc with
               | Some e =>
                   "Tutti gli endpoint DLHD hanno fallito. Ultimo errore: " ++ str_exn e
               | None => "Tutti gli endpoint DLHD hanno fallito senza dettagli."
               end)
  | endpoint :: rest =>
      catch
        (result <- try_endpoint baseurl endpoint channel_id ;;
         cache_setitem channel_id result ;;;
         save_cache ;;;
         ret result)
        (fun exc => endpoint_loop baseurl channel_id rest (Some exc))
  end.

(** Everything after the cache check: the base URL, then the endpoints. *)
Definition fresh_resolution (channel_id : string) : M json :=
  baseurl <- get_daddylive_base_url ;;
  endpoint_loop baseurl channel_id endpoints None.

(** [extract(url, force_refresh)]. *)
Definition extract (url : string) (force_refresh : bool) : M json :=
  catch
    (match extract_channel_id url with
     | Some channel_id =>
         if nonempty channel_id then
           hit <- (if force_refresh then ret None else cache_probe channel_id) ;;
           match hit with
           | Some cached_data => ret cached_data
           | None => fresh_resolution channel_id
           end
         else raise (ExtractorError ("Impossibile estrarre channel ID da " ++ url))
     | None => raise (ExtractorError ("Impossibile estrarre channel ID da " ++ url))
     end)
    (fun e =>
       raise (ExtractorError ("Estrazione DLHD completamente fallita: " ++ str_exn e))).

(** [_load_cache]: a missing or empty file and a document that is not JSON
    give the empty cache; text that is not Base64 of UTF-8 raises, as the
    handler only covers [IOError] and [JSONDecodeError]. *)
Definition load_cache (file : option string) : result json :=
  match file with
  | Some encoded_data =>
      if nonempty encoded_data then
        match Base64.b64decode_utf8 encoded_data with
        | Some decoded_data =>
            match loads decoded_data with
            | Some v => Ok v
            | None => Ok (JObj [])
            end
        | None => Raise (OtherError (fault_text (BadOperand "b64decode" (JStr encoded_data))))
        end
      else Ok (JObj [])
  | None => Ok (JObj [])
  end.

(** [DLHDExtractor.__init__]. *)
Definition new_extractor (file : option string) : result state :=
  match load_cache file with
  | Ok c => Ok (mkState false None None c file [])
  | Raise e => Raise e
  end.

End Code.
End Extractor.

(** ** Well-formed values: every object holds each key once *)
Module JsonWf.
Import Json.

Fixpoint distinct (l : list string) : bool :=
  match l with
  | [] => true
  | k :: l' => negb (existsb (String.eqb k) l') && distinct l'
  end.

Fixpoint wf (v : json) : bool :=
  match v with
  | JArr l => forallb wf l
  | JObj d => distinct (map fst d) && forallb (fun kv => wf (snd kv)) d
  | _ => true
  end.

(** A bound on the nested calls the decoder makes for a value: one for the
    value and one more for each element or member. *)
Fixpoint size (v : json) : nat :=
  match v with
  | JArr l => S (fold_right (fun x n => S (size x + n)) 0 l)
  | JObj d => S (fold_right (fun kx n => S (size (snd kx) + n)) 0 d)
  | _ => 1
  end.

End JsonWf.

(** ** A small site to run the extractor on *)
Module Sample.
Import PyStr Regex Base64 Json Extractor.
Local Open Scope string_scope.

(** The netloc of [scheme://netloc/path]: up to the next [/] or [?]. *)
Fixpoint until_path (s : string) : string :=
  match s with
  | String c s' =>
      if Ascii.eqb c "/" || Ascii.eqb c "?" then EmptyString
      else String c (until_path s')
  | EmptyString => EmptyString
  end.

(** [urlparse] on absolute URLs of the form [scheme://netloc...]. *)
Fixpoint split_url (s : string) : option (string * string) :=
  match s with
  | String c s' =>
      if startswith "://" s then Some (EmptyString, until_path (drop 3 s))
      else
        match split_url s' with
        | Some (scheme, netloc) => Some (String c scheme, netloc)
        | None => None
        end
  | EmptyString => None
  end.

(** A bundle as the site embeds it: Base64 of a JSON object whose values
    are Base64 themselves. *)
Definition bundle : json :=
  JObj [("b_host", JStr (b64encode "https://auth.test/"));
        ("b_script", JStr (b64encode "a.php"));
        ("b_ts", JStr (b64encode "1700"));
        ("b_rnd", JStr (b64encode "r4nd"));
        ("b_sig", JStr (b64encode "s+g/="))].

Definition stream_page : string :=
  "<html><button class='b' data-url=" ++ dq ++ "/player/p1.php" ++ dq
  ++ ">Player 1</button></html>".

Definition player_page : string :=
  "<iframe src=" ++ dq ++ "https://frame.test/embed/1.php" ++ dq ++ " width=1>".

(** An iframe page with a channel key and an XJZ bundle and nothing else. *)
Definition xjz_page : string :=
  "<script>var CHANNEL_KEY = " ++ dq ++ "premium123" ++ dq ++ "; const XJZ = '"
  ++ b64encode (dumps bundle) ++ "';</script>".

(** An iframe page whose XJZ bundle lacks the signature and the host. *)
Definition partial_page : string :=
  "<script>const XJZ = '"
  ++ b64encode (dumps (JObj [("b_script", JStr (b64encode "a.php"));
                             ("b_ts", JStr (b64encode "1700"));
                             ("b_rnd", JStr (b64encode "r4nd"))]))
  ++ "';</script>".

(** An iframe page whose XJZ bundle is the empty object. *)
Definition empty_bundle_page : string :=
  "<script>const XJZ = '" ++ b64encode (dumps (JObj [])) ++ "';</script>".

Definition lookup_doc : string := dumps (JObj [("server_key", JStr "abc")]).

(** The site: the endpoints [stream/] and [cast/] are down, [player/]
    works; probes of cached URLs answer 404; the disk works. *)
Definition site_get (url : string) : net_outcome :=
  if String.eqb url "https://daddylive.sx/" then Response 200 "home"
  else if String.eqb url "https://daddylive.sx/player/stream-123.php"
       then Response 200 stream_page
  else if String.eqb url "https://daddylive.sx/player/p1.php"
       then Response 200 player_page
  else if String.eqb url "https://frame.test/embed/1.php" then Response 200 xjz_page
  else if startswith "https://auth.test/auth.php?" url then Response 200 "ok"
  else if String.eqb url "https://frame.test/server_lookup.php?channel_id=premium123"
       then Response 200 lookup_doc
  else Fails (TransportError "down").

Definition site : Env := {|
  urlparse := split_url;
  fault_text := fun _ => "fault";
  session_new := fun _ => None;
  http_get := fun _ url _ => site_get url;
  http_head := fun _ _ _ => Response 404 EmptyString;
  file_write := fun _ _ => None
|}.

(** The same site with live cached URLs. *)
Definition live_site : Env := {|
  urlparse := split_url;
  fault_text := fun _ => "fault";
  session_new := fun _ => None;
  http_get := fun _ url _ => site_get url;
  http_head := fun _ _ _ => Response 200 EmptyString;
  file_write := fun _ _ => None
|}.

(** A site that is wholly down. *)
Definition dead_site : Env := {|
  urlparse := split_url;
  fault_text := fun _ => "fault";
  session_new := fun _ => None;
  http_get := fun _ _ _ => Fails (TransportError "down");
  http_head := fun _ _ _ => Fails (TransportError "down");
  file_write := fun _ _ => None
|}.

(** A site that answers every request with an error that is not of the
    transport class. *)
Definition broken_site : Env := {|
  urlparse := split_url;
  fault_text := fun _ => "fault";
  session_new := fun _ => None;
  http_get := fun _ _ _ => Fails (OtherError "boom");
  http_head := fun _ _ _ => Fails (OtherError "boom");
  file_write := fun _ _ => None
|}.

(** A fresh extractor without a cache file. *)
Definition fresh : state := mkState false None None (JObj []) None [].

(** A resolved stream as [try_endpoint] returns it, and a cache holding it
    for channel 123. *)
Definition resolved : list (string * json) :=
  [("destination_url", JStr "https://abcnew.newkso.ru/abc/premium123/mono.m3u8");
   ("request_headers",
    JObj [("User-Agent", JStr user_agent);
          ("Referer", JStr "https://frame.test/embed/1.php");
          ("Origin", JStr "https://frame.test")]);
   ("mediaflow_endpoint", JStr "hls_manifest_proxy");
   ("auth_data",
    JObj [("channel_key", JStr "premium123"); ("auth_ts", JStr "1700");
          ("auth_rnd", JStr "r4nd"); ("auth_sig", JStr "s+g/=");
          ("auth_host", JStr "https://auth.test/"); ("auth_php", JStr "/auth.php");
          ("iframe_url", JStr "https://frame.test/embed/1.php")])].

Definition resolved_cache : PyDict.dict json := [("123", JObj resolved)].

Definition cached : state :=
  mkState true (Some "https://daddylive.sx/") None (JObj resolved_cache) None [].

(** A cache entry that lost its URL. *)
Definition no_url_cache : PyDict.dict json :=
  [("123", JObj [("request_headers", JObj [])])].

Definition cached_no_url : state :=
  mkState true (Some "https://daddylive.sx/") None (JObj no_url_cache) None [].

Definition watch_url : string := "https://daddylive.sx/watch/stream-123.php".

End Sample.

(** ** Vocabulary of the properties *)
Module Observe.
Import PyStr Regex Json JsonWf Extractor.
Local Open Scope string_scope.

(** The host without one trailing slash, the script without one leading
    slash: what the join puts around its single slash. *)
Definition host_stem (host : string) : string :=
  if endswith "/" host then drop_last host else host.
Definition script_stem (php : string) : string :=
  if startswith "/" php then drop_first php else php.

(** A non-empty string of decimal digits. *)
Definition numeric (d : string) : bool :=
  nonempty d && forallb digit (chars d).

(** Patterns without the capturing group. *)
Fixpoint groupfree (r : re) : bool :=
  match r with
  | Grp _ => false
  | Cat r1 r2 => groupfree r1 && groupfree r2
  | Alt r1 r2 => groupfree r1 && groupfree r2
  | _ => true
  end.

(** Patterns that set the group to digits on every path to a match. *)
Inductive captures_digits : re -> Prop :=
| cd_group : captures_digits (Grp (plus digit))
| cd_before r1 r2 : captures_digits r1 -> groupfree r2 = true -> captures_digits (r1 +++ r2)
| cd_after r1 r2 : captures_digits r2 -> captures_digits (r1 +++ r2)
| cd_either r1 r2 : captures_digits r1 -> captures_digits r2 -> captures_digits (Alt r1 r2).

(** The six parameters, in the order the code checks them. *)
Definition param_names : list string :=
  ["channel_key"; "auth_ts"; "auth_rnd"; "auth_sig"; "auth_host"; "auth_php"].

(** Whether a parameter is unset (absent or empty) after decoding. *)
Definition unset (channel_key : option string) (f : auth_fields) (name : string) : bool :=
  if String.eqb name "channel_key"
  then negb match channel_key with Some k => nonempty k | None => false end
  else if String.eqb name "auth_ts" then negb (truthy f.(auth_ts))
  else if String.eqb name "auth_rnd" then negb (truthy f.(auth_rnd))
  else if String.eqb name "auth_sig" then negb (truthy f.(auth_sig))
  else if String.eqb name "auth_host" then negb (truthy f.(auth_host))
  else if String.eqb name "auth_php" then negb (truthy f.(auth_php))
  else false.

(** The four 6-bit values of three bytes. *)
Definition sextet1 (a : ascii) : N := code a / 4.
Definition sextet2 (a b : ascii) : N := code a mod 4 * 16 + code b / 16.
Definition sextet3 (b c : ascii) : N := code b mod 16 * 4 + code c / 64.
Definition sextet4 (c : ascii) : N := code c mod 64.

(** The input after a literal does not go on with a digit. *)
Definition no_digit (rest : string) : Prop :=
  match rest with
  | EmptyString => True
  | String c _ => digit c = false
  end.

(** What the first character of a printed value is not. *)
Definition value_head (c : ascii) : bool :=
  negb (is_ws c) && negb (Ascii.eqb c "]") && negb (Ascii.eqb c "}").

Definition number_head (c : ascii) : bool := Ascii.eqb c "-" || digit c.

(** A value is read back from its printed form, whatever follows that is
    not a digit, with fuel for its size. *)
Definition parses (v : json) : Prop :=
  wf v = true ->
  forall fuel rest,
    size v <= fuel -> no_digit rest ->
    scan_once fuel (dumps v ++ rest) = Some (v, rest).

(** The number of GET requests in a run of events and the delays slept,
    in order. *)
Definition is_get (e : event) : bool :=
  match e with EvGet _ _ => true | _ => false end.
Definition gets (tr : list event) : nat := List.length (filter is_get tr).
Definition sleeps (tr : list event) : list Z :=
  flat_map (fun e => match e with EvSleep d => [d] | _ => [] end) tr.

Definition is_head (e : event) : bool :=
  match e with EvHead _ _ => true | _ => false end.

(** Whether a GET request was made on [url]. *)
Definition requested (url : string) (tr : list event) : bool :=
  existsb (fun e => match e with EvGet u _ => String.eqb u url | _ => false end) tr.

(** The delays of the exponential backoff before the attempts [a+1], ...,
    [a+n]: [initial_delay * 2^a], [initial_delay * 2^(a+1)], ... *)
Fixpoint backoff (initial_delay : Z) (a : Z) (n : nat) : list Z :=
  match n with
  | O => []
  | S n' => (initial_delay * 2 ^ a)%Z :: backoff initial_delay (a + 1) n'
  end.

(** The specification's wording of the retry rule for failures outside the
    transport class, at the default of three attempts: the request is tried
    again exactly once, that is, sent twice. *)
Definition retried_exactly_once (E : Env) (url : string) (st : state) : Prop :=
  (forall tr h, exists m, http_get tr url h = Fails (OtherError m)) ->
  gets (trace (snd (make_robust_request url [] 3 2 st))) = 2.

(** The terminal error of [extract] and its handler. *)
Definition terminal (cause : string) : exn :=
  ExtractorError ("Estrazione DLHD completamente fallita: " ++ cause).
Definition wrap_terminal : exn -> M json :=
  fun e => raise (terminal (str_exn e)).

(** The handler of the [try] block of the parameter stage. *)
Definition wrap_param_error : exn -> M json :=
  fun param_error =>
    raise (ExtractorError ("Fallimento estrazione parametri: " ++ str_exn param_error)).

(** A computation that leaves [self._stream_data_cache] alone. *)
Definition keeps_cache {A} (m : M A) : Prop :=
  forall st, stream_data_cache (snd (m st)) = stream_data_cache st.

Section WithEnv.
Context {E : Env}.

(** The state after the entry of [channel_id] is dropped from the cache
    [c] and the cache is saved. *)
Definition invalidated (c : PyDict.dict json) (channel_id : string) (st : state) : state :=
  snd (save_cache (set_cache (JObj (PyDict.del channel_id c)) st)).

(** The state after [result] is stored for [channel_id] in the cache [c]
    and the cache is saved. *)
Definition stored (c : PyDict.dict json) (channel_id : string) (result : json)
           (st : state) : state :=
  snd (save_cache (set_cache (JObj (PyDict.set channel_id result c)) st)).

(** [fails_through base cid eps st last st' last']: from the state [st],
    every endpoint of [eps] fails in turn; [st'] is the state after the last
    of them and [last'] the last error ([last] when [eps] is empty). *)
Inductive fails_through (baseurl channel_id : string)
  : list string -> state -> option exn -> state -> option exn -> Prop :=
| ft_done st last : fails_through baseurl channel_id [] st last st last
| ft_step endpoint eps st last e st1 st' last' :
    try_endpoint baseurl endpoint channel_id st = (Raise e, st1) ->
    fails_through baseurl channel_id eps st1 (Some e) st' last' ->
    fails_through baseurl channel_id (endpoint :: eps) st last st' last'.

End WithEnv.

End Observe.

(** ** Letter case *)
Module Case.
Import PyStr Regex.

(** A string with its ASCII capitals lowered. *)
Fixpoint casefold (s : string) : string :=
  match s with
  | EmptyString => EmptyString
  | String a s' => String (lower a) (casefold s')
  end.

(** Patterns whose character classes do not look at the case of a letter. *)
Fixpoint case_blind (r : re) : Prop :=
  match r with
  | Cls p | Rep p => forall c, p (lower c) = p c
  | Cat r1 r2 | Alt r1 r2 => case_blind r1 /\ case_blind r2
  | Grp r1 => case_blind r1
  | _ => True
  end.

(** Two optional results that agree up to a relation. *)
Definition agree {A B} (rel : A -> B -> Prop) (x : option A) (y : option B) : Prop :=
  match x, y with
  | Some a, Some b => rel a b
  | None, None => True
  | _, _ => False
  end.

(** The group of a match at this position, or what the search finds
    further on. *)
Definition group_or (m : option (string * string)) (further : option string)
  : option string :=
  match m with
  | Some (g, _) => Some g
  | None => further
  end.

End Case.

(** ** Bundles as a page carries them *)
Module Bundle.
Import PyStr Base64 Json Extractor.

(** The object of a bundle: every value is the Base64 text of the UTF-8
    bytes of a field. *)
Definition packed (m : list (string * string)) : json :=
  JObj (map (fun kv => (fst kv, JStr (b64encode (Utf8.encode (snd kv))))) m).

(** The literal of the page: the Base64 text of the JSON document. *)
Definition pack (m : list (string * string)) : string :=
  b64encode (Utf8.encode (dumps (packed m))).

(** The fields as the decoder hands them on. *)
Definition plain (m : list (string * string)) : PyDict.dict json :=
  map (fun kv => (fst kv, JStr (snd kv))) m.

End Bundle.

(** ** Query values *)
Module Query.
Import PyStr Quote.

(** The characters a quoted value is made of: the unreserved ones, the
    plus sign and the percent sign. *)
Definition query_safe (c : ascii) : bool :=
  always_safe c || Ascii.eqb c "+" || Ascii.eqb c "%".

Definition hex_digit (c : ascii) : N :=
  if (code c <? 58)%N then (code c - 48)%N else (code c - 55)%N.

(** Reading a quoted value back, as the receiving side does: a plus sign
    is a space, a percent sign and two hexadecimal digits are a byte. *)
Fixpoint unquote (fuel : nat) (l : list ascii) : list ascii :=
  match fuel with
  | O => []
  | S fuel' =>
      match l with
      | [] => []
      | c :: rest =>
          if Ascii.eqb c "+" then " "%char :: unquote fuel' rest
          else if Ascii.eqb c "%" then
            match rest with
            | h1 :: h2 :: rest' =>
                ascii_of_N (hex_digit h1 * 16 + hex_digit h2) :: unquote fuel' rest'
            | _ => []
            end
          else c :: unquote fuel' rest
      end
  end.

End Query.

(** ** What a run does to the state *)
Module Within.
Import PyStr Json Extractor Observe.

(** A relation between the state before and the state after that every run
    of a computation establishes, whether it returns or raises. *)
Definition respects {E : Env} {A} (R : state -> state -> Prop) (m : M A) : Prop :=
  forall st, R st (snd (m st)).

(** The run only appended events of the kind [p] to the trace. *)
Definition appends (p : event -> bool) (st st' : state) : Prop :=
  exists evs, trace st' = (trace st ++ evs)%list /\ forallb p evs = true.

Definition not_head (e : event) : bool := negb (is_head e).

(** Page traffic: sessions, GET requests and sleeps. *)
Definition page_traffic (e : event) : bool :=
  match e with
  | EvHead _ _ | EvWrite _ => false
  | _ => true
  end.

(** The session the extractor holds after the events [evs] when it held
    one or not before them; [None] when a session is built while one is
    held or closed while none is. *)
Fixpoint session_run (held : bool) (evs : list event) : option bool :=
  match evs with
  | [] => Some held
  | EvSession :: rest => if held then None else session_run true rest
  | EvSessionClose :: rest => if held then session_run false rest else None
  | _ :: rest => session_run held rest
  end.

(** Sessions are built and closed in turn, and the session field follows. *)
Definition balanced (st st' : state) : Prop :=
  exists evs, trace st' = (trace st ++ evs)%list
              /\ session_run (session st) evs = Some (session st').

(** What a computation can return: every value it returns satisfies [P]. *)
Definition returns_only {A} (P : A -> Prop) (m : M A) : Prop :=
  forall st v st', m st = (Ok v, st') -> P v.

(** A resolved stream as a caller may rely on it: the stream URL is an
    [https] URL on [newkso.ru] that ends in the channel key and
    [mono.m3u8]; the headers carry the fixed user agent, the iframe URL as
    referer and the iframe host as origin; the auth data carry the six
    parameters, none of them empty. *)
Definition stream_descriptor {E : Env} (v : json) : Prop :=
  exists (url iframe_url channel_key sig host php : string) (p : string * string)
         (ts rnd : json),
    v = JObj
          [("destination_url", JStr url);
           ("request_headers",
            JObj [("User-Agent", JStr user_agent); ("Referer", JStr iframe_url);
                  ("Origin", JStr ("https://" ++ snd p))]);
           ("mediaflow_endpoint", JStr "hls_manifest_proxy");
           ("auth_data",
            JObj [("channel_key", JStr channel_key); ("auth_ts", ts);
                  ("auth_rnd", rnd); ("auth_sig", JStr sig);
                  ("auth_host", JStr host); ("auth_php", JStr php);
                  ("iframe_url", JStr iframe_url)])]
    /\ urlparse iframe_url = Some p
    /\ startswith "https://" url = true
    /\ contains "newkso.ru" url = true
    /\ endswith ("/" ++ channel_key ++ "/mono.m3u8") url = true
    /\ nonempty channel_key = true
    /\ truthy ts = true /\ truthy rnd = true
    /\ nonempty sig = true /\ nonempty host = true /\ nonempty php = true.

(** The cache and its file are as they were. *)
Definition untouched (st st' : state) : Prop :=
  stream_data_cache st' = stream_data_cache st /\ cache_file st' = cache_file st.

(** The cache file holds the encoding of the cache in memory. *)
Definition persisted (st : state) : Prop :=
  cache_file st = Some (cache_text (stream_data_cache st)).

(** Either nothing happened to the cache and its file, or the file now
    holds the cache. *)
Definition settled (st st' : state) : Prop := untouched st st' \/ persisted st'.

End Within.

(** ** Further scenarios *)
Module Scenario.
Import PyStr Regex Base64 Json Extractor Observe.
Local Open Scope string_scope.

(** The sample site behind a connection that is reset on the first two
    requests. *)
Definition flaky_site : Env := {|
  urlparse := Sample.split_url;
  fault_text := fun _ => "fault";
  session_new := fun _ => None;
  http_get := fun tr url _ =>
    if Nat.ltb (gets tr) 2 then Fails (TransportError "reset") else Sample.site_get url;
  http_head := fun _ _ _ => Response 404 EmptyString;
  file_write := fun _ _ => None
|}.

(** An iframe page of the old format: the five values in variables set
    with [atob]. *)
Definition legacy_page : string :=
  "<script>var __a = atob(" ++ dq ++ Base64.b64encode "https://auth.test/" ++ dq ++ ");"
  ++ "var __b = atob(" ++ dq ++ Base64.b64encode "auth.php" ++ dq ++ ");"
  ++ "var __c = atob(" ++ dq ++ Base64.b64encode "1700" ++ dq ++ ");"
  ++ "var __d = atob(" ++ dq ++ Base64.b64encode "r4nd" ++ dq ++ ");"
  ++ "var __e = atob(" ++ dq ++ Base64.b64encode "s+g/=" ++ dq ++ ");</script>".

(** An extractor whose cache file held a JSON array. *)
Definition array_cached : state := mkState false None None (JArr []) (Some "W10=") [].

End Scenario.
(** * Properties *)

#[global] Arguments Ascii.eqb : simpl never.
#[global] Arguments String.eqb : simpl never.

(** ** Strings *)
Module StrFacts.
Import PyStr.

Lemma text_chars (s : string) : text (chars s) = s.
Proof. apply string_of_list_ascii_of_string. Qed.

Lemma chars_text (l : list ascii) : chars (text l) = l.
Proof. apply list_ascii_of_string_of_list_ascii. Qed.

Lemma text_app (l1 l2 : list ascii) : text (l1 ++ l2)%list = text l1 ++ text l2.
Proof. induction l1 as [|a l1 IH]; simpl; [reflexivity | now rewrite IH]. Qed.

Lemma append_assoc (a b c : string) : (a ++ b) ++ c = a ++ b ++ c.
Proof. induction a as [|x a IH]; simpl; [reflexivity | now rewrite IH]. Qed.

Lemma append_nil_r (a : string) : a ++ EmptyString = a.
Proof. induction a as [|x a IH]; simpl; [reflexivity | now rewrite IH]. Qed.

Lemma length_append (a b : string) :
  String.length (a ++ b) = String.length a + String.length b.
Proof. induction a as [|x a IH]; simpl; [reflexivity | now rewrite IH]. Qed.

(** A string that starts with a slash is the slash and the rest. *)
Lemma startswith_slash (s : string) :
  startswith "/" s = true -> s = "/" ++ drop_first s.
Proof.
  destruct s as [|c s]; simpl; [discriminate |].
  destruct (Ascii.eqb_spec "/" c) as [<- | ]; simpl; intros H;
    [reflexivity | discriminate H].
Qed.

(** A string that ends with a slash is the rest and the slash. *)
Lemma endswith_slash (s : string) :
  endswith "/" s = true -> s = drop_last s ++ "/".
Proof.
  unfold endswith, drop_last.
  change (text (rev (chars "/"))) with "/".
  destruct (rev (chars s)) as [|c l] eqn:R; simpl; [discriminate |].
  destruct (Ascii.eqb_spec "/" c) as [<- | ]; simpl; intros H0;
    [clear H0 | discriminate H0].
  assert (H : chars s = (rev l ++ ["/"%char])%list).
  { rewrite <- (rev_involutive (chars s)), R. reflexivity. }
  rewrite <- (text_chars s) at 1. rewrite H, removelast_last, text_app.
  reflexivity.
Qed.

End StrFacts.

(** ** The stream URL and the auth URL *)
Module UrlFacts.
Import PyStr Json Extractor StrFacts Observe.

Lemma join_single_slash (host php : string) :
  join_auth_url host php = host_stem host ++ "/" ++ script_stem php.
Proof.
  unfold join_auth_url, host_stem, script_stem.
  destruct (endswith "/" host) eqn:Hh; destruct (startswith "/" php) eqn:Hp; simpl.
  - now rewrite (startswith_slash php Hp) at 1.
  - rewrite (endswith_slash host Hh) at 1. now rewrite append_assoc.
  - now rewrite (startswith_slash php Hp) at 1.
  - reflexivity.
Qed.




(** The signature is percent-encoded, with [+] for a space. *)
Example quote_plus_signature :
  Quote.quote_plus "s+g/= x~y" = "s%2Bg%2F%3D+x~y".
Proof. reflexivity. Qed.

End UrlFacts.

(** ** Regular expressions: what a match leaves in the group *)
Module RegexFacts.
Import PyStr Regex StrFacts Observe.

Lemma take_prefix (d s : string) : take (String.length d) (d ++ s) = d.
Proof.
  unfold take. induction d as [|c d IH]; simpl.
  - now destruct s.
  - now rewrite IH.
Qed.

(** A successful repetition consumed characters of the class and handed
    the rest to its continuation. *)
Lemma rep_inv {A} (p : ascii -> bool) (k : string -> option A) (s : string) (x : A) :
  rep p k s = Some x ->
  exists d s', s = d ++ s' /\ forallb p (chars d) = true /\ k s' = Some x.
Proof.
  induction s as [|a s IH]; simpl; intros H.
  - exists EmptyString, EmptyString. auto.
  - destruct (p a) eqn:Pa.
    + destruct (rep p k s) as [y|] eqn:R.
      * injection H as ->. destruct (IH eq_refl) as (d & s' & -> & Hd & Hk).
        exists (String a d), s'. simpl. rewrite Pa, Hd. auto.
      * exists EmptyString, (String a s). auto.
    + exists EmptyString, (String a s). auto.
Qed.

(** Whatever the pattern, a match ran its continuation. *)
Lemma run_continues {A} (ic : bool) (r : re) :
  forall (s g : string) (k : string -> string -> option A) (x : A),
    run ic r s g k = Some x -> exists s' g', k s' g' = Some x.
Proof.
  induction r as [| lit | p | p | r1 IH1 r2 IH2 | r1 IH1 r2 IH2 | r IH |];
    simpl; intros s g k x H.
  - eauto.
  - destruct (lit_rest ic lit s); [eauto | discriminate].
  - destruct s as [|a s]; [discriminate |]. destruct (p a); [eauto | discriminate].
  - apply rep_inv in H. destruct H as (d & s' & _ & _ & H). eauto.
  - apply IH1 in H. destruct H as (s' & g' & H). eapply IH2; eauto.
  - destruct (run ic r1 s g k) eqn:R1.
    + injection H as ->. eapply IH1; eauto.
    + eapply IH2; eauto.
  - apply IH in H. destruct H as (s' & g' & H). eauto.
  - destruct s as [|a [|b s]]; [eauto | | discriminate].
    destruct (Ascii.eqb a "010"); [eauto | discriminate].
Qed.

(** A pattern without a group leaves the group as it was. *)
Lemma run_groupfree {A} (ic : bool) (r : re) :
  groupfree r = true ->
  forall (s g : string) (k : string -> string -> option A) (x : A),
    run ic r s g k = Some x -> exists s', k s' g = Some x.
Proof.
  induction r as [| lit | p | p | r1 IH1 r2 IH2 | r1 IH1 r2 IH2 | r IH |];
    simpl; intros F s g k x H; try discriminate F.
  - eauto.
  - destruct (lit_rest ic lit s); [eauto | discriminate].
  - destruct s as [|a s]; [discriminate |]. destruct (p a); [eauto | discriminate].
  - apply rep_inv in H. destruct H as (d & s' & _ & _ & H). eauto.
  - apply andb_prop in F. destruct F as [F1 F2].
    apply (IH1 F1) in H. destruct H as (s' & H). eapply (IH2 F2); eauto.
  - apply andb_prop in F. destruct F as [F1 F2].
    destruct (run ic r1 s g k) eqn:R1.
    + injection H as ->. eapply (IH1 F1); eauto.
    + eapply (IH2 F2); eauto.
  - destruct s as [|a [|b s]]; [eauto | | discriminate].
    destruct (Ascii.eqb a "010"); [eauto | discriminate].
Qed.

(** The group of digits holds exactly the digits it read. *)
Lemma run_digits_group {A} (ic : bool) (s g : string)
      (k : string -> string -> option A) (x : A) :
  run ic (Grp (plus digit)) s g k = Some x ->
  exists s' d, numeric d = true /\ s = d ++ s' /\ k s' d = Some x.
Proof.
  simpl. destruct s as [|a s]; [discriminate |].
  destruct (digit a) eqn:Da; [| discriminate].
  intros H. apply rep_inv in H. destruct H as (d & s' & -> & Hd & H).
  exists s', (String a d). split; [| split].
  - unfold numeric. simpl. now rewrite Da, Hd.
  - reflexivity.
  - assert (L : String.length (String a (d ++ s')) - String.length s'
                 = String.length (String a d)).
    { change (String.length (String a (d ++ s'))) with (S (String.length (d ++ s'))).
      change (String.length (String a d)) with (S (String.length d)).
      rewrite length_append. lia. }
    rewrite L in H.
    change (String a (d ++ s')) with (String a d ++ s') in H.
    now rewrite take_prefix in H.
Qed.

Lemma run_captures {A} (ic : bool) (r : re) :
  captures_digits r ->
  forall (s g : string) (k : string -> string -> option A) (x : A),
    run ic r s g k = Some x -> exists s' d, numeric d = true /\ k s' d = Some x.
Proof.
  induction 1 as [| r1 r2 _ IH1 F2 | r1 r2 _ IH2 | r1 r2 _ IH1 _ IH2];
    intros s g k x H.
  - apply run_digits_group in H. destruct H as (s' & d & Hd & _ & H). eauto.
  - simpl in H. apply IH1 in H. destruct H as (s' & d & Hd & H).
    apply (run_groupfree ic r2 F2) in H. destruct H as (s'' & H). eauto.
  - simpl in H. apply run_continues in H. destruct H as (s' & g' & H).
    eapply IH2; eauto.
  - simpl in H. destruct (run ic r1 s g k) eqn:R1.
    + injection H as ->. eapply IH1; eauto.
    + eapply IH2; eauto.
Qed.

(** The group that [search] returns for such a pattern is numeric. *)
Lemma search_numeric (ic : bool) (r : re) (s g : string) :
  captures_digits r -> search ic r s = Some g -> numeric g = true.
Proof.
  intros C. induction s as [|a s IH]; simpl; unfold match_here.
  - destruct (run ic r EmptyString EmptyString _) as [[g' rest]|] eqn:R; [| discriminate].
    intros [= ->]. apply (run_captures ic r C) in R.
    destruct R as (s' & d & Hd & [= <- _]). exact Hd.
  - destruct (run ic r (String a s) EmptyString _) as [[g' rest]|] eqn:R.
    + intros [= ->]. apply (run_captures ic r C) in R.
      destruct R as (s' & d & Hd & [= <- _]). exact Hd.
    + exact IH.
Qed.

End RegexFacts.

(** ** Channel identifiers *)
Module ChannelIdFacts.
Import PyStr Regex Json Extractor StrFacts RegexFacts Observe.

Create HintDb regex.
#[local] Hint Constructors captures_digits : regex.

Lemma channel_id_patterns_capture : Forall captures_digits channel_id_patterns.
Proof.
  unfold channel_id_patterns, digits.
  repeat apply Forall_cons; try apply Forall_nil; eauto 8 with regex.
Qed.

(** The first pattern that matches decides, whatever comes after it. *)
Lemma first_match_at (ic : bool) (pre : list re) (p : re) (post : list re)
      (s g : string) :
  Forall (fun q => search ic q s = None) pre ->
  search ic p s = Some g ->
  first_match ic (pre ++ p :: post)%list s = Some g.
Proof.
  induction 1 as [| q pre Hq _ IH]; simpl; intros Hp.
  - now rewrite Hp.
  - rewrite Hq. auto.
Qed.

Lemma first_match_none (ic : bool) (ps : list re) (s : string) :
  Forall (fun q => search ic q s = None) ps -> first_match ic ps s = None.
Proof. induction 1 as [| q ps Hq _ IH]; simpl; [reflexivity | now rewrite Hq]. Qed.

Lemma first_match_numeric (ic : bool) (ps : list re) (s g : string) :
  Forall captures_digits ps -> first_match ic ps s = Some g -> numeric g = true.
Proof.
  induction 1 as [| q ps Hq _ IH]; simpl; [discriminate |].
  destruct (search ic q s) as [g'|] eqn:S; [| exact IH].
  intros [= ->]. eapply search_numeric; eauto.
Qed.

(** A channel identifier is never empty. *)
Lemma extract_channel_id_numeric (url cid : string) :
  extract_channel_id url = Some cid -> numeric cid = true.
Proof. apply first_match_numeric, channel_id_patterns_capture. Qed.

Lemma numeric_nonempty (d : string) : numeric d = true -> nonempty d = true.
Proof. unfold numeric. intros H. now apply andb_prop in H. Qed.

Section WithEnv.
Context {E : Env}.

(** C7. For a watch URL that matches one of the known patterns,
    [extract_channel_id] returns the group of the first pattern of the
    ordered list that matches, and this group is a non-empty string of
    digits; for a URL that matches none of them it returns nothing, and
    [extract] fails with the terminal error without having done anything
    (no partial identifier, no request). *)
Theorem C7_channel_id_extraction (url : string) :
  (forall pre p post g,
      channel_id_patterns = (pre ++ p :: post)%list ->
      Forall (fun q => search true q url = None) pre ->
      search true p url = Some g ->
      extract_channel_id url = Some g /\ numeric g = true)
  /\ (Forall (fun q => search true q url = None) channel_id_patterns ->
      extract_channel_id url = None
      /\ forall force_refresh st,
          extract url force_refresh st
          = (Raise (terminal ("Impossibile estrarre channel ID da " ++ url)), st)).
Proof.
  split.
  - intros pre p post g Hps Hpre Hp.
    assert (H : extract_channel_id url = Some g).
    { unfold extract_channel_id. rewrite Hps. now apply first_match_at. }
    split; [exact H | now apply extract_channel_id_numeric with url].
  - intros Hnone.
    assert (H : extract_channel_id url = None)
      by now apply first_match_none.
    split; [exact H |]. intros fr st. unfold extract, catch. now rewrite H.
Qed.

End WithEnv.

(** The watch URL of channel 123 matches the second pattern, not the
    first; a URL without a stream page matches none. *)
Lemma C7_examples :
  (extract_channel_id Sample.watch_url = Some "123" /\ numeric "123" = true)
  /\ (extract_channel_id "https://daddylive.sx/schedule" = None
      /\ forall force_refresh st,
          @extract Sample.site "https://daddylive.sx/schedule" force_refresh st
          = (Raise (terminal
                      "Impossibile estrarre channel ID da https://daddylive.sx/schedule"),
             st)).
Proof.
  split.
  - apply (proj1 (@C7_channel_id_extraction Sample.site Sample.watch_url)
                 [nth 0 channel_id_patterns Eps] (nth 1 channel_id_patterns Eps)
                 (skipn 2 channel_id_patterns) "123").
    + reflexivity.
    + repeat constructor.
    + reflexivity.
  - apply (proj2 (@C7_channel_id_extraction Sample.site "https://daddylive.sx/schedule")).
    repeat constructor.
Defined.

End ChannelIdFacts.

(** ** The parameter decoder *)
Module DecoderFacts.
Import PyStr Regex Json Extractor StrFacts Observe.



(** A bundle that decodes to the empty object is no result: the cascade
    goes on to BUNDLE and to the old format. *)
Example empty_xjz_bundle_falls_through :
  extract_xjz_format Sample.empty_bundle_page = Some []
  /\ fst (decode_fields Sample.empty_bundle_page) = UsedLegacy.
Proof. vm_compute. split; reflexivity. Qed.

Lemma missing_params_spec (ck : option string) (f : auth_fields) :
  missing_params ck f = filter (unset ck f) param_names.
Proof.
  unfold missing_params, param_names, unset.
  destruct (match ck with Some k => nonempty k | None => false end);
    destruct (truthy (auth_ts f)); destruct (truthy (auth_rnd f));
    destruct (truthy (auth_sig f)); destruct (truthy (auth_host f));
    destruct (truthy (auth_php f)); reflexivity.
Qed.

Lemma missing_none_key (ck : option string) (f : auth_fields) :
  missing_params ck f = [] -> exists k, ck = Some k /\ nonempty k = true.
Proof.
  unfold missing_params. destruct ck as [k|]; [| discriminate].
  destruct (nonempty k) eqn:N; [intros _; exists k; split; [reflexivity | exact N]
                               | discriminate].
Qed.

Section WithEnv.
Context {E : Env}.


End WithEnv.


End DecoderFacts.

(** ** The request executor *)
Module ExecutorFacts.
Import PyStr Json Extractor StrFacts Observe.

Lemma gets_app (a b : list event) : gets (a ++ b)%list = gets a + gets b.
Proof. unfold gets. now rewrite filter_app, length_app. Qed.

Lemma sleeps_app (a b : list event) : sleeps (a ++ b)%list = (sleeps a ++ sleeps b)%list.
Proof. unfold sleeps. apply flat_map_app. Qed.

Section WithEnv.
Context {E : Env}.

(** One attempt against a server that fails: the request is sent once, the
    failure comes back, nothing is slept. *)
Lemma attempt_get_fails (url : string) (h : headers) (e : exn) (st : state) :
  (forall tr, session_new tr = None) ->
  (forall tr, http_get tr url h = Fails e) ->
  exists st1 evs,
    attempt_get url h st = (Raise e, st1)
    /\ trace st1 = (trace st ++ evs)%list /\ gets evs = 1 /\ sleeps evs = []
    /\ session st1 = true.
Proof.
  intros Hs Hg. unfold attempt_get, bind, get_session, get_state, modify, raise.
  destruct (session st) eqn:S.
  - rewrite Hg. eexists. exists [EvGet url h].
    split; [reflexivity |]. simpl. rewrite S. auto.
  - rewrite Hs. simpl. rewrite Hg. eexists. exists [EvSession; EvGet url h].
    split; [reflexivity |]. simpl. rewrite <- app_assoc. auto.
Qed.

(** One turn of the loop. *)
Lemma request_loop_S (url : string) (h : headers) (retries d : Z) (n : nat)
      (attempt : Z) (st : state) :
  request_loop url h retries d (S n) attempt st
  = match attempt_get url h st with
    | (Ok r, st1) => (Ok (Some r), st1)
    | (Raise (TransportError m), st1) =>
        ((if (attempt =? retries - 1)%Z then close_session else ret tt) ;;;
         if (attempt <? retries - 1)%Z then
           modify (emit (EvSleep (d * 2 ^ attempt))) ;;;
           request_loop url h retries d n (attempt + 1)
         else
           raise (ExtractorError
                    ("Tutti i " ++ str_int retries ++ " tentativi falliti per "
                     ++ url ++ ": " ++ m))) st1
    | (Raise e, st1) =>
        (if (attempt =? retries - 1)%Z then
           raise (ExtractorError ("Errore finale per " ++ url ++ ": " ++ str_exn e))
         else
           modify (emit (EvSleep d)) ;;;
           request_loop url h retries d n (attempt + 1)) st1
    end.
Proof. reflexivity. Qed.

(** The loop against a server that keeps failing outside the transport
    class: every remaining attempt is made, the fixed delay is slept between
    two attempts, the last failure is wrapped. *)
Lemma request_loop_other (url : string) (h : headers) (retries d : Z) (m : string) :
  (forall tr, session_new tr = None) ->
  (forall tr, http_get tr url h = Fails (OtherError m)) ->
  forall (n : nat) (a : Z) (st : state),
    (a + Z.of_nat n = retries)%Z ->
    exists st' evs,
      request_loop url h retries d (S n) (a - 1)%Z st
      = (Raise (ExtractorError ("Errore finale per " ++ url ++ ": " ++ m)), st')
      /\ trace st' = (trace st ++ evs)%list
      /\ gets evs = S n /\ sleeps evs = repeat d n.
Proof.
  intros Hs Hg. induction n as [|n IH]; intros a st Ha.
  - destruct (attempt_get_fails url h _ st Hs Hg) as (st1 & evs & Hat & Htr & Hgets & Hsl & _).
    rewrite request_loop_S, Hat.
    replace (a - 1 =? retries - 1)%Z with true by (symmetry; apply Z.eqb_eq; lia).
    exists st1, evs. unfold raise. simpl. auto.
  - destruct (attempt_get_fails url h _ st Hs Hg) as (st1 & evs & Hat & Htr & Hgets & Hsl & _).
    rewrite request_loop_S, Hat.
    replace (a - 1 =? retries - 1)%Z with false by (symmetry; apply Z.eqb_neq; lia).
    unfold bind at 1, modify at 1.
    destruct (IH (a + 1)%Z (emit (EvSleep d) st1) ltac:(lia)) as (st' & evs' & Hl & Htr' & Hgets' & Hsl').
    replace (a + 1 - 1)%Z with (a - 1 + 1)%Z in Hl by lia.
    rewrite Hl. exists st', (evs ++ EvSleep d :: evs')%list.
    split; [reflexivity |]. split; [| split].
    + rewrite Htr'. simpl. rewrite Htr. now rewrite <- !app_assoc.
    + rewrite gets_app. change (EvSleep d :: evs') with ([EvSleep d] ++ evs')%list.
      rewrite gets_app, Hgets, Hgets'. reflexivity.
    + rewrite sleeps_app. simpl. now rewrite Hsl, Hsl'.
Qed.

(** The loop against a server that keeps failing in the transport class:
    every remaining attempt is made, the delay doubles from one attempt to
    the next, the session is dropped at the end and the last failure is
    wrapped. *)
Lemma request_loop_transport (url : string) (h : headers) (retries d : Z) (m : string) :
  (forall tr, session_new tr = None) ->
  (forall tr, http_get tr url h = Fails (TransportError m)) ->
  forall (n : nat) (a : Z) (st : state),
    (a + Z.of_nat n = retries)%Z ->
    exists st' evs,
      request_loop url h retries d (S n) (a - 1)%Z st
      = (Raise (ExtractorError
                  ("Tutti i " ++ str_int retries ++ " tentativi falliti per "
                   ++ url ++ ": " ++ m)), st')
      /\ trace st' = (trace st ++ evs)%list
      /\ gets evs = S n /\ sleeps evs = backoff d (a - 1) n
      /\ session st' = false.
Proof.
  intros Hs Hg. induction n as [|n IH]; intros a st Ha.
  - destruct (attempt_get_fails url h _ st Hs Hg) as (st1 & evs & Hat & Htr & Hgets & Hsl & Hse).
    rewrite request_loop_S, Hat.
    replace (a - 1 =? retries - 1)%Z with true by (symmetry; apply Z.eqb_eq; lia).
    replace (a - 1 <? retries - 1)%Z with false by (symmetry; apply Z.ltb_ge; lia).
    unfold bind, close_session, raise. rewrite Hse.
    eexists. exists (evs ++ [EvSessionClose])%list.
    split; [reflexivity |]. simpl. rewrite Htr, <- app_assoc.
    split; [reflexivity |]. rewrite gets_app, sleeps_app, Hgets, Hsl. auto.
  - destruct (attempt_get_fails url h _ st Hs Hg) as (st1 & evs & Hat & Htr & Hgets & Hsl & Hse).
    rewrite request_loop_S, Hat.
    replace (a - 1 =? retries - 1)%Z with false by (symmetry; apply Z.eqb_neq; lia).
    replace (a - 1 <? retries - 1)%Z with true by (symmetry; apply Z.ltb_lt; lia).
    unfold bind at 1. unfold ret at 1. unfold bind at 1, modify at 1.
    destruct (IH (a + 1)%Z (emit (EvSleep (d * 2 ^ (a - 1))) st1) ltac:(lia))
      as (st' & evs' & Hl & Htr' & Hgets' & Hsl' & Hse').
    replace (a + 1 - 1)%Z with (a - 1 + 1)%Z in Hl, Hsl' by lia.
    rewrite Hl. exists st', (evs ++ EvSleep (d * 2 ^ (a - 1)) :: evs')%list.
    split; [reflexivity |]. split; [| split; [| split]].
    + rewrite Htr'. simpl. rewrite Htr. now rewrite <- !app_assoc.
    + rewrite gets_app.
      change (EvSleep (d * 2 ^ (a - 1)) :: evs')
        with ([EvSleep (d * 2 ^ (a - 1))] ++ evs')%list.
      rewrite gets_app, Hgets, Hgets'. reflexivity.
    + rewrite sleeps_app. simpl. now rewrite Hsl, Hsl'.
    + exact Hse'.
Qed.

(** C9, as the code has it.  With [retries] attempts (three by default),
    against a server that is reachable for a session: a failure outside the
    transport class is retried [retries - 1] times, each time after the
    fixed delay [initial_delay], and the last failure is surfaced wrapped in
    an [ExtractorError]; a failure of the transport class is retried
    [retries - 1] times with the delay [initial_delay * 2^attempt] before the
    next attempt, then the session is dropped and the failure is surfaced
    wrapped in an [ExtractorError]. *)
Theorem C9_retry_policy (url : string) (hdrs h : headers) (retries d : Z)
        (m : string) (st : state) :
  (1 <= retries)%Z ->
  (forall tr, session_new tr = None) ->
  get_headers_for_url url hdrs st = (Ok h, st) ->
  ((forall tr, http_get tr url h = Fails (OtherError m)) ->
   exists st' evs,
     make_robust_request url hdrs retries d st
     = (Raise (ExtractorError ("Errore finale per " ++ url ++ ": " ++ m)), st')
     /\ trace st' = (trace st ++ evs)%list
     /\ gets evs = Z.to_nat retries
     /\ sleeps evs = repeat d (Z.to_nat retries - 1))
  /\ ((forall tr, http_get tr url h = Fails (TransportError m)) ->
      exists st' evs,
        make_robust_request url hdrs retries d st
        = (Raise (ExtractorError
                    ("Tutti i " ++ str_int retries ++ " tentativi falliti per "
                     ++ url ++ ": " ++ m)), st')
        /\ trace st' = (trace st ++ evs)%list
        /\ gets evs = Z.to_nat retries
        /\ sleeps evs = backoff d 0 (Z.to_nat retries - 1)
        /\ session st' = false).
Proof.
  intros Hr Hs Hh.
  assert (Hn : Z.to_nat retries = S (Z.to_nat retries - 1)) by lia.
  split; intros Hg.
  - destruct (request_loop_other url h retries d m Hs Hg
                (Z.to_nat retries - 1) 1%Z st ltac:(lia))
      as (st' & evs & Hl & Htr & Hgets & Hsl).
    exists st', evs. simpl (1 - 1)%Z in Hl. split.
    + unfold make_robust_request, bind. rewrite Hh, Hn. exact Hl.
    + repeat split; auto; lia.
  - destruct (request_loop_transport url h retries d m Hs Hg
                (Z.to_nat retries - 1) 1%Z st ltac:(lia))
      as (st' & evs & Hl & Htr & Hgets & Hsl & Hse).
    exists st', evs. simpl (1 - 1)%Z in Hl, Hsl. split.
    + unfold make_robust_request, bind. rewrite Hh, Hn. exact Hl.
    + repeat split; auto; lia.
Qed.

End WithEnv.

(** With the default three attempts: three requests and the delays 2, 2
    against failures outside the transport class, three requests and the
    delays 2, 4 against transport failures. *)
Lemma C9_default_retries :
  (exists st' evs,
      @make_robust_request Sample.broken_site "https://daddylive.sx/" [] 3 2 Sample.fresh
      = (Raise (ExtractorError "Errore finale per https://daddylive.sx/: boom"), st')
      /\ trace st' = (trace Sample.fresh ++ evs)%list
      /\ gets evs = 3 /\ sleeps evs = [2; 2]%Z)
  /\ (exists st' evs,
         @make_robust_request Sample.dead_site "https://daddylive.sx/" [] 3 2 Sample.fresh
         = (Raise (ExtractorError
                     "Tutti i 3 tentativi falliti per https://daddylive.sx/: down"), st')
         /\ trace st' = (trace Sample.fresh ++ evs)%list
         /\ gets evs = 3 /\ sleeps evs = [2; 4]%Z
         /\ session st' = false).
Proof.
  split.
  - apply (proj1 (@C9_retry_policy Sample.broken_site "https://daddylive.sx/" [] []
                    3 2 "boom" Sample.fresh ltac:(lia) ltac:(reflexivity)
                    ltac:(reflexivity))).
    reflexivity.
  - apply (proj2 (@C9_retry_policy Sample.dead_site "https://daddylive.sx/" [] []
                    3 2 "down" Sample.fresh ltac:(lia) ltac:(reflexivity)
                    ltac:(reflexivity))).
    reflexivity.
Defined.

(** C9 as the specification words it fails: against a server that always
    fails outside the transport class the request is sent three times, not
    twice. *)
Lemma C9_not_retried_once :
  ~ retried_exactly_once Sample.broken_site "https://daddylive.sx/" Sample.fresh.
Proof.
  unfold retried_exactly_once. intros H.
  assert (G : gets (trace (snd (@make_robust_request Sample.broken_site
                                   "https://daddylive.sx/" [] 3 2 Sample.fresh))) = 3)
    by reflexivity.
  rewrite H in G; [discriminate |].
  intros tr h. exists "boom". reflexivity.
Qed.

End ExecutorFacts.

(** ** The pipeline leaves the cache alone until a result is stored *)
Module FrameFacts.
Import PyStr Regex Json Extractor StrFacts Observe ExecutorFacts.

Lemma keeps_ret {A} (a : A) : keeps_cache (ret a).
Proof. intros st. reflexivity. Qed.

Lemma keeps_raise {A} (e : exn) : keeps_cache (@raise A e).
Proof. intros st. reflexivity. Qed.

Lemma keeps_get_state : keeps_cache get_state.
Proof. intros st. reflexivity. Qed.

Lemma keeps_modify (f : state -> state) :
  (forall st, stream_data_cache (f st) = stream_data_cache st) ->
  keeps_cache (modify f).
Proof. intros H st. apply H. Qed.

Lemma keeps_bind {A B} (m : M A) (k : A -> M B) :
  keeps_cache m -> (forall a, keeps_cache (k a)) -> keeps_cache (bind m k).
Proof.
  intros Hm Hk st. unfold bind. specialize (Hm st).
  destruct (m st) as [[a|e] st1]; simpl in *.
  - now rewrite Hk.
  - exact Hm.
Qed.

Lemma keeps_catch {A} (m : M A) (h : exn -> M A) :
  keeps_cache m -> (forall e, keeps_cache (h e)) -> keeps_cache (catch m h).
Proof.
  intros Hm Hh st. unfold catch. specialize (Hm st).
  destruct (m st) as [[a|e] st1]; simpl in *.
  - exact Hm.
  - now rewrite Hh.
Qed.

Lemma keeps_at {A} (m : M A) (st : state) :
  keeps_cache m -> stream_data_cache (snd (m st)) = stream_data_cache st.
Proof. intros H. apply H. Qed.

Create HintDb keeps.

Ltac kc :=
  repeat first
    [ assumption
    | apply keeps_ret
    | apply keeps_raise
    | apply keeps_get_state
    | apply keeps_modify; intros ?; reflexivity
    | apply keeps_bind; [| intros ?]
    | apply keeps_catch; [| intros ?]
    | match goal with
      | |- keeps_cache (match ?x with _ => _ end) => destruct x
      | |- keeps_cache (if ?b then _ else _) => destruct b
      end
    | solve [auto with keeps] ].

Section WithEnv.
Context {E : Env}.

Lemma keeps_lib_error {A} (f : fault) : keeps_cache (@lib_error E A f).
Proof. apply keeps_raise. Qed.
#[local] Hint Resolve keeps_lib_error : keeps.

Lemma keeps_parse_url (u : string) : keeps_cache (parse_url u).
Proof. unfold parse_url. kc. Qed.
#[local] Hint Resolve keeps_parse_url : keeps.

Lemma keeps_origin_of (u : string) : keeps_cache (origin_of u).
Proof. unfold origin_of. kc. Qed.
#[local] Hint Resolve keeps_origin_of : keeps.

Lemma keeps_get_session : keeps_cache get_session.
Proof.
  intros st. unfold get_session.
  destruct (session st); [reflexivity |].
  destruct (session_new (trace st)); reflexivity.
Qed.
#[local] Hint Resolve keeps_get_session : keeps.

Lemma keeps_close_session : keeps_cache close_session.
Proof. intros st. unfold close_session. destruct (session st); reflexivity. Qed.
#[local] Hint Resolve keeps_close_session : keeps.

Lemma keeps_get_headers_for_url (url : string) (h : headers) :
  keeps_cache (get_headers_for_url url h).
Proof. unfold get_headers_for_url. kc. Qed.
#[local] Hint Resolve keeps_get_headers_for_url : keeps.

Lemma keeps_attempt_get (url : string) (h : headers) : keeps_cache (attempt_get url h).
Proof. unfold attempt_get. kc. Qed.
#[local] Hint Resolve keeps_attempt_get : keeps.

Lemma keeps_request_loop (url : string) (h : headers) (retries d : Z) (n : nat) :
  forall a, keeps_cache (request_loop url h retries d n a).
Proof.
  induction n as [|n IH]; intros a; [apply keeps_ret |].
  intros st. rewrite request_loop_S.
  pose proof (keeps_attempt_get url h st) as Ha.
  destruct (attempt_get url h st) as [[r|e] st1]; simpl in Ha; [exact Ha |].
  rewrite <- Ha. destruct e; apply keeps_at; kc.
Qed.
#[local] Hint Resolve keeps_request_loop : keeps.

Lemma keeps_make_robust_request (url : string) (h : headers) (retries d : Z) :
  keeps_cache (make_robust_request url h retries d).
Proof. unfold make_robust_request. kc. Qed.
#[local] Hint Resolve keeps_make_robust_request : keeps.

Lemma keeps_fetch (url : string) (h : headers) : keeps_cache (fetch url h).
Proof. unfold fetch. kc. Qed.
#[local] Hint Resolve keeps_fetch : keeps.

Lemma keeps_player_loop (baseurl : string) (links : list string) :
  forall h last, keeps_cache (player_loop baseurl links h last).
Proof.
  induction links as [|link links IH]; intros h last; simpl; [apply keeps_ret |].
  destruct (urlparse (absolute_link baseurl link)) as [[scheme netloc]|]; [| apply IH].
  intros st.
  pose proof (keeps_fetch (absolute_link baseurl link)
                (PyDict.set "Origin" (scheme ++ "://" ++ netloc)
                   (PyDict.set "Referer" (absolute_link baseurl link) h)) st) as Hf.
  destruct (fetch _ _ st) as [[content|e] st1]; simpl in Hf.
  - destruct (findall iframe_pattern content); [now rewrite IH | exact Hf].
  - now rewrite IH.
Qed.
#[local] Hint Resolve keeps_player_loop : keeps.

Lemma keeps_legacy_player (baseurl content : string) (h : headers) (last : option exn) :
  keeps_cache (legacy_player baseurl content h last).
Proof. unfold legacy_player. kc. Qed.
#[local] Hint Resolve keeps_legacy_player : keeps.

Lemma keeps_as_str (op : string) (v : json) : keeps_cache (as_str op v).
Proof. unfold as_str. kc. Qed.
#[local] Hint Resolve keeps_as_str : keeps.

Lemma keeps_check_params (ck : option string) (f : auth_fields) :
  keeps_cache (check_params ck f).
Proof. unfold check_params. kc. Qed.
#[local] Hint Resolve keeps_check_params : keeps.

Lemma keeps_server_resolution (iframe_url netloc : string) (h : headers)
      (k : string) (f : auth_fields) (php : string) :
  keeps_cache (server_resolution iframe_url netloc h k f php).
Proof. unfold server_resolution. kc. Qed.
#[local] Hint Resolve keeps_server_resolution : keeps.

Lemma keeps_handshake (iframe_url : string) (h : headers) (k : string) (f : auth_fields) :
  keeps_cache (handshake iframe_url h k f).
Proof. unfold handshake. kc. Qed.
#[local] Hint Resolve keeps_handshake : keeps.

Lemma keeps_param_stage (iframe_url : string) (h : headers) (content : string) :
  keeps_cache (param_stage iframe_url h content).
Proof. unfold param_stage. kc. Qed.
#[local] Hint Resolve keeps_param_stage : keeps.

(** [try_endpoint] never touches the cache. *)
Lemma keeps_try_endpoint (baseurl endpoint channel_id : string) :
  keeps_cache (try_endpoint baseurl endpoint channel_id).
Proof. unfold try_endpoint. kc. Qed.

Lemma keeps_get_daddylive_base_url : keeps_cache get_daddylive_base_url.
Proof. unfold get_daddylive_base_url, probe_base_url. kc. Qed.

(** Failing endpoints leave the cache as it was. *)
Lemma fails_through_cache (baseurl cid : string) (eps : list string)
      (st : state) (last : option exn) (st' : state) (last' : option exn) :
  fails_through baseurl cid eps st last st' last' ->
  stream_data_cache st' = stream_data_cache st.
Proof.
  induction 1 as [| ep eps st last e st1 st' last' Ht _ IH]; [reflexivity |].
  rewrite IH. pose proof (keeps_try_endpoint baseurl ep cid st) as K.
  now rewrite Ht in K.
Qed.

End WithEnv.
End FrameFacts.

(** ** [extract]: the cache check and the endpoints *)
Module ExtractFacts.
Import PyStr Regex Json Extractor StrFacts RegexFacts ChannelIdFacts Observe
       ExecutorFacts FrameFacts.

Lemma get_del_distinct {V} (k : string) (d : PyDict.dict V) :
  JsonWf.distinct (map fst d) = true -> PyDict.get k (PyDict.del k d) = None.
Proof.
  induction d as [|[k' v] d IH]; simpl; [reflexivity |].
  intros H. apply andb_prop in H. destruct H as [Hk Hd].
  destruct (String.eqb k k') eqn:K.
  - apply String.eqb_eq in K. subst k'.
    apply negb_true_iff in Hk. clear IH Hd.
    induction d as [|[k2 v2] d IH]; simpl in *; [reflexivity |].
    apply orb_false_elim in Hk. destruct Hk as [H1 H2].
    rewrite H1. auto.
  - simpl. rewrite K. auto.
Qed.

Section WithEnv.
Context {E : Env}.

(** Once the channel identifier is known, [extract] is the cache check
    followed by the fresh resolution, under the terminal handler. *)
Lemma extract_with_id (url cid : string) (force_refresh : bool) (st : state) :
  extract_channel_id url = Some cid ->
  extract url force_refresh st
  = catch (hit <- (if force_refresh then ret None else cache_probe cid) ;;
           match hit with
           | Some cached_data => ret cached_data
           | None => fresh_resolution cid
           end) wrap_terminal st.
Proof.
  intros H. unfold extract. rewrite H.
  now rewrite (numeric_nonempty cid (extract_channel_id_numeric url cid H)).
Qed.

(** Saving never raises; it records the write and keeps the cache. *)
Lemma save_cache_spec (st : state) :
  fst (save_cache st) = Ok tt
  /\ stream_data_cache (snd (save_cache st)) = stream_data_cache st
  /\ trace (snd (save_cache st))
     = (trace st ++ [EvWrite (cache_text (stream_data_cache st))])%list
  /\ (file_write (trace st) (cache_text (stream_data_cache st)) = None ->
      cache_file (snd (save_cache st)) = Some (cache_text (stream_data_cache st))).
Proof.
  unfold save_cache.
  destruct (file_write (trace st) (cache_text (stream_data_cache st))) eqn:W;
    simpl; repeat split; auto; discriminate.
Qed.

Lemma invalidated_spec (c : PyDict.dict json) (cid : string) (st : state) :
  stream_data_cache (invalidated c cid st) = JObj (PyDict.del cid c)
  /\ trace (invalidated c cid st)
     = (trace st ++ [EvWrite (cache_text (JObj (PyDict.del cid c)))])%list
  /\ (file_write (trace st) (cache_text (JObj (PyDict.del cid c))) = None ->
      cache_file (invalidated c cid st) = Some (cache_text (JObj (PyDict.del cid c)))).
Proof.
  unfold invalidated.
  destruct (save_cache_spec (set_cache (JObj (PyDict.del cid c)) st)) as (_ & H1 & H2 & H3).
  auto.
Qed.

Lemma stored_spec (c : PyDict.dict json) (cid : string) (r : json) (st : state) :
  stream_data_cache (stored c cid r st) = JObj (PyDict.set cid r c)
  /\ trace (stored c cid r st)
     = (trace st ++ [EvWrite (cache_text (JObj (PyDict.set cid r c)))])%list
  /\ (file_write (trace st) (cache_text (JObj (PyDict.set cid r c))) = None ->
      cache_file (stored c cid r st) = Some (cache_text (JObj (PyDict.set cid r c)))).
Proof.
  unfold stored.
  destruct (save_cache_spec (set_cache (JObj (PyDict.set cid r c)) st)) as (_ & H1 & H2 & H3).
  auto.
Qed.

(** Dropping a stale entry: the entry goes, the cache is saved, nothing is
    raised. *)
Lemma invalidate_run (c : PyDict.dict json) (cid : string) (v : json) (st : state) :
  stream_data_cache st = JObj c ->
  PyDict.get cid c = Some v ->
  (cache_delitem cid ;;; save_cache ;;; ret (@None json)) st
  = (Ok None, invalidated c cid st).
Proof.
  intros Hc Hg. unfold cache_delitem, invalidated.
  unfold bind, get_state, modify, ret. rewrite Hc. unfold PyDict.mem. rewrite Hg.
  destruct (save_cache (set_cache (JObj (PyDict.del cid c)) st)) as [r st'] eqn:S.
  pose proof (save_cache_spec (set_cache (JObj (PyDict.del cid c)) st)) as (H & _).
  rewrite S in H. simpl in H. now subst r.
Qed.

(** The HEAD probe with a session at hand: the request is made with the
    stored URL and headers; it is valid exactly on a status of 200. *)
Lemma head_probe_run (u h : json) (st st0 : state) :
  get_session st = (Ok tt, st0) ->
  head_probe u h st
  = (Ok match http_head (trace st0) u h with
        | Response code _ => (code =? 200)%Z
        | Fails _ => false
        end, emit (EvHead u h) st0).
Proof.
  intros Hs. unfold head_probe, catch, bind, get_state, modify. rewrite Hs.
  destruct (http_head (trace st0) u h); reflexivity.
Qed.

(** C6. With [force_refresh] off, an entry for the channel in the cache
    whose stored [destination_url] is set, and a session at hand: a HEAD
    request is made on the stored URL with the stored headers; on a status
    of 200 the cached entry is returned at once and nothing else is done; on
    any other outcome (another status, an exception) the entry is deleted
    from the cache, the cache is saved, and [extract] is the fresh resolution
    from that state: the invalidation itself raises nothing. *)
Theorem C6_cache_probe (url cid : string) (c d : PyDict.dict json) (st st0 : state) :
  extract_channel_id url = Some cid ->
  stream_data_cache st = JObj c ->
  PyDict.get cid c = Some (JObj d) ->
  truthy (field d "destination_url") = true ->
  get_session st = (Ok tt, st0) ->
  let u := field d "destination_url" in
  let h := match PyDict.get "request_headers" d with
           | Some h => h
           | None => JObj []
           end in
  let st1 := emit (EvHead u h) st0 in
  (forall b, http_head (trace st0) u h = Response 200 b ->
             extract url false st = (Ok (JObj d), st1))
  /\ ((forall b, http_head (trace st0) u h <> Response 200 b) ->
      extract url false st
      = catch (fresh_resolution cid) wrap_terminal (invalidated c cid st1)
      /\ stream_data_cache (invalidated c cid st1) = JObj (PyDict.del cid c)
      /\ (JsonWf.distinct (map fst c) = true ->
          PyDict.get cid (PyDict.del cid c) = None)
      /\ trace (invalidated c cid st1)
         = (trace st0 ++ [EvHead u h; EvWrite (cache_text (JObj (PyDict.del cid c)))])%list
      /\ (file_write (trace st1) (cache_text (JObj (PyDict.del cid c))) = None ->
          cache_file (invalidated c cid st1)
          = Some (cache_text (JObj (PyDict.del cid c))))).
Proof.
  intros Hid Hc Hg Hu Hs u h st1.
  assert (Hc1 : stream_data_cache st1 = JObj c).
  { pose proof (keeps_get_session st) as K. rewrite Hs in K. simpl in K.
    unfold st1. simpl. now rewrite K. }
  assert (Hprobe : forall valid,
             match http_head (trace st0) u h with
             | Response code _ => (code =? 200)%Z
             | Fails _ => false
             end = valid ->
             cache_probe cid st
             = if valid then (Ok (Some (JObj d)), st1)
               else (Ok None, invalidated c cid st1)).
  { intros valid Hv. unfold cache_probe.
    unfold bind, get_state. rewrite Hc.
    unfold cache_contains, cache_getitem, ret, PyDict.mem. rewrite Hg.
    rewrite Hu. fold u. fold h.
    rewrite (head_probe_run u h st st0 Hs). fold st1. rewrite Hv.
    destruct valid; [reflexivity |].
    pose proof (invalidate_run c cid (JObj d) st1 Hc1 Hg) as I.
    unfold bind, ret in I. exact I. }
  split.
  - intros b Hb. rewrite (extract_with_id url cid false st Hid).
    unfold catch, bind. rewrite (Hprobe true); [reflexivity |]. now rewrite Hb.
  - intros Hn.
    destruct (invalidated_spec c cid st1) as (I1 & I2 & I3).
    split; [| split; [exact I1 | split; [apply get_del_distinct | split; [| exact I3]]]].
    + rewrite (extract_with_id url cid false st Hid).
      unfold catch at 1. unfold bind. rewrite (Hprobe false); [reflexivity |].
      destruct (http_head (trace st0) u h) as [code b|e] eqn:Hh; [| reflexivity].
      apply Z.eqb_neq. intros ->. now apply (Hn b).
    + rewrite I2. unfold st1. simpl. now rewrite <- app_assoc.
Qed.

(** A missing URL and an empty URL are both unset. *)
Lemma unset_url (d : PyDict.dict json) :
  PyDict.get "destination_url" d = None
  \/ PyDict.get "destination_url" d = Some (JStr EmptyString) ->
  truthy (field d "destination_url") = false.
Proof. unfold field. now intros [-> | ->]. Qed.

(** C10. With [force_refresh] off and an entry for the channel in the cache
    whose stored [destination_url] is missing or empty, no probe is made:
    the entry is deleted from the cache, the cache is saved, and [extract]
    is the fresh resolution from that state; between the call and the fresh
    resolution the only event is the write of the cache file. *)
Theorem C10_entry_without_url (url cid : string) (c d : PyDict.dict json) (st : state) :
  extract_channel_id url = Some cid ->
  stream_data_cache st = JObj c ->
  PyDict.get cid c = Some (JObj d) ->
  PyDict.get "destination_url" d = None
  \/ PyDict.get "destination_url" d = Some (JStr EmptyString) ->
  extract url false st
  = catch (fresh_resolution cid) wrap_terminal (invalidated c cid st)
  /\ stream_data_cache (invalidated c cid st) = JObj (PyDict.del cid c)
  /\ (JsonWf.distinct (map fst c) = true ->
      PyDict.get cid (PyDict.del cid c) = None)
  /\ trace (invalidated c cid st)
     = (trace st ++ [EvWrite (cache_text (JObj (PyDict.del cid c)))])%list
  /\ (file_write (trace st) (cache_text (JObj (PyDict.del cid c))) = None ->
      cache_file (invalidated c cid st) = Some (cache_text (JObj (PyDict.del cid c)))).
Proof.
  intros Hid Hc Hg Hu. apply unset_url in Hu.
  destruct (invalidated_spec c cid st) as (I1 & I2 & I3).
  split; [| split; [exact I1 | split; [apply get_del_distinct | split; [exact I2 | exact I3]]]].
  rewrite (extract_with_id url cid false st Hid).
  unfold catch at 1. unfold bind at 1.
  assert (Hprobe : cache_probe cid st = (Ok None, invalidated c cid st)).
  { unfold cache_probe.
    unfold bind, get_state. rewrite Hc.
    unfold cache_contains, cache_getitem, ret, PyDict.mem. rewrite Hg, Hu.
    pose proof (invalidate_run c cid (JObj d) st Hc Hg) as I.
    unfold bind, ret in I. exact I. }
  rewrite Hprobe. reflexivity.
Qed.

(** The loop passes over the endpoints that fail. *)
Lemma loop_skips_failures (base cid : string) (pre : list string)
      (st : state) (last : option exn) (st' : state) (last' : option exn) :
  fails_through base cid pre st last st' last' ->
  forall rest,
    endpoint_loop base cid (pre ++ rest)%list last st
    = endpoint_loop base cid rest last' st'.
Proof.
  induction 1 as [| ep eps st last e st1 st' last' Ht _ IH]; intros rest;
    [reflexivity |].
  simpl. unfold catch at 1. unfold bind at 1. rewrite Ht. apply IH.
Qed.

(** The first endpoint that succeeds ends the loop: its result is stored,
    the cache is saved, the result is returned. *)
Lemma loop_first_success (base cid endpoint : string) (rest : list string)
      (last : option exn) (c : PyDict.dict json) (r : json) (st st1 : state) :
  try_endpoint base endpoint cid st = (Ok r, st1) ->
  stream_data_cache st = JObj c ->
  endpoint_loop base cid (endpoint :: rest) last st = (Ok r, stored c cid r st1).
Proof.
  intros Ht Hc. simpl. unfold catch, bind at 1. rewrite Ht.
  assert (Hc1 : stream_data_cache st1 = JObj c).
  { pose proof (keeps_try_endpoint base endpoint cid st) as K.
    rewrite Ht in K. simpl in K. now rewrite K. }
  unfold cache_setitem. unfold bind, get_state, modify, ret. rewrite Hc1.
  unfold stored.
  pose proof (save_cache_spec (set_cache (JObj (PyDict.set cid r c)) st1)) as (H & _).
  destruct (save_cache (set_cache (JObj (PyDict.set cid r c)) st1)) as [u st2].
  simpl in H. now subst u.
Qed.

Lemma get_set_same {V} (k : string) (v : V) (d : PyDict.dict V) :
  PyDict.get k (PyDict.set k v d) = Some v.
Proof.
  induction d as [|[k' v'] d IH]; simpl.
  - now rewrite String.eqb_refl.
  - destruct (String.eqb k k') eqn:K; simpl; now rewrite K.
Qed.


End WithEnv.

(** On the sample site a valid cached entry is returned after one HEAD
    request; a stale one (status 404) is dropped, the cache is saved and the
    fresh resolution follows. *)
Lemma C6_examples :
  @extract Sample.live_site Sample.watch_url false Sample.cached
  = (Ok (JObj Sample.resolved),
     emit (EvHead (JStr "https://abcnew.newkso.ru/abc/premium123/mono.m3u8")
                  (JObj [("User-Agent", JStr user_agent);
                         ("Referer", JStr "https://frame.test/embed/1.php");
                         ("Origin", JStr "https://frame.test")]))
          Sample.cached)
  /\ @extract Sample.site Sample.watch_url false Sample.cached
     = catch (@fresh_resolution Sample.site "123") wrap_terminal
             (@invalidated Sample.site Sample.resolved_cache "123"
                (emit (EvHead (JStr "https://abcnew.newkso.ru/abc/premium123/mono.m3u8")
                              (JObj [("User-Agent", JStr user_agent);
                                     ("Referer", JStr "https://frame.test/embed/1.php");
                                     ("Origin", JStr "https://frame.test")]))
                      Sample.cached)).
Proof.
  split.
  - apply (proj1 (@C6_cache_probe Sample.live_site Sample.watch_url "123"
                    Sample.resolved_cache Sample.resolved Sample.cached Sample.cached
                    eq_refl eq_refl eq_refl eq_refl eq_refl) EmptyString).
    reflexivity.
  - apply (proj2 (@C6_cache_probe Sample.site Sample.watch_url "123"
                    Sample.resolved_cache Sample.resolved Sample.cached Sample.cached
                    eq_refl eq_refl eq_refl eq_refl eq_refl)).
    intros b. discriminate.
Defined.

(** An entry without a URL is dropped without a probe: the only event
    before the fresh resolution is the write of the emptied cache. *)
Lemma C10_example :
  @extract Sample.site Sample.watch_url false Sample.cached_no_url
  = catch (@fresh_resolution Sample.site "123") wrap_terminal
          (@invalidated Sample.site Sample.no_url_cache "123" Sample.cached_no_url)
  /\ trace (@invalidated Sample.site Sample.no_url_cache "123" Sample.cached_no_url)
     = [EvWrite "e30="].
Proof.
  destruct (@C10_entry_without_url Sample.site Sample.watch_url "123"
              Sample.no_url_cache [("request_headers", JObj [])] Sample.cached_no_url
              eq_refl eq_refl eq_refl (or_introl eq_refl))
    as (H1 & _ & _ & H2 & _).
  split; [exact H1 | exact H2].
Defined.


(** The whole call on the sample site: the result of [player/] comes back,
    the three endpoints were requested in order and [watch/] never was. *)
Example extract_on_sample_site :
  let run := @extract Sample.site Sample.watch_url true Sample.fresh in
  fst run = Ok (JObj Sample.resolved)
  /\ requested "https://daddylive.sx/stream/stream-123.php" (trace (snd run)) = true
  /\ requested "https://daddylive.sx/cast/stream-123.php" (trace (snd run)) = true
  /\ requested "https://daddylive.sx/player/stream-123.php" (trace (snd run)) = true
  /\ requested "https://daddylive.sx/watch/stream-123.php" (trace (snd run)) = false.
Proof. vm_compute. repeat split. Qed.

End ExtractFacts.

(** ** UTF-8 and Base64 are undone by their decoders *)
Module CodecFacts.
Import PyStr StrFacts Observe.

Lemma utf8_char_decode (c : ascii) (rest : list ascii) :
  Utf8.decode_list (Utf8.utf8_char c ++ rest)%list
  = option_map (cons c) (Utf8.decode_list rest).
Proof.
  destruct c as [[] [] [] [] [] [] [] []]; reflexivity.
Qed.

Lemma utf8_decode_encode_list (l : list ascii) :
  Utf8.decode_list (flat_map Utf8.utf8_char l) = Some l.
Proof.
  induction l as [|c l IH]; simpl; [reflexivity |].
  now rewrite utf8_char_decode, IH.
Qed.

(** [s.encode('utf-8').decode('utf-8')] is [s]. *)
Lemma utf8_roundtrip (s : string) : Utf8.decode (Utf8.encode s) = Some s.
Proof.
  unfold Utf8.decode, Utf8.encode.
  rewrite chars_text, utf8_decode_encode_list. simpl. now rewrite text_chars.
Qed.

Import Base64.

(** Every 6-bit value goes to an alphabet character and comes back. *)
Lemma enc6_table :
  forallb (fun x => match dec6 (enc6 x) with
                    | Some y => N.eqb y x
                    | None => false
                    end
                    && negb (Ascii.eqb (enc6 x) pad)
                    && (code (enc6 x) <? 128)%N)
          (map N.of_nat (seq 0 64)) = true.
Proof. vm_compute. reflexivity. Qed.

Lemma enc6_spec (x : N) :
  (x < 64)%N ->
  dec6 (enc6 x) = Some x /\ Ascii.eqb (enc6 x) pad = false
  /\ (code (enc6 x) <? 128)%N = true.
Proof.
  intros Hx. pose proof enc6_table as T. rewrite forallb_forall in T.
  specialize (T x). rewrite in_map_iff in T.
  assert (H : exists n, N.of_nat n = x /\ In n (seq 0 64)).
  { exists (N.to_nat x). split; [apply N2Nat.id |]. apply in_seq. lia. }
  specialize (T H). apply andb_prop in T. destruct T as [T T3].
  apply andb_prop in T. destruct T as [T1 T2].
  destruct (dec6 (enc6 x)) as [y|]; [| discriminate].
  apply N.eqb_eq in T1. subst y. apply negb_true_iff in T2. auto.
Qed.

Lemma code_lt_256 (a : ascii) : (code a < 256)%N.
Proof. apply N_ascii_bounded. Qed.

Lemma ascii_code (a : ascii) : ascii_of_N (code a) = a.
Proof. apply ascii_N_embedding. Qed.

#[local] Ltac Zify.zify_post_hook ::= Z.to_euclidean_division_equations.

Lemma sextets_small (a b c : ascii) :
  (sextet1 a < 64 /\ sextet2 a b < 64 /\ sextet3 b c < 64 /\ sextet4 c < 64
   /\ code a mod 4 * 16 < 64 /\ code b mod 16 * 4 < 64)%N.
Proof.
  unfold sextet1, sextet2, sextet3, sextet4.
  pose proof (code_lt_256 a). pose proof (code_lt_256 b). pose proof (code_lt_256 c).
  repeat split; lia.
Qed.

(** The bytes rebuilt from the 6-bit values. *)
Lemma byte1 (a b : ascii) : (sextet1 a * 4 + sextet2 a b / 16 = code a)%N.
Proof. unfold sextet1, sextet2. pose proof (code_lt_256 a). pose proof (code_lt_256 b). lia. Qed.

Lemma byte1_short (a : ascii) : (sextet1 a * 4 + (code a mod 4 * 16) / 16 = code a)%N.
Proof. unfold sextet1. pose proof (code_lt_256 a). lia. Qed.

Lemma byte2 (a b c : ascii) : (sextet2 a b mod 16 * 16 + sextet3 b c / 4 = code b)%N.
Proof.
  unfold sextet2, sextet3.
  pose proof (code_lt_256 a). pose proof (code_lt_256 b). pose proof (code_lt_256 c).
  lia.
Qed.

Lemma byte2_short (a b : ascii) :
  (sextet2 a b mod 16 * 16 + (code b mod 16 * 4) / 4 = code b)%N.
Proof. unfold sextet2. pose proof (code_lt_256 a). pose proof (code_lt_256 b). lia. Qed.

Lemma byte3 (b c : ascii) : (sextet3 b c mod 4 * 64 + sextet4 c = code c)%N.
Proof. unfold sextet3, sextet4. pose proof (code_lt_256 b). pose proof (code_lt_256 c). lia. Qed.

(** Decoding one full group of the encoder's output. *)
Lemma decode_group (a b c : ascii) (rest out : list ascii) :
  decode_loop (enc6 (sextet1 a) :: enc6 (sextet2 a b) :: enc6 (sextet3 b c) :: enc6 (sextet4 c) :: rest)
              0 0 0 out
  = decode_loop rest 0 0 0 (out ++ [a; b; c]).
Proof.
  destruct (sextets_small a b c) as (H1 & H2 & H3 & H4 & _).
  destruct (enc6_spec _ H1) as (D1 & P1 & _).
  destruct (enc6_spec _ H2) as (D2 & P2 & _).
  destruct (enc6_spec _ H3) as (D3 & P3 & _).
  destruct (enc6_spec _ H4) as (D4 & P4 & _).
  cbn [decode_loop]. rewrite P1, D1. cbn [decode_loop]. rewrite P2, D2.
  cbn [decode_loop]. rewrite P3, D3. cbn [decode_loop]. rewrite P4, D4.
  rewrite byte1, byte2, byte3, !ascii_code, <- !app_assoc. reflexivity.
Qed.

Lemma decode_encode_list (l : list ascii) :
  forall out, decode_loop (encode_list l) 0 0 0 out = Some (out ++ l)%list.
Proof.
  assert (H : forall n l, List.length l <= n ->
                          forall out, decode_loop (encode_list l) 0 0 0 out
                                      = Some (out ++ l)%list).
  { clear l. induction n as [|n IH]; intros l Hl out.
    - destruct l; [| simpl in Hl; lia]. simpl. now rewrite List.app_nil_r.
    - destruct l as [|a [|b [|c l]]].
      + simpl. now rewrite List.app_nil_r.
      + destruct (sextets_small a a a) as (H1 & _ & _ & _ & H5 & _).
        destruct (enc6_spec _ H1) as (D1 & P1 & _).
        destruct (enc6_spec _ H5) as (D2 & P2 & _).
        cbn [encode_list decode_loop]. fold (sextet1 a). rewrite P1, D1.
        cbn [decode_loop]. rewrite P2, D2. cbn [decode_loop].
        rewrite byte1_short, ascii_code. reflexivity.
      + destruct (sextets_small a b b) as (H1 & H2 & _ & _ & _ & H6).
        destruct (enc6_spec _ H1) as (D1 & P1 & _).
        destruct (enc6_spec _ H2) as (D2 & P2 & _).
        destruct (enc6_spec _ H6) as (D3 & P3 & _).
        cbn [encode_list decode_loop]. fold (sextet1 a). fold (sextet2 a b).
        rewrite P1, D1. cbn [decode_loop]. rewrite P2, D2.
        cbn [decode_loop]. rewrite P3, D3. cbn [decode_loop].
        rewrite byte1, byte2_short, !ascii_code, <- app_assoc. reflexivity.
      + cbn [encode_list]. fold (sextet1 a). fold (sextet2 a b). fold (sextet3 b c). fold (sextet4 c).
        rewrite decode_group. rewrite IH by (simpl in Hl; lia).
        now rewrite <- app_assoc. }
  apply (H (List.length l)). lia.
Qed.

Lemma encode_list_ascii (l : list ascii) :
  forallb (fun c => (code c <? 128)%N) (encode_list l) = true.
Proof.
  assert (H : forall n l, List.length l <= n ->
                          forallb (fun c => (code c <? 128)%N) (encode_list l) = true).
  { clear l. induction n as [|n IH]; intros l Hl.
    - destruct l; [reflexivity | simpl in Hl; lia].
    - destruct l as [|a [|b [|c l]]]; [reflexivity | | |].
      + destruct (sextets_small a a a) as (H1 & _ & _ & _ & H5 & _).
        destruct (enc6_spec _ H1) as (_ & _ & A1).
        destruct (enc6_spec _ H5) as (_ & _ & A2).
        cbn [encode_list forallb]. fold (sextet1 a). now rewrite A1, A2.
      + destruct (sextets_small a b b) as (H1 & H2 & _ & _ & _ & H6).
        destruct (enc6_spec _ H1) as (_ & _ & A1).
        destruct (enc6_spec _ H2) as (_ & _ & A2).
        destruct (enc6_spec _ H6) as (_ & _ & A3).
        cbn [encode_list forallb]. fold (sextet1 a). fold (sextet2 a b). now rewrite A1, A2, A3.
      + destruct (sextets_small a b c) as (H1 & H2 & H3 & H4 & _).
        destruct (enc6_spec _ H1) as (_ & _ & A1).
        destruct (enc6_spec _ H2) as (_ & _ & A2).
        destruct (enc6_spec _ H3) as (_ & _ & A3).
        destruct (enc6_spec _ H4) as (_ & _ & A4).
        cbn [encode_list forallb]. fold (sextet1 a). fold (sextet2 a b). fold (sextet3 b c). fold (sextet4 c).
        rewrite A1, A2, A3, A4. apply IH. simpl in Hl. lia. }
  apply (H (List.length l)). lia.
Qed.

(** [base64.b64decode(base64.b64encode(bs))] is [bs]. *)
Lemma b64_roundtrip (bs : string) : b64decode (b64encode bs) = Some bs.
Proof.
  unfold b64decode, b64encode, is_ascii.
  rewrite chars_text, encode_list_ascii, decode_encode_list. simpl.
  now rewrite text_chars.
Qed.

End CodecFacts.

(** ** [json.loads] undoes [json.dumps] *)
Module JsonFacts.
Import PyStr Regex Json JsonWf StrFacts Observe.

(** *** String literals *)

Lemma scanstring_escape_char (c : ascii) (tail : string) :
  scanstring (escape_char c ++ tail) = push c (scanstring tail).
Proof.
  destruct c as [[] [] [] [] [] [] [] []]; reflexivity.
Qed.

Lemma scanstring_escape (s rest : string) :
  scanstring (escape s ++ String dquote rest) = Some (s, rest).
Proof.
  induction s as [|c s IH]; [reflexivity |].
  cbn [escape]. rewrite append_assoc, scanstring_escape_char, IH. reflexivity.
Qed.

Lemma encode_str_append (s rest : string) :
  encode_str s ++ rest = String dquote (escape s ++ String dquote rest).
Proof. unfold encode_str. cbn [append]. now rewrite append_assoc. Qed.

(** *** Integer literals *)

Lemma read_uint_print (u : Decimal.uint) (rest : string) :
  no_digit rest ->
  read_uint (NilEmpty.string_of_uint u ++ rest) = (u, rest).
Proof.
  intros Hr. induction u as [|u IH|u IH|u IH|u IH|u IH|u IH|u IH|u IH|u IH|u IH];
    cbn [NilEmpty.string_of_uint append];
    try (cbn [read_uint]; rewrite IH; reflexivity).
  destruct rest as [|c r]; [reflexivity |].
  cbn [read_uint]. simpl in Hr. now rewrite Hr.
Qed.

(** The numeral of a positive number has no leading zero. *)
Lemma to_uint_head (p : positive) :
  match Pos.to_uint p with
  | Decimal.Nil | Decimal.D0 _ => False
  | _ => True
  end.
Proof.
  pose proof (DecimalPos.Unsigned.to_of (Pos.to_uint p)) as H.
  rewrite DecimalPos.Unsigned.of_to in H. simpl in H.
  pose proof (DecimalPos.Unsigned.to_uint_nonzero p) as Hz.
  pose proof (DecimalPos.Unsigned.to_uint_nonnil p) as Hn.
  destruct (Pos.to_uint p) as [|u|u|u|u|u|u|u|u|u|u]; auto.
  rewrite DecimalFacts.unorm_D0 in H.
  assert (Hu : u <> Decimal.Nil) by (intros ->; apply Hz; reflexivity).
  pose proof (DecimalFacts.nb_digits_unorm u Hu) as L.
  rewrite <- H in L. simpl in L. lia.
Qed.

Lemma scan_int_numeral (u : Decimal.uint) (neg : bool) (rest : string) :
  match u with
  | Decimal.Nil | Decimal.D0 _ => False
  | _ => True
  end ->
  no_digit rest ->
  scan_int ((if neg then "-" else EmptyString) ++ NilEmpty.string_of_uint u ++ rest)
  = Some (Z.of_int (if neg then Decimal.Neg u else Decimal.Pos u), rest).
Proof.
  intros Hu Hr. pose proof (read_uint_print u rest Hr) as R.
  destruct u; try contradiction; destruct neg;
    unfold scan_int; cbn [NilEmpty.string_of_uint append] in *;
    rewrite R; reflexivity.
Qed.

Lemma string_of_uint_pos (p : positive) :
  NilZero.string_of_uint (Pos.to_uint p) = NilEmpty.string_of_uint (Pos.to_uint p).
Proof.
  pose proof (to_uint_head p) as H.
  destruct (Pos.to_uint p); try contradiction; reflexivity.
Qed.

(** An integer printed by [str] is read back, whatever follows it that is
    not a digit. *)
Lemma scan_int_print (z : Z) (rest : string) :
  no_digit rest -> scan_int (str_int z ++ rest) = Some (z, rest).
Proof.
  intros Hr. unfold str_int. rewrite <- (DecimalZ.of_to z) at 2.
  destruct z as [|p|p].
  - reflexivity.
  - cbn [Z.to_int NilZero.string_of_int]. rewrite string_of_uint_pos.
    apply (scan_int_numeral (Pos.to_uint p) false rest (to_uint_head p) Hr).
  - cbn [Z.to_int NilZero.string_of_int]. rewrite string_of_uint_pos.
    apply (scan_int_numeral (Pos.to_uint p) true rest (to_uint_head p) Hr).
Qed.

(** *** Values *)

(** Induction on values that goes through arrays and objects. *)
Lemma json_ind' (P : json -> Prop) :
  P JNull -> (forall b, P (JBool b)) -> (forall z, P (JInt z)) ->
  (forall s, P (JStr s)) ->
  (forall l, Forall P l -> P (JArr l)) ->
  (forall d, Forall (fun kx => P (snd kx)) d -> P (JObj d)) ->
  forall v, P v.
Proof.
  intros Hn Hb Hz Hs Ha Ho.
  fix IH 1. intros [| b | z | s | l | d].
  - exact Hn.
  - apply Hb.
  - apply Hz.
  - apply Hs.
  - apply Ha. induction l as [|x l IHl]; constructor; [apply IH | exact IHl].
  - apply Ho. induction d as [|kx d IHd]; constructor; [apply IH | exact IHd].
Qed.

Lemma number_head_facts (c : ascii) :
  number_head c = true ->
  value_head c = true
  /\ Ascii.eqb c dquote = false /\ Ascii.eqb c "{" = false /\ Ascii.eqb c "[" = false
  /\ Ascii.eqb "n" c = false /\ Ascii.eqb "t" c = false /\ Ascii.eqb "f" c = false.
Proof.
  destruct c as [[] [] [] [] [] [] [] []]; intros H; vm_compute in H;
    try discriminate H; vm_compute; repeat split.
Qed.

Lemma str_int_head (z : Z) :
  exists c s, str_int z = String c s /\ number_head c = true.
Proof.
  unfold str_int. destruct z as [|p|p].
  - exists "0"%char, EmptyString. split; reflexivity.
  - cbn [Z.to_int NilZero.string_of_int]. rewrite string_of_uint_pos.
    pose proof (to_uint_head p) as H.
    destruct (Pos.to_uint p); try contradiction;
      cbn [NilEmpty.string_of_uint]; eexists; eexists; split; reflexivity.
  - cbn [Z.to_int NilZero.string_of_int]. eexists; eexists; split; reflexivity.
Qed.

Lemma dumps_head (v : json) :
  exists c s, dumps v = String c s /\ value_head c = true.
Proof.
  destruct v as [| [|] | z | s | l | d];
    try (eexists; eexists; split; reflexivity).
  destruct (str_int_head z) as (c & s & H & Hc).
  exists c, s. split; [exact H | apply (number_head_facts c Hc)].
Qed.

Lemma value_head_facts (c : ascii) :
  value_head c = true ->
  is_ws c = false /\ Ascii.eqb c "]" = false /\ Ascii.eqb c "}" = false.
Proof.
  unfold value_head. intros H.
  apply andb_prop in H. destruct H as [H H3].
  apply andb_prop in H. destruct H as [H1 H2].
  apply negb_true_iff in H1, H2, H3. auto.
Qed.

Lemma skip_ws_head (c : ascii) (s : string) :
  is_ws c = false -> skip_ws (String c s) = String c s.
Proof. intros H. cbn [skip_ws]. now rewrite H. Qed.

Lemma skip_ws_space (s : string) : skip_ws (String " " s) = skip_ws s.
Proof. reflexivity. Qed.

(** Whitespace is skipped up to a printed value. *)
Lemma skip_ws_dumps (v : json) (rest : string) :
  skip_ws (dumps v ++ rest) = dumps v ++ rest.
Proof.
  destruct (dumps_head v) as (c & s & -> & Hc).
  apply skip_ws_head, (value_head_facts c Hc).
Qed.

Lemma substring_all (s : string) : String.substring 0 (String.length s) s = s.
Proof. induction s as [|c s IH]; simpl; [reflexivity | now rewrite IH]. Qed.

Lemma drop4 (a b c d : ascii) (rest : string) :
  drop 4 (String a (String b (String c (String d rest)))) = rest.
Proof. unfold drop. simpl. rewrite Nat.sub_0_r. apply substring_all. Qed.

Lemma drop5 (a b c d e : ascii) (rest : string) :
  drop 5 (String a (String b (String c (String d (String e rest))))) = rest.
Proof. unfold drop. simpl. rewrite Nat.sub_0_r. apply substring_all. Qed.

(** A dictionary built from pairs with distinct keys is the pairs. *)
Lemma set_fresh (k : string) (v : json) (acc : PyDict.dict json) :
  existsb (String.eqb k) (map fst acc) = false ->
  PyDict.set k v acc = (acc ++ [(k, v)])%list.
Proof.
  induction acc as [|[k' v'] acc IH]; simpl; [reflexivity |].
  intros H. apply orb_false_elim in H. destruct H as [H1 H2].
  rewrite H1. now rewrite IH.
Qed.

Lemma distinct_app_one (acc : list string) (k : string) (ks : list string) :
  distinct (acc ++ k :: ks)%list = true ->
  existsb (String.eqb k) acc = false /\ distinct ((acc ++ [k]) ++ ks)%list = true.
Proof.
  intros H. split; [| now rewrite <- app_assoc].
  induction acc as [|a acc IH]; simpl in *; [reflexivity |].
  apply andb_prop in H. destruct H as [Ha Hd].
  apply negb_true_iff in Ha. rewrite existsb_app in Ha.
  apply orb_false_elim in Ha. destruct Ha as [_ Ha]. simpl in Ha.
  apply orb_false_elim in Ha. destruct Ha as [Ha _].
  rewrite String.eqb_sym, Ha. simpl. auto.
Qed.

Lemma update_distinct (d acc : PyDict.dict json) :
  distinct (map fst (acc ++ d)%list) = true ->
  PyDict.update acc d = (acc ++ d)%list.
Proof.
  revert acc. induction d as [|[k v] d IH]; intros acc H.
  - simpl. now rewrite List.app_nil_r.
  - rewrite map_app in H. simpl in H.
    destruct (distinct_app_one (map fst acc) k (map fst d) H) as [Hk Hd].
    unfold PyDict.update. simpl. fold (PyDict.update (PyDict.set k v acc) d).
    rewrite (set_fresh k v acc Hk). rewrite IH.
    + now rewrite <- app_assoc.
    + rewrite !map_app. simpl. exact Hd.
Qed.

Lemma of_pairs_distinct (d : PyDict.dict json) :
  distinct (map fst d) = true -> PyDict.of_pairs d = d.
Proof. intros H. unfold PyDict.of_pairs. now rewrite update_distinct. Qed.

(** One step of each of the three mutually recursive scanners. *)
Lemma scan_elements_S (f : nat) (s : string) :
  scan_elements (S f) s
  = match scan_once f s with
    | Some (v, r) =>
        match skip_ws r with
        | String c r' =>
            if Ascii.eqb c "]" then Some ([v], r')
            else if Ascii.eqb c "," then
              match scan_elements f (skip_ws r') with
              | Some (vs, r'') => Some (v :: vs, r'')
              | None => None
              end
            else None
        | EmptyString => None
        end
    | None => None
    end.
Proof. reflexivity. Qed.

Lemma scan_members_S (f : nat) (s : string) :
  scan_members (S f) s
  = match scanstring s with
    | Some (key, r) =>
        match skip_ws r with
        | String c r1 =>
            if Ascii.eqb c ":" then
              match scan_once f (skip_ws r1) with
              | Some (v, r2) =>
                  match skip_ws r2 with
                  | String c2 r3 =>
                      if Ascii.eqb c2 "}" then Some ([(key, v)], r3)
                      else if Ascii.eqb c2 "," then
                        match skip_ws r3 with
                        | String c3 r4 =>
                            if Ascii.eqb c3 dquote then
                              match scan_members f r4 with
                              | Some (ps, r5) => Some ((key, v) :: ps, r5)
                              | None => None
                              end
                            else None
                        | EmptyString => None
                        end
                      else None
                  | EmptyString => None
                  end
              | None => None
              end
            else None
        | EmptyString => None
        end
    | None => None
    end.
Proof. reflexivity. Qed.

Lemma dump_items_cons (dump : json -> string) (x : json) (l : list json) :
  l <> [] -> dump_items dump (x :: l) = dump x ++ ", " ++ dump_items dump l.
Proof. destruct l; [contradiction | reflexivity]. Qed.

Lemma dump_members_cons (dump : json -> string) (kx : string * json)
      (d : list (string * json)) :
  d <> [] ->
  dump_members dump (kx :: d)
  = encode_str (fst kx) ++ ": " ++ dump (snd kx) ++ ", " ++ dump_members dump d.
Proof. destruct d; [contradiction | reflexivity]. Qed.

(** A non-empty run of elements or members starts with a value or a key. *)
Lemma dump_items_head (l : list json) (rest : string) :
  l <> [] ->
  skip_ws (dump_items dumps l ++ rest) = dump_items dumps l ++ rest.
Proof.
  destruct l as [|x [|y l]]; [contradiction | |]; intros _.
  - apply skip_ws_dumps.
  - rewrite dump_items_cons by discriminate. rewrite !append_assoc.
    apply skip_ws_dumps.
Qed.

Lemma dump_members_head (d : list (string * json)) (rest : string) :
  d <> [] ->
  exists body, dump_members dumps d ++ rest = String dquote body.
Proof.
  destruct d as [|kx [|ky d]]; [contradiction | |]; intros _.
  - cbn [dump_members]. rewrite !append_assoc, encode_str_append. eauto.
  - rewrite dump_members_cons by discriminate.
    rewrite !append_assoc, encode_str_append. eauto.
Qed.

Lemma parse_elements (l : list json) :
  Forall parses l -> forallb wf l = true -> l <> [] ->
  forall fuel rest,
    fold_right (fun x n => S (size x + n)) 0 l <= fuel ->
    scan_elements fuel (dump_items dumps l ++ String "]" rest) = Some (l, rest).
Proof.
  induction 1 as [| x l Hx Hl IH]; intros Hwf Hne fuel rest Hfuel; [contradiction |].
  cbn [forallb] in Hwf. apply andb_prop in Hwf. destruct Hwf as [Wx Wl].
  cbn [fold_right] in Hfuel.
  destruct fuel as [|f]; [lia |]. rewrite scan_elements_S.
  assert (El : l = [] \/ l <> [])
    by (destruct l; [left; reflexivity | right; discriminate]).
  destruct El as [-> | Hl0].
  - cbn [dump_items].
    rewrite (Hx Wx f (String "]" rest)) by (try lia; reflexivity).
    reflexivity.
  - rewrite (dump_items_cons dumps x l Hl0), !append_assoc.
    rewrite (Hx Wx f (", " ++ dump_items dumps l ++ String "]" rest))
      by (try lia; reflexivity).
    cbn [append skip_ws]. change (is_ws ",") with false. cbn iota.
    change (Ascii.eqb "," "]") with false. change (Ascii.eqb "," ",") with true.
    cbn iota. rewrite skip_ws_space, (dump_items_head l (String "]" rest) Hl0).
    rewrite IH; [reflexivity | exact Wl | exact Hl0 | lia].
Qed.

Lemma parse_members (d : list (string * json)) :
  Forall (fun kx => parses (snd kx)) d ->
  forallb (fun kx => wf (snd kx)) d = true -> d <> [] ->
  forall fuel rest body,
    fold_right (fun kx n => S (size (snd kx) + n)) 0 d <= fuel ->
    dump_members dumps d ++ String "}" rest = String dquote body ->
    scan_members fuel body = Some (d, rest).
Proof.
  induction 1 as [| [k x] d Hx Hd IH]; intros Hwf Hne fuel rest body Hfuel Hbody;
    [contradiction |].
  cbn [forallb snd] in Hwf. apply andb_prop in Hwf. destruct Hwf as [Wx Wd].
  cbn [fold_right snd] in Hfuel. cbn [snd] in Hx.
  destruct fuel as [|f]; [lia |]. rewrite scan_members_S.
  assert (Ed : d = [] \/ d <> [])
    by (destruct d; [left; reflexivity | right; discriminate]).
  destruct Ed as [-> | Hd0].
  - cbn [dump_members fst snd] in Hbody.
    rewrite !append_assoc, encode_str_append in Hbody.
    injection Hbody as <-.
    rewrite scanstring_escape. cbn [append skip_ws].
    change (is_ws ":") with false. cbn iota.
    change (Ascii.eqb ":" ":") with true. cbn iota.
    rewrite skip_ws_space, skip_ws_dumps.
    rewrite (Hx Wx f (String "}" rest)) by (try lia; reflexivity).
    reflexivity.
  - rewrite (dump_members_cons dumps (k, x) d Hd0) in Hbody.
    cbn [fst snd] in Hbody.
    rewrite !append_assoc, encode_str_append in Hbody.
    injection Hbody as <-.
    rewrite scanstring_escape. cbn [append skip_ws].
    change (is_ws ":") with false. cbn iota.
    change (Ascii.eqb ":" ":") with true. cbn iota.
    rewrite skip_ws_space, skip_ws_dumps.
    rewrite (Hx Wx f (String "," (String " " (dump_members dumps d ++ String "}" rest))))
      by (try lia; reflexivity).
    cbn [append skip_ws]. change (is_ws ",") with false. cbn iota.
    change (Ascii.eqb "," "}") with false. change (Ascii.eqb "," ",") with true.
    cbn iota. rewrite skip_ws_space.
    destruct (dump_members_head d (String "}" rest) Hd0) as (body' & Hs).
    rewrite Hs. cbn [skip_ws]. change (is_ws dquote) with false. cbn iota.
    change (Ascii.eqb dquote dquote) with true. cbn iota.
    rewrite (IH Wd Hd0 f rest body' ltac:(lia) Hs). reflexivity.
Qed.

(** [scan_once] on the first character of a string, an array, an object. *)
Lemma scan_once_string (f : nat) (s : string) :
  scan_once (S f) (String dquote s)
  = match scanstring s with
    | Some (x, r) => Some (JStr x, r)
    | None => None
    end.
Proof. reflexivity. Qed.

Lemma scan_once_array (f : nat) (s : string) :
  scan_once (S f) (String "[" s)
  = match skip_ws s with
    | String c1 s2 =>
        if Ascii.eqb c1 "]" then Some (JArr [], s2)
        else
          match scan_elements f (String c1 s2) with
          | Some (vs, r) => Some (JArr vs, r)
          | None => None
          end
    | EmptyString => None
    end.
Proof. reflexivity. Qed.

Lemma scan_once_object (f : nat) (s : string) :
  scan_once (S f) (String "{" s)
  = match skip_ws s with
    | String c1 s2 =>
        if Ascii.eqb c1 "}" then Some (JObj [], s2)
        else if Ascii.eqb c1 dquote then
          match scan_members f s2 with
          | Some (pairs, r) => Some (JObj (PyDict.of_pairs pairs), r)
          | None => None
          end
        else None
    | EmptyString => None
    end.
Proof. reflexivity. Qed.

Lemma scan_once_number (f : nat) (c : ascii) (s : string) :
  number_head c = true ->
  scan_once (S f) (String c s)
  = match scan_int (String c s) with
    | Some (z, r) => Some (JInt z, r)
    | None => None
    end.
Proof.
  intros H. destruct (number_head_facts c H) as (_ & Q & O & A & N & T & F).
  cbn [scan_once startswith]. now rewrite Q, O, A, N, T, F.
Qed.

Lemma dump_items_start (l : list json) (rest : string) :
  l <> [] ->
  exists c s, dump_items dumps l ++ rest = String c s /\ Ascii.eqb c "]" = false.
Proof.
  destruct l as [|x l]; [contradiction |]. intros _.
  destruct (dumps_head x) as (c & s & Hx & Hc).
  destruct (value_head_facts c Hc) as (_ & H & _).
  assert (El : l = [] \/ l <> [])
    by (destruct l; [left; reflexivity | right; discriminate]).
  destruct El as [-> | Hl].
  - cbn [dump_items]. rewrite Hx. cbn [append]. eauto.
  - rewrite (dump_items_cons dumps x l Hl), Hx. cbn [append]. eauto.
Qed.

Theorem parses_all (v : json) : parses v.
Proof.
  induction v as [| b | z | s | l IHl | d IHd] using json_ind';
    intros W fuel rest Hfuel Hrest;
    (destruct fuel as [|f]; [simpl in Hfuel; lia |]).
  - transitivity (Some (JNull, drop 4 ("null" ++ rest))); [reflexivity |].
    cbn [append]. now rewrite drop4.
  - destruct b.
    + transitivity (Some (JBool true, drop 4 ("true" ++ rest))); [reflexivity |].
      cbn [append]. now rewrite drop4.
    + transitivity (Some (JBool false, drop 5 ("false" ++ rest))); [reflexivity |].
      cbn [append]. now rewrite drop5.
  - cbn [dumps]. destruct (str_int_head z) as (c & s & H & Hc).
    pose proof (scan_int_print z rest Hrest) as S.
    rewrite H in *. cbn [append] in *.
    rewrite (scan_once_number f c (s ++ rest) Hc), S. reflexivity.
  - cbn [dumps]. rewrite encode_str_append, scan_once_string, scanstring_escape.
    reflexivity.
  - cbn [dumps wf size] in *. rewrite !append_assoc. cbn [append].
    rewrite scan_once_array.
    assert (El : l = [] \/ l <> [])
      by (destruct l; [left; reflexivity | right; discriminate]).
    destruct El as [-> | Hl]; [reflexivity |].
    rewrite (dump_items_head l (String "]" rest) Hl).
    destruct (dump_items_start l (String "]" rest) Hl) as (c & s & Hs & Hc).
    pose proof (parse_elements l IHl W Hl f rest ltac:(lia)) as P.
    rewrite Hs in *. now rewrite Hc, P.
  - cbn [dumps wf size] in *. apply andb_prop in W. destruct W as [Wk Wd].
    rewrite !append_assoc. cbn [append]. rewrite scan_once_object.
    assert (Ed : d = [] \/ d <> [])
      by (destruct d; [left; reflexivity | right; discriminate]).
    destruct Ed as [-> | Hd]; [reflexivity |].
    destruct (dump_members_head d (String "}" rest) Hd) as (body & Hs).
    pose proof (parse_members d IHd Wd Hd f rest body ltac:(lia) Hs) as P.
    rewrite Hs. cbn [skip_ws]. change (is_ws dquote) with false. cbn iota.
    change (Ascii.eqb dquote "}") with false.
    change (Ascii.eqb dquote dquote) with true. cbn iota.
    now rewrite P, (of_pairs_distinct d Wk).
Qed.

(** *** The fuel of [loads] is enough *)

Lemma str_int_length (z : Z) : 1 <= String.length (str_int z).
Proof. destruct (str_int_head z) as (c & s & -> & _). simpl. lia. Qed.

Lemma encode_str_length (s : string) : 2 <= String.length (encode_str s).
Proof. unfold encode_str. cbn [String.length]. rewrite length_append. simpl. lia. Qed.

Lemma items_size (l : list json) :
  Forall (fun x => size x <= String.length (dumps x)) l ->
  fold_right (fun x n => S (size x + n)) 0 l
  <= 1 + String.length (dump_items dumps l).
Proof.
  induction 1 as [| x l Hx _ IH]; [simpl; lia |].
  cbn [fold_right].
  assert (El : l = [] \/ l <> [])
    by (destruct l; [left; reflexivity | right; discriminate]).
  destruct El as [-> | Hl].
  - cbn [fold_right dump_items]. lia.
  - rewrite (dump_items_cons dumps x l Hl), !length_append.
    change (String.length ", ") with 2. lia.
Qed.

Lemma members_size (d : list (string * json)) :
  Forall (fun kx => size (snd kx) <= String.length (dumps (snd kx))) d ->
  fold_right (fun kx n => S (size (snd kx) + n)) 0 d
  <= 1 + String.length (dump_members dumps d).
Proof.
  induction 1 as [| kx d Hx _ IH]; [simpl; lia |].
  cbn [fold_right].
  assert (Ed : d = [] \/ d <> [])
    by (destruct d; [left; reflexivity | right; discriminate]).
  destruct Ed as [-> | Hd].
  - cbn [fold_right dump_members]. rewrite !length_append. lia.
  - rewrite (dump_members_cons dumps kx d Hd), !length_append.
    change (String.length ", ") with 2. lia.
Qed.

Lemma size_le_length (v : json) : size v <= String.length (dumps v).
Proof.
  induction v as [| b | z | s | l IHl | d IHd] using json_ind'.
  - simpl. lia.
  - destruct b; simpl; lia.
  - cbn [size dumps]. apply str_int_length.
  - cbn [size dumps]. pose proof (encode_str_length s). lia.
  - cbn [size dumps]. rewrite !length_append. pose proof (items_size l IHl).
    change (String.length "[") with 1. change (String.length "]") with 1. lia.
  - cbn [size dumps]. rewrite !length_append. pose proof (members_size d IHd).
    change (String.length "{") with 1. change (String.length "}") with 1. lia.
Qed.

(** [json.loads(json.dumps(v))] is [v] for every value whose objects hold
    each key once. *)
Theorem loads_dumps (v : json) : wf v = true -> loads (dumps v) = Some v.
Proof.
  intros W. unfold loads.
  pose proof (skip_ws_dumps v EmptyString) as K.
  pose proof (parses_all v W (2 * String.length (dumps v) + 2) EmptyString) as P.
  rewrite append_nil_r in K, P. rewrite K, P; [reflexivity | | exact I].
  pose proof (size_le_length v). lia.
Qed.

End JsonFacts.

(** ** The cache file *)
Module CacheFacts.
Import PyStr Json JsonWf Extractor StrFacts CodecFacts JsonFacts Observe ExtractFacts.

Lemma encode_list_nonempty (l : list ascii) :
  l <> [] -> Base64.encode_list l <> [].
Proof. destruct l as [|a [|b [|c l]]]; [contradiction | | |]; discriminate. Qed.

Lemma utf8_char_nonempty (c : ascii) : Utf8.utf8_char c <> [].
Proof. unfold Utf8.utf8_char. destruct (code c <? 128)%N; discriminate. Qed.

(** The text written for a cache is never empty. *)
Lemma cache_text_nonempty (c : json) : nonempty (cache_text c) = true.
Proof.
  unfold cache_text, Base64.b64encode, Utf8.encode.
  destruct (dumps_head c) as (ch & s & -> & _).
  rewrite chars_text. cbn [chars list_ascii_of_string flat_map].
  pose proof (utf8_char_nonempty ch) as Hc.
  destruct (Utf8.utf8_char ch) as [|a l]; [contradiction |].
  pose proof (encode_list_nonempty ((a :: l) ++ flat_map Utf8.utf8_char (list_ascii_of_string s))%list
                ltac:(discriminate)) as He.
  destruct (Base64.encode_list _); [contradiction | reflexivity].
Qed.

(** The written text decodes to the JSON document. *)
Lemma cache_text_decodes (c : json) :
  Base64.b64decode_utf8 (cache_text c) = Some (dumps c).
Proof.
  unfold Base64.b64decode_utf8, cache_text.
  now rewrite b64_roundtrip, utf8_roundtrip.
Qed.

Section WithEnv.
Context {E : Env}.


End WithEnv.


End CacheFacts.

(** ** More on the request executor and the session *)
Module ExecutorMore.
Import PyStr Json Extractor StrFacts Observe ExecutorFacts.

Section WithEnv.
Context {E : Env}.

#[local] Ltac attempt_done evs tac :=
  eexists; exists evs; refine (conj _ (conj _ (conj _ _))); cycle 3;
  [ tac
  | cbn [trace emit set_session]; rewrite <- ?app_assoc; reflexivity
  | cbv; lia
  | reflexivity ].

(** One pass through the [try] body, whatever the environment answers: at
    most one request, no sleep; a response comes back only with a status
    below 400. *)
Lemma attempt_get_cases (url : string) (h : headers) (st : state) :
  exists st1 evs,
    trace st1 = (trace st ++ evs)%list /\ gets evs <= 1 /\ sleeps evs = []
    /\ ((exists r, attempt_get url h st = (Ok r, st1) /\ (status r < 400)%Z)
        \/ (exists e, attempt_get url h st = (Raise e, st1))).
Proof.
  unfold attempt_get, bind, get_session, get_state, modify, raise, ret, lib_error.
  destruct (session st) eqn:S.
  - destruct (http_get (trace st) url h) as [code text | e] eqn:G.
    + destruct (400 <=? code)%Z eqn:C.
      * attempt_done [EvGet url h] ltac:(right; eexists; unfold raise; reflexivity).
      * attempt_done [EvGet url h]
          ltac:(left; eexists; split; [reflexivity | simpl; apply Z.leb_gt in C; exact C]).
    + attempt_done [EvGet url h] ltac:(right; eexists; reflexivity).
  - destruct (session_new (trace st)) as [e |] eqn:N.
    + exists st, []. rewrite List.app_nil_r. refine (conj _ (conj _ (conj _ _)));
        [reflexivity | cbv; lia | reflexivity |].
      right. eexists. reflexivity.
    + cbn [trace emit set_session].
      destruct (http_get (trace st ++ [EvSession]) url h) as [code text | e] eqn:G.
      * destruct (400 <=? code)%Z eqn:C.
        -- attempt_done [EvSession; EvGet url h]
             ltac:(right; eexists; unfold raise; reflexivity).
        -- attempt_done [EvSession; EvGet url h]
             ltac:(left; eexists; split;
                   [reflexivity | simpl; apply Z.leb_gt in C; exact C]).
      * attempt_done [EvSession; EvGet url h] ltac:(right; eexists; reflexivity).
Qed.

(** The header policy reads the state and never changes it; it fails only
    where [urlparse] does. *)
Lemma get_headers_cases (url : string) (base : headers) (st : state) :
  (exists h, get_headers_for_url url base st = (Ok h, st))
  \/ (exists u, get_headers_for_url url base st
                = (Raise (OtherError (fault_text (BadUrl u))), st)).
Proof.
  unfold get_headers_for_url, bind, parse_url, get_state, ret, lib_error, raise.
  destruct (urlparse url) as [p |]; [| right; eexists; reflexivity].
  destruct (contains "newkso.ru" (snd p)); [| left; eexists; reflexivity].
  destruct (iframe_context st) as [ctx |]; [| left; eexists; reflexivity].
  destruct (nonempty ctx); [| left; eexists; reflexivity].
  destruct (urlparse ctx); [left | right]; eexists; reflexivity.
Qed.

(** The loop from attempt [a] with [n] iterations left. *)
Lemma request_loop_outcome (url : string) (h : headers) (retries d : Z) :
  forall (n : nat) (a : Z) (st : state),
    (a + Z.of_nat n = retries)%Z ->
    exists st' evs,
      trace st' = (trace st ++ evs)%list
      /\ gets evs <= n /\ List.length (sleeps evs) <= pred n
      /\ ((exists r, request_loop url h retries d n a st = (Ok (Some r), st')
                     /\ (status r < 400)%Z)
          \/ (exists msg, request_loop url h retries d n a st
                          = (Raise (ExtractorError msg), st'))
          \/ (n = 0 /\ request_loop url h retries d n a st = (Ok None, st))).
Proof.
  induction n as [| n IH]; intros a st Hn.
  - exists st, []. rewrite List.app_nil_r.
    repeat (split; [first [reflexivity | cbv; lia] |]).
    right. right. split; reflexivity.
  - rewrite request_loop_S.
    destruct (attempt_get_cases url h st) as (st1 & evs1 & T1 & G1 & S1 & [(r & R & Hr) | (e & R)]);
      rewrite R.
    + exists st1, evs1. split; [exact T1 |]. split; [lia |]. split; [rewrite S1; simpl; lia |].
      left. exists r. split; [reflexivity | exact Hr].
    + assert (Last : (a =? retries - 1)%Z = true ->
                     exists st' evs, trace st' = (trace st ++ evs)%list
                       /\ gets evs <= S n /\ List.length (sleeps evs) <= pred (S n)
                       /\ (a <? retries - 1)%Z = false
                       /\ (close_session st1 = (Ok tt, st'))).
      { intros Ha. unfold close_session. destruct (session st1).
        - exists (emit EvSessionClose (set_session false st1)), (evs1 ++ [EvSessionClose])%list.
          split; [cbn [trace emit set_session]; rewrite T1, <- app_assoc; reflexivity |].
          rewrite gets_app, sleeps_app, S1. split; [cbn; lia |]. split; [cbn; lia |].
          split; [lia | reflexivity].
        - exists st1, evs1. split; [exact T1 |]. rewrite S1.
          split; [lia |]. split; [cbn; lia |]. split; [lia | reflexivity]. }
      assert (Next : (a =? retries - 1)%Z = false ->
                     forall dl, exists st' evs, trace st' = (trace st ++ evs)%list
                       /\ gets evs <= S n /\ List.length (sleeps evs) <= pred (S n)
                       /\ (a <? retries - 1)%Z = true
                       /\ ((exists r, request_loop url h retries d n (a + 1)
                                        (emit (EvSleep dl) st1) = (Ok (Some r), st')
                                      /\ (status r < 400)%Z)
                           \/ (exists msg, request_loop url h retries d n (a + 1)
                                             (emit (EvSleep dl) st1)
                                           = (Raise (ExtractorError msg), st')))).
      { intros Ha dl.
        destruct (IH (a + 1)%Z (emit (EvSleep dl) st1)) as (st' & evs & T & G & S & O); [lia |].
        exists st', (evs1 ++ EvSleep dl :: evs)%list.
        split; [rewrite T; cbn [trace emit]; rewrite T1, <- !app_assoc; reflexivity |].
        rewrite gets_app, sleeps_app, S1. cbn [app].
        change (gets (EvSleep dl :: evs)) with (gets evs).
        change (sleeps (EvSleep dl :: evs)) with (dl :: sleeps evs).
        split; [lia |]. split; [cbn [List.length]; lia |]. split; [lia |].
        destruct O as [O | [O | [O _]]]; [left; exact O | right; exact O | lia]. }
      destruct (a =? retries - 1)%Z eqn:Ha.
      * destruct (Last eq_refl) as (st' & evs & T & G & S & Hlt & C).
        destruct e as [m | m | m].
        -- exists st1, evs1. split; [exact T1 |]. rewrite S1.
           split; [lia |]. split; [cbn; lia |]. right. left. eexists. reflexivity.
        -- exists st', evs. split; [exact T |]. split; [exact G |]. split; [exact S |].
           right. left. unfold bind. rewrite C, Hlt. eexists. reflexivity.
        -- exists st1, evs1. split; [exact T1 |]. rewrite S1.
           split; [lia |]. split; [cbn; lia |]. right. left. eexists. reflexivity.
      * destruct e as [m | m | m].
        -- destruct (Next eq_refl d) as (st' & evs & T & G & S & Hlt & O).
           exists st', evs. split; [exact T |]. split; [exact G |]. split; [exact S |].
           unfold bind, modify. destruct O as [O | O]; [left | right; left]; exact O.
        -- destruct (Next eq_refl (d * 2 ^ a)%Z) as (st' & evs & T & G & S & Hlt & O).
           exists st', evs. split; [exact T |]. split; [exact G |]. split; [exact S |].
           unfold bind, modify, ret. rewrite Hlt.
           destruct O as [O | O]; [left | right; left]; exact O.
        -- destruct (Next eq_refl d) as (st' & evs & T & G & S & Hlt & O).
           exists st', evs. split; [exact T |]. split; [exact G |]. split; [exact S |].
           unfold bind, modify. destruct O as [O | O]; [left | right; left]; exact O.
Qed.

(** X1. [_make_robust_request] ends in one of four ways, whatever the
    network does: a response whose status is below 400; an [ExtractorError];
    the failure of [urlparse] in the header policy, before anything was
    done; or, only when [retries] is not positive, [None] without any
    request.  It sends at most [retries] requests and sleeps at most
    [retries - 1] times. *)
Theorem robust_request_outcome (url : string) (hdrs : headers) (retries d : Z)
        (st : state) :
  exists evs,
    trace (snd (make_robust_request url hdrs retries d st)) = (trace st ++ evs)%list
    /\ gets evs <= Z.to_nat retries
    /\ List.length (sleeps evs) <= pred (Z.to_nat retries)
    /\ ((exists r, fst (make_robust_request url hdrs retries d st) = Ok (Some r)
                   /\ (status r < 400)%Z)
        \/ (exists msg, fst (make_robust_request url hdrs retries d st)
                        = Raise (ExtractorError msg))
        \/ (exists u, make_robust_request url hdrs retries d st
                      = (Raise (OtherError (fault_text (BadUrl u))), st))
        \/ ((retries <= 0)%Z /\ evs = []
            /\ make_robust_request url hdrs retries d st = (Ok None, st))).
Proof.
  unfold make_robust_request, bind.
  destruct (get_headers_cases url hdrs st) as [(h & H) | (u & H)]; rewrite H.
  - destruct (Z_le_gt_dec retries 0) as [Hr | Hr].
    + replace (Z.to_nat retries) with 0 by lia. exists []. cbn.
      rewrite List.app_nil_r. repeat (split; [first [reflexivity | lia] |]).
      right. right. right. repeat split. exact Hr.
    + destruct (request_loop_outcome url h retries d (Z.to_nat retries) 0 st)
        as (st' & evs & T & G & S & O); [lia |].
      exists evs. destruct O as [(r & R & Hs) | [(msg & R) | (N & _)]]; [| | lia].
      * rewrite R. cbn [fst snd]. repeat (split; [assumption |]).
        left. exists r. split; [reflexivity | exact Hs].
      * rewrite R. cbn [fst snd]. repeat (split; [assumption |]).
        right. left. exists msg. reflexivity.
  - exists []. cbn [fst snd]. rewrite List.app_nil_r.
    repeat (split; [first [reflexivity | cbn; lia] |]).
    right. right. left. exists u. reflexivity.
Qed.

(** The loop against a connection that fails [k] more times in the
    transport class and then answers. *)
Lemma request_loop_recovers (url : string) (h : headers) (retries d code : Z)
      (text : string) :
  (forall tr, session_new tr = None) ->
  (code < 400)%Z ->
  forall (k n : nat) (a : Z) (st : state),
    (forall tr, gets (trace st) <= gets tr < gets (trace st) + k ->
                exists m, http_get tr url h = Fails (TransportError m)) ->
    (forall tr, gets tr = gets (trace st) + k -> http_get tr url h = Response code text) ->
    (a + Z.of_nat k < retries)%Z -> k < n ->
    exists st' evs,
      request_loop url h retries d n a st = (Ok (Some (mkResponse code text)), st')
      /\ trace st' = (trace st ++ evs)%list
      /\ gets evs = S k
      /\ sleeps evs = backoff d a k
      /\ session st' = true
      /\ stream_data_cache st' = stream_data_cache st.
Proof.
  intros Hs Hc. induction k as [| k IH]; intros n a st Hf Hok Ha Hn.
  - destruct n as [| n]; [lia |]. rewrite request_loop_S.
    unfold attempt_get, bind, get_session, get_state, modify, ret, lib_error.
    destruct (session st) eqn:S.
    + rewrite (Hok (trace st)) by lia. apply Z.leb_gt in Hc. rewrite Hc.
      exists (emit (EvGet url h) st), [EvGet url h].
      repeat split. exact S.
    + rewrite Hs. cbn [trace emit set_session].
      rewrite (Hok (trace st ++ [EvSession])%list) by (rewrite gets_app; cbn; lia).
      apply Z.leb_gt in Hc. rewrite Hc.
      eexists. exists [EvSession; EvGet url h].
      split; [reflexivity |]. cbn [trace emit set_session]. rewrite <- app_assoc.
      repeat split.
  - destruct n as [| n]; [lia |]. rewrite request_loop_S.
    assert (A : exists st1 evs1 m,
               attempt_get url h st = (Raise (TransportError m), st1)
               /\ trace st1 = (trace st ++ evs1)%list /\ gets evs1 = 1
               /\ sleeps evs1 = [] /\ session st1 = true
               /\ stream_data_cache st1 = stream_data_cache st).
    { unfold attempt_get, bind, get_session, get_state, modify, ret, lib_error, raise.
      destruct (session st) eqn:S.
      - destruct (Hf (trace st)) as (m & Hm); [lia |]. rewrite Hm.
        exists (emit (EvGet url h) st), [EvGet url h], m. repeat split. exact S.
      - rewrite Hs. cbn [trace emit set_session].
        destruct (Hf (trace st ++ [EvSession])%list) as (m & Hm);
          [rewrite gets_app; cbn; lia |]. rewrite Hm.
        eexists. exists [EvSession; EvGet url h], m.
        split; [reflexivity |]. cbn [trace emit set_session]. rewrite <- app_assoc.
        repeat split. }
    destruct A as (st1 & evs1 & m & R & T1 & G1 & S1 & Se1 & C1). rewrite R.
    replace (a =? retries - 1)%Z with false by lia.
    replace (a <? retries - 1)%Z with true by lia.
    unfold bind, ret, modify.
    destruct (IH n (a + 1)%Z (emit (EvSleep (d * 2 ^ a)) st1))
      as (st' & evs & L & T & G & S & Se & C).
    + intros tr Htr. apply Hf. cbn [trace emit] in Htr.
      rewrite T1, !gets_app, G1 in Htr. cbn in Htr. lia.
    + intros tr Htr. apply Hok. cbn [trace emit] in Htr.
      rewrite T1, !gets_app, G1 in Htr. cbn in Htr. lia.
    + lia.
    + lia.
    + exists st', (evs1 ++ EvSleep (d * 2 ^ a) :: evs)%list.
      split; [exact L |].
      split; [rewrite T; cbn [trace emit]; rewrite T1, <- !app_assoc; reflexivity |].
      rewrite gets_app, sleeps_app, S1, G1. cbn [app backoff].
      change (gets (EvSleep (d * 2 ^ a) :: evs)) with (gets evs).
      change (sleeps (EvSleep (d * 2 ^ a) :: evs)) with ((d * 2 ^ a)%Z :: sleeps evs).
      rewrite G, S. repeat split; [exact Se | rewrite C; exact C1].
Qed.

(** X2. Transient failures are ridden out: when the connection fails [k]
    times in the transport class, with [k] below [retries], and then
    answers with a status below 400, [_make_robust_request] returns that
    answer after [k + 1] requests, having slept [initial_delay * 2^i] after
    the failure of attempt [i]; the session is kept and the stream cache is
    untouched. *)
Theorem robust_request_recovers (url : string) (hdrs h : headers)
        (retries d code : Z) (text : string) (k : nat) (st : state) :
  (forall tr, session_new tr = None) ->
  get_headers_for_url url hdrs st = (Ok h, st) ->
  (Z.of_nat k < retries)%Z ->
  (code < 400)%Z ->
  (forall tr, gets (trace st) <= gets tr < gets (trace st) + k ->
              exists m, http_get tr url h = Fails (TransportError m)) ->
  (forall tr, gets tr = gets (trace st) + k -> http_get tr url h = Response code text) ->
  exists st' evs,
    make_robust_request url hdrs retries d st = (Ok (Some (mkResponse code text)), st')
    /\ trace st' = (trace st ++ evs)%list
    /\ gets evs = S k
    /\ sleeps evs = backoff d 0 k
    /\ session st' = true
    /\ stream_data_cache st' = stream_data_cache st.
Proof.
  intros Hs Hh Hk Hc Hf Hok.
  unfold make_robust_request, bind. rewrite Hh.
  apply (request_loop_recovers url h retries d code text Hs Hc k
           (Z.to_nat retries) 0%Z st Hf Hok); lia.
Qed.

End WithEnv.

(** Two resets, then the home page: three requests, the delays 2 and 4. *)
Lemma robust_request_recovers_example :
  exists st' evs,
    @make_robust_request Scenario.flaky_site "https://daddylive.sx/" [] 3 2 Sample.fresh
    = (Ok (Some (mkResponse 200 "home")), st')
    /\ trace st' = (trace Sample.fresh ++ evs)%list
    /\ gets evs = 3
    /\ sleeps evs = [2; 4]%Z
    /\ session st' = true
    /\ stream_data_cache st' = stream_data_cache Sample.fresh.
Proof.
  apply (@robust_request_recovers Scenario.flaky_site "https://daddylive.sx/" [] []
           3 2 200 "home" 2 Sample.fresh).
  - reflexivity.
  - reflexivity.
  - lia.
  - lia.
  - intros tr Htr. exists "reset". cbn [http_get Scenario.flaky_site].
    replace (Nat.ltb (gets tr) 2) with true; [reflexivity |].
    symmetry. apply Nat.ltb_lt. cbn in Htr. lia.
  - intros tr Htr. cbn [http_get Scenario.flaky_site].
    replace (Nat.ltb (gets tr) 2) with false; [reflexivity |].
    symmetry. apply Nat.ltb_ge. cbn in Htr. lia.
Defined.

End ExecutorMore.

(** ** Relations that every step of the pipeline respects *)
Module RespectFacts.
Import PyStr Regex Json Extractor StrFacts Observe Within ExecutorFacts.

Section Generic.
Context {E : Env}.
Variable R : state -> state -> Prop.
Hypothesis R_refl : forall st, R st st.
Hypothesis R_trans : forall a b c, R a b -> R b c -> R a c.

Lemma respects_ret {A} (a : A) : respects R (ret a).
Proof. intros st. apply R_refl. Qed.

Lemma respects_raise {A} (e : exn) : respects R (@raise A e).
Proof. intros st. apply R_refl. Qed.

Lemma respects_get_state : respects R get_state.
Proof. intros st. apply R_refl. Qed.

Lemma respects_modify (f : state -> state) :
  (forall st, R st (f st)) -> respects R (modify f).
Proof. intros H st. apply H. Qed.

Lemma respects_bind {A B} (m : M A) (k : A -> M B) :
  respects R m -> (forall a, respects R (k a)) -> respects R (bind m k).
Proof.
  intros Hm Hk st. unfold bind. specialize (Hm st).
  destruct (m st) as [[a|e] st1]; simpl in *.
  - eapply R_trans; [exact Hm | apply Hk].
  - exact Hm.
Qed.

Lemma respects_catch {A} (m : M A) (h : exn -> M A) :
  respects R m -> (forall e, respects R (h e)) -> respects R (catch m h).
Proof.
  intros Hm Hh st. unfold catch. specialize (Hm st).
  destruct (m st) as [[a|e] st1]; simpl in *.
  - exact Hm.
  - eapply R_trans; [exact Hm | apply Hh].
Qed.

Lemma respects_at {A} (m : M A) (st0 st : state) :
  R st0 st -> respects R m -> R st0 (snd (m st)).
Proof. intros H0 H. eapply R_trans; [exact H0 | apply H]. Qed.

(** The steps of the page traffic. *)
Hypothesis R_open : forall st, session st = false ->
                               R st (emit EvSession (set_session true st)).
Hypothesis R_close : forall st, session st = true ->
                                R st (emit EvSessionClose (set_session false st)).
Hypothesis R_get : forall url h st, R st (emit (EvGet url h) st).
Hypothesis R_sleep : forall d st, R st (emit (EvSleep d) st).
Hypothesis R_iframe : forall u st, R st (set_iframe_context u st).
Hypothesis R_base : forall u st, R st (set_cached_base_url u st).

Create HintDb respect.

Ltac rs :=
  repeat first
    [ assumption
    | apply respects_ret
    | apply respects_raise
    | apply respects_get_state
    | apply respects_modify; intros ?; solve [auto]
    | apply respects_bind; [| intros ?]
    | apply respects_catch; [| intros ?]
    | match goal with
      | |- respects R (match ?x with _ => _ end) => destruct x
      | |- respects R (if ?b then _ else _) => destruct b
      end
    | solve [auto with respect] ].

Lemma respects_lib_error {A} (f : fault) : respects R (@lib_error E A f).
Proof. apply respects_raise. Qed.
#[local] Hint Resolve respects_lib_error : respect.

Lemma respects_parse_url (u : string) : respects R (parse_url u).
Proof. unfold parse_url. rs. Qed.
#[local] Hint Resolve respects_parse_url : respect.

Lemma respects_origin_of (u : string) : respects R (origin_of u).
Proof. unfold origin_of. rs. Qed.
#[local] Hint Resolve respects_origin_of : respect.

Lemma respects_get_session : respects R get_session.
Proof.
  intros st. unfold get_session.
  destruct (session st) eqn:S; [apply R_refl |].
  destruct (session_new (trace st)); [apply R_refl | apply R_open, S].
Qed.
#[local] Hint Resolve respects_get_session : respect.

Lemma respects_close_session : respects R close_session.
Proof.
  intros st. unfold close_session.
  destruct (session st) eqn:S; [apply R_close, S | apply R_refl].
Qed.
#[local] Hint Resolve respects_close_session : respect.

Lemma respects_get_headers_for_url (url : string) (h : headers) :
  respects R (get_headers_for_url url h).
Proof. unfold get_headers_for_url. rs. Qed.
#[local] Hint Resolve respects_get_headers_for_url : respect.

Lemma respects_attempt_get (url : string) (h : headers) : respects R (attempt_get url h).
Proof. unfold attempt_get. rs. Qed.
#[local] Hint Resolve respects_attempt_get : respect.

Lemma respects_request_loop (url : string) (h : headers) (retries d : Z) (n : nat) :
  forall a, respects R (request_loop url h retries d n a).
Proof.
  induction n as [|n IH]; intros a; [apply respects_ret |].
  intros st. rewrite request_loop_S.
  pose proof (respects_attempt_get url h st) as Ha.
  destruct (attempt_get url h st) as [[r|e] st1]; simpl in Ha; [exact Ha |].
  destruct e; apply (respects_at _ _ _ Ha); rs.
Qed.
#[local] Hint Resolve respects_request_loop : respect.

Lemma respects_make_robust_request (url : string) (h : headers) (retries d : Z) :
  respects R (make_robust_request url h retries d).
Proof. unfold make_robust_request. rs. Qed.
#[local] Hint Resolve respects_make_robust_request : respect.

Lemma respects_fetch (url : string) (h : headers) : respects R (fetch url h).
Proof. unfold fetch. rs. Qed.
#[local] Hint Resolve respects_fetch : respect.

Lemma respects_player_loop (baseurl : string) (links : list string) :
  forall h last, respects R (player_loop baseurl links h last).
Proof.
  induction links as [|link links IH]; intros h last; simpl; [apply respects_ret |].
  destruct (urlparse (absolute_link baseurl link)) as [[scheme netloc]|]; [| apply IH].
  intros st.
  pose proof (respects_fetch (absolute_link baseurl link)
                (PyDict.set "Origin" (scheme ++ "://" ++ netloc)
                   (PyDict.set "Referer" (absolute_link baseurl link) h)) st) as Hf.
  destruct (fetch _ _ st) as [[content|e] st1]; simpl in Hf.
  - destruct (findall iframe_pattern content); [| exact Hf].
    apply (respects_at _ _ _ Hf), IH.
  - apply (respects_at _ _ _ Hf), IH.
Qed.
#[local] Hint Resolve respects_player_loop : respect.

Lemma respects_legacy_player (baseurl content : string) (h : headers) (last : option exn) :
  respects R (legacy_player baseurl content h last).
Proof. unfold legacy_player. rs. Qed.
#[local] Hint Resolve respects_legacy_player : respect.

Lemma respects_as_str (op : string) (v : json) : respects R (as_str op v).
Proof. unfold as_str. rs. Qed.
#[local] Hint Resolve respects_as_str : respect.

Lemma respects_check_params (ck : option string) (f : auth_fields) :
  respects R (check_params ck f).
Proof. unfold check_params. rs. Qed.
#[local] Hint Resolve respects_check_params : respect.

Lemma respects_server_resolution (iframe_url netloc : string) (h : headers)
      (k : string) (f : auth_fields) (php : string) :
  respects R (server_resolution iframe_url netloc h k f php).
Proof. unfold server_resolution. rs. Qed.
#[local] Hint Resolve respects_server_resolution : respect.

Lemma respects_handshake (iframe_url : string) (h : headers) (k : string)
      (f : auth_fields) :
  respects R (handshake iframe_url h k f).
Proof. unfold handshake. rs. Qed.
#[local] Hint Resolve respects_handshake : respect.

Lemma respects_param_stage (iframe_url : string) (h : headers) (content : string) :
  respects R (param_stage iframe_url h content).
Proof. unfold param_stage. rs. Qed.
#[local] Hint Resolve respects_param_stage : respect.

Lemma respects_try_endpoint (baseurl endpoint channel_id : string) :
  respects R (try_endpoint baseurl endpoint channel_id).
Proof. unfold try_endpoint. rs. Qed.
#[local] Hint Resolve respects_try_endpoint : respect.

Lemma respects_get_daddylive_base_url : respects R get_daddylive_base_url.
Proof. unfold get_daddylive_base_url, probe_base_url. rs. Qed.
#[local] Hint Resolve respects_get_daddylive_base_url : respect.

(** The steps that store a result. *)
Hypothesis R_cache : forall c st, R st (set_cache c st).
Hypothesis R_write : forall content remains st,
    R st (emit (EvWrite content) (set_cache_file remains st)).

Lemma respects_save_cache : respects R save_cache.
Proof.
  intros st. unfold save_cache. cbv zeta.
  destruct (file_write (trace st) (cache_text (stream_data_cache st))); apply R_write.
Qed.
#[local] Hint Resolve respects_save_cache : respect.

Lemma respects_cache_setitem (k : string) (v : json) : respects R (cache_setitem k v).
Proof. unfold cache_setitem. rs. Qed.
#[local] Hint Resolve respects_cache_setitem : respect.

Lemma respects_cache_delitem (k : string) : respects R (cache_delitem k).
Proof. unfold cache_delitem. rs. Qed.
#[local] Hint Resolve respects_cache_delitem : respect.

Lemma respects_endpoint_loop (baseurl cid : string) (eps : list string) :
  forall last, respects R (endpoint_loop baseurl cid eps last).
Proof.
  induction eps as [| ep eps IH]; intros last; cbn [endpoint_loop]; rs.
Qed.
#[local] Hint Resolve respects_endpoint_loop : respect.

Lemma respects_fresh_resolution (cid : string) : respects R (fresh_resolution cid).
Proof. unfold fresh_resolution. rs. Qed.
#[local] Hint Resolve respects_fresh_resolution : respect.

Lemma respects_extract_forced (url : string) : respects R (extract url true).
Proof. unfold extract. rs. Qed.

(** The probe of a cached entry. *)
Hypothesis R_head : forall u h st, R st (emit (EvHead u h) st).

Lemma respects_head_probe (u h : json) : respects R (head_probe u h).
Proof. unfold head_probe. rs. Qed.
#[local] Hint Resolve respects_head_probe : respect.

Lemma respects_cache_contains (c : json) (k : string) : respects R (cache_contains c k).
Proof. unfold cache_contains. rs. Qed.
#[local] Hint Resolve respects_cache_contains : respect.

Lemma respects_cache_getitem (c : json) (k : string) : respects R (cache_getitem c k).
Proof. unfold cache_getitem. rs. Qed.
#[local] Hint Resolve respects_cache_getitem : respect.

Lemma respects_cache_probe (cid : string) : respects R (cache_probe cid).
Proof. unfold cache_probe. rs. Qed.
#[local] Hint Resolve respects_cache_probe : respect.

Lemma respects_extract (url : string) (force_refresh : bool) :
  respects R (extract url force_refresh).
Proof. unfold extract. rs. Qed.

End Generic.
End RespectFacts.

(** ** What a resolution does to the sessions, the cache and its file *)
Module RunFacts.
Import PyStr Regex Json Extractor StrFacts Observe Within ExecutorFacts RespectFacts.

Lemma appends_refl (p : event -> bool) (st : state) : appends p st st.
Proof. exists []. now rewrite List.app_nil_r. Qed.

Lemma appends_trans (p : event -> bool) (a b c : state) :
  appends p a b -> appends p b c -> appends p a c.
Proof.
  intros (e1 & T1 & P1) (e2 & T2 & P2). exists (e1 ++ e2)%list.
  split; [now rewrite T2, T1, app_assoc | now rewrite forallb_app, P1, P2].
Qed.

Lemma appends_emit (p : event -> bool) (e : event) (st st1 : state) :
  p e = true -> trace st1 = trace st -> appends p st (emit e st1).
Proof.
  intros H T. exists [e]. cbn [trace emit forallb]. now rewrite T, H.
Qed.

Lemma appends_same (p : event -> bool) (st st1 : state) :
  trace st1 = trace st -> appends p st st1.
Proof. intros T. exists []. now rewrite T, List.app_nil_r. Qed.

Lemma session_run_app (evs1 evs2 : list event) :
  forall b b1, session_run b evs1 = Some b1 ->
               session_run b (evs1 ++ evs2)%list = session_run b1 evs2.
Proof.
  induction evs1 as [| e evs1 IH]; intros b b1 H; simpl in *.
  - now inversion H.
  - destruct e; try (apply IH; exact H); destruct b; try discriminate; apply IH; exact H.
Qed.

Lemma balanced_refl (st : state) : balanced st st.
Proof. exists []. now rewrite List.app_nil_r. Qed.

Lemma balanced_trans (a b c : state) : balanced a b -> balanced b c -> balanced a c.
Proof.
  intros (e1 & T1 & P1) (e2 & T2 & P2). exists (e1 ++ e2)%list.
  split; [now rewrite T2, T1, app_assoc |].
  now rewrite (session_run_app e1 e2 _ _ P1).
Qed.

Lemma balanced_quiet (e : event) (st : state) :
  (forall b, session_run b [e] = Some b) -> balanced st (emit e st).
Proof. intros H. exists [e]. split; [reflexivity | apply H]. Qed.

Lemma balanced_same (st st1 : state) :
  trace st1 = trace st -> session st1 = session st -> balanced st st1.
Proof. intros T S. exists []. now rewrite T, S, List.app_nil_r. Qed.

Lemma untouched_refl (st : state) : untouched st st.
Proof. split; reflexivity. Qed.

Lemma untouched_trans (a b c : state) : untouched a b -> untouched b c -> untouched a c.
Proof. intros [A1 A2] [B1 B2]. split; congruence. Qed.

Section WithEnv.
Context {E : Env}.

Lemma extract_balanced (url : string) (force_refresh : bool) (st : state) :
  balanced st (snd (extract url force_refresh st)).
Proof.
  apply (respects_extract balanced balanced_refl balanced_trans).
  - intros s H. exists [EvSession]. cbn. now rewrite H.
  - intros s H. exists [EvSessionClose]. cbn. now rewrite H.
  - intros u h s. now apply balanced_quiet.
  - intros d s. now apply balanced_quiet.
  - intros u s. now apply balanced_same.
  - intros u s. now apply balanced_same.
  - intros c s. now apply balanced_same.
  - intros content remains s. exists [EvWrite content]. split; reflexivity.
  - intros u h s. now apply balanced_quiet.
Qed.

(** X3. Sessions never pile up.  Over a whole call of [extract], whatever
    the network does, the trace only grows, a session is only built while
    the extractor holds none and only closed while it holds one, and
    [self.session] at the end is what these events leave. *)
Theorem extract_sessions_balanced (url : string) (force_refresh : bool) (st : state) :
  exists evs,
    trace (snd (extract url force_refresh st)) = (trace st ++ evs)%list
    /\ session_run (session st) evs
       = Some (session (snd (extract url force_refresh st))).
Proof. apply extract_balanced. Qed.

(** X4. With [force_refresh] on, the cache check is skipped altogether: no
    HEAD request is sent, whatever the cache holds and whatever the network
    does. *)
Theorem forced_extract_sends_no_head (url : string) (st : state) :
  exists evs, trace (snd (extract url true st)) = (trace st ++ evs)%list
              /\ filter is_head evs = [].
Proof.
  assert (A : appends not_head st (snd (extract url true st))).
  { apply (respects_extract_forced (appends not_head) (appends_refl _) (appends_trans _)).
    - intros s H. now apply appends_emit.
    - intros s H. now apply appends_emit.
    - intros u h s. now apply appends_emit.
    - intros d s. now apply appends_emit.
    - intros u s. now apply appends_same.
    - intros u s. now apply appends_same.
    - intros c s. now apply appends_same.
    - intros content remains s. now apply appends_emit. }
  destruct A as (evs & T & P). exists evs. split; [exact T |].
  clear T. induction evs as [| e evs IH]; [reflexivity |].
  cbn [forallb] in P. apply andb_prop in P. destruct P as [P1 P2].
  cbn [filter]. unfold not_head in P1. apply negb_true_iff in P1. rewrite P1. auto.
Qed.

(** [try_endpoint] leaves the cache and its file alone. *)
Lemma untouched_try_endpoint (baseurl endpoint cid : string) :
  respects untouched (try_endpoint baseurl endpoint cid).
Proof.
  apply (respects_try_endpoint untouched untouched_refl untouched_trans);
    intros; split; reflexivity.
Qed.

Lemma untouched_get_daddylive_base_url : respects untouched get_daddylive_base_url.
Proof.
  apply (respects_get_daddylive_base_url untouched untouched_refl untouched_trans);
    intros; split; reflexivity.
Qed.

(** X5. One endpoint attempt is free of side effects on the store: whether
    [try_endpoint] returns or raises, it sends only page traffic (sessions,
    GET requests, sleeps: no HEAD, no write of the cache file) and leaves
    the cache in memory and the cache file as they were. *)
Theorem try_endpoint_isolated (baseurl endpoint cid : string) (st : state) :
  appends page_traffic st (snd (try_endpoint baseurl endpoint cid st))
  /\ untouched st (snd (try_endpoint baseurl endpoint cid st)).
Proof.
  split; [| apply untouched_try_endpoint].
  apply (respects_try_endpoint (appends page_traffic) (appends_refl _) (appends_trans _)).
  - intros s H. now apply appends_emit.
  - intros s H. now apply appends_emit.
  - intros u h s. now apply appends_emit.
  - intros d s. now apply appends_emit.
  - intros u s. now apply appends_same.
Qed.

Lemma settled_refl (st : state) : settled st st.
Proof. left. apply untouched_refl. Qed.

Lemma persisted_untouched (b c : state) : persisted b -> untouched b c -> persisted c.
Proof. unfold persisted. intros P [U1 U2]. now rewrite U1, U2. Qed.

Lemma settled_trans (a b c : state) : settled a b -> settled b c -> settled a c.
Proof.
  intros [U1 | P1] [U2 | P2]; try (right; exact P2).
  - left. eapply untouched_trans; eassumption.
  - right. eapply persisted_untouched; eassumption.
Qed.

Lemma settled_of_untouched {A} (m : M A) : respects untouched m -> respects settled m.
Proof. intros H st. left. apply H. Qed.

#[local] Ltac quiet := intros; split; reflexivity.

Lemma settled_head_probe (u h : json) : respects settled (head_probe u h).
Proof.
  apply settled_of_untouched.
  apply (respects_head_probe untouched untouched_refl untouched_trans); quiet.
Qed.

Lemma settled_cache_contains (c : json) (k : string) :
  respects settled (cache_contains c k).
Proof.
  apply settled_of_untouched.
  apply (respects_cache_contains untouched untouched_refl).
Qed.

Lemma settled_cache_getitem (c : json) (k : string) :
  respects settled (cache_getitem c k).
Proof.
  apply settled_of_untouched.
  apply (respects_cache_getitem untouched untouched_refl).
Qed.

Section Disk.
Hypothesis disk_works : forall tr content, file_write tr content = None.

Lemma save_cache_persists (st : state) : persisted (snd (save_cache st)).
Proof. unfold save_cache. cbv zeta. rewrite disk_works. reflexivity. Qed.

(** Dropping a stale entry and saving. *)
Lemma settled_drop (cid : string) :
  respects settled (cache_delitem cid ;;; save_cache ;;; ret (@None json)).
Proof.
  intros st. unfold cache_delitem, bind, get_state, modify, ret, lib_error, raise.
  destruct (stream_data_cache st) as [| | | | |d]; try apply settled_refl.
  destruct (PyDict.mem cid d); [| apply settled_refl].
  pose proof (save_cache_persists (set_cache (JObj (PyDict.del cid d)) st)) as P.
  destruct (save_cache _) as [[[]|e] st1]; right; exact P.
Qed.

(** Storing a result and saving. *)
Lemma settled_store (cid : string) (r : json) :
  respects settled (cache_setitem cid r ;;; save_cache ;;; ret r).
Proof.
  intros st. unfold cache_setitem, bind, get_state, modify, ret, lib_error, raise.
  destruct (stream_data_cache st) as [| | | | |d]; try apply settled_refl.
  pose proof (save_cache_persists (set_cache (JObj (PyDict.set cid r d)) st)) as P.
  destruct (save_cache _) as [[[]|e] st1]; right; exact P.
Qed.

#[local] Ltac ss :=
  repeat first
    [ apply (respects_ret settled settled_refl)
    | apply (respects_raise settled settled_refl)
    | apply (respects_get_state settled settled_refl)
    | apply settled_drop
    | apply settled_store
    | apply settled_head_probe
    | apply settled_cache_contains
    | apply settled_cache_getitem
    | apply settled_of_untouched, untouched_try_endpoint
    | apply settled_of_untouched, untouched_get_daddylive_base_url
    | apply (respects_bind settled settled_trans); [| intros ?]
    | apply (respects_catch settled settled_trans); [| intros ?]
    | match goal with
      | |- respects settled (match ?x with _ => _ end) => destruct x
      | |- respects settled (if ?b then _ else _) => destruct b
      | |- respects settled (lib_error _) => apply (respects_raise settled settled_refl)
      end ].

Lemma settled_cache_probe (cid : string) : respects settled (cache_probe cid).
Proof. unfold cache_probe. ss. Qed.

Lemma settled_endpoint_loop (baseurl cid : string) (eps : list string) :
  forall last, respects settled (endpoint_loop baseurl cid eps last).
Proof.
  induction eps as [| ep eps IH]; intros last; cbn [endpoint_loop]; ss. apply IH.
Qed.

(** X6. The cache file keeps up with the cache.  On a disk that takes
    every write, a call of [extract], whether it returns or raises, either
    leaves the cache in memory and the cache file exactly as they were, or
    leaves the file holding the encoding of the cache in memory; so a file
    that matched the cache before the call matches it after. *)
Theorem extract_keeps_file_in_step (url : string) (force_refresh : bool) (st : state) :
  settled st (snd (extract url force_refresh st))
  /\ (persisted st -> persisted (snd (extract url force_refresh st))).
Proof.
  assert (S : settled st (snd (extract url force_refresh st))).
  { revert st. change (respects settled (extract url force_refresh)).
    unfold extract, fresh_resolution.
    ss; first [apply settled_cache_probe | apply settled_endpoint_loop]. }
  split; [exact S |]. intros P. destruct S as [U | P']; [| exact P'].
  eapply persisted_untouched; eassumption.
Qed.

End Disk.
End WithEnv.

(** On the sample site, from a fresh extractor. *)
Lemma extract_keeps_file_in_step_example :
  settled Sample.fresh (snd (@extract Sample.site Sample.watch_url false Sample.fresh))
  /\ (persisted Sample.fresh ->
      persisted (snd (@extract Sample.site Sample.watch_url false Sample.fresh))).
Proof.
  apply (@extract_keeps_file_in_step Sample.site). intros tr content. reflexivity.
Defined.

End RunFacts.

(** ** The header policy and the base URL *)
Module PolicyFacts.
Import PyStr Regex Json Extractor StrFacts Observe Within ExecutorFacts RespectFacts.

Lemma get_set_eq {V} (k : string) (v : V) (d : PyDict.dict V) :
  PyDict.get k (PyDict.set k v d) = Some v.
Proof.
  induction d as [|[k' v'] d IH]; simpl.
  - now rewrite String.eqb_refl.
  - destruct (String.eqb k k') eqn:K; simpl; now rewrite K.
Qed.

Lemma get_set_other {V} (k k' : string) (v : V) (d : PyDict.dict V) :
  k <> k' -> PyDict.get k (PyDict.set k' v d) = PyDict.get k d.
Proof.
  intros N. apply String.eqb_neq in N.
  induction d as [|[k2 v2] d IH]; simpl.
  - now rewrite N.
  - destruct (String.eqb k' k2) eqn:K; simpl.
    + apply String.eqb_eq in K. subst k2. now rewrite N.
    + destruct (String.eqb k k2); [reflexivity | exact IH].
Qed.

(** The three headers the policy sets, over any base headers. *)
Lemma newkso_headers_spec (base : headers) (ua referer origin : string) :
  let h := PyDict.update base
             [("User-Agent", ua); ("Referer", referer); ("Origin", origin)] in
  PyDict.get "User-Agent" h = Some ua
  /\ PyDict.get "Referer" h = Some referer
  /\ PyDict.get "Origin" h = Some origin
  /\ (forall k, k <> "User-Agent" -> k <> "Referer" -> k <> "Origin" ->
                PyDict.get k h = PyDict.get k base).
Proof.
  cbn [PyDict.update fold_left fst snd]. repeat split.
  - rewrite !get_set_other by discriminate. apply get_set_eq.
  - rewrite get_set_other by discriminate. apply get_set_eq.
  - apply get_set_eq.
  - intros k N1 N2 N3. now rewrite !get_set_other.
Qed.

Section WithEnv.
Context {E : Env}.

(** X7. The header policy of [_get_headers_for_url].  For a URL whose host
    does not contain [newkso.ru] the headers passed in are used as they
    are.  For a host that contains it, [User-Agent], [Referer] and [Origin]
    are overridden and every other header is kept: with an iframe context
    the referer is the iframe URL and the origin is [https://] with the
    iframe host; without one both are the origin of the requested URL.  The
    extractor state is not changed. *)
Theorem header_policy (url : string) (base : headers) (st : state)
        (p : string * string) :
  urlparse url = Some p ->
  (contains "newkso.ru" (snd p) = false ->
   get_headers_for_url url base st = (Ok base, st))
  /\ (contains "newkso.ru" (snd p) = true ->
      forall ctx q,
        iframe_context st = Some ctx -> nonempty ctx = true -> urlparse ctx = Some q ->
        exists h,
          get_headers_for_url url base st = (Ok h, st)
          /\ PyDict.get "User-Agent" h = Some user_agent
          /\ PyDict.get "Referer" h = Some ctx
          /\ PyDict.get "Origin" h = Some ("https://" ++ snd q)
          /\ (forall k, k <> "User-Agent" -> k <> "Referer" -> k <> "Origin" ->
                        PyDict.get k h = PyDict.get k base))
  /\ (contains "newkso.ru" (snd p) = true ->
      iframe_context st = None \/ iframe_context st = Some EmptyString ->
      exists h,
        get_headers_for_url url base st = (Ok h, st)
        /\ PyDict.get "User-Agent" h = Some user_agent
        /\ PyDict.get "Referer" h = Some (fst p ++ "://" ++ snd p)
        /\ PyDict.get "Origin" h = Some (fst p ++ "://" ++ snd p)
        /\ (forall k, k <> "User-Agent" -> k <> "Referer" -> k <> "Origin" ->
                      PyDict.get k h = PyDict.get k base)).
Proof.
  intros Hp. unfold get_headers_for_url, bind, parse_url, get_state, ret.
  rewrite Hp. repeat split.
  - intros ->. reflexivity.
  - intros -> ctx q Hc Hn Hq. rewrite Hc, Hn, Hq.
    eexists. split; [reflexivity |]. apply newkso_headers_spec.
  - intros -> [Hc | Hc]; rewrite Hc; cbn [nonempty];
      (eexists; split; [reflexivity |]; apply newkso_headers_spec).
Qed.

(** The requests leave the remembered base URL alone. *)
Lemma request_keeps_base (url : string) (h : headers) (retries d : Z) (st : state) :
  cached_base_url (snd (make_robust_request url h retries d st)) = cached_base_url st.
Proof.
  apply (respects_make_robust_request
           (fun a b => cached_base_url b = cached_base_url a));
    try reflexivity.
  intros a b c H1 H2. congruence.
Qed.

(** X8. [get_daddylive_base_url] never fails and always gives a usable
    base.  A base URL remembered from an earlier call is returned at once,
    with no request.  Otherwise the home page is requested and the result
    is the fixed base [https://daddylive.sx/] in either case: when the
    request succeeds the base is remembered, when it fails the failure is
    swallowed and nothing is remembered. *)
Theorem base_url_never_fails (st : state) :
  exists u st',
    get_daddylive_base_url st = (Ok u, st')
    /\ nonempty u = true
    /\ ((cached_base_url st = Some u /\ st' = st)
        \/ (u = "https://daddylive.sx/"
            /\ (cached_base_url st = None \/ cached_base_url st = Some EmptyString)
            /\ match fst (make_robust_request "https://daddylive.sx/" [] 3 2 st) with
               | Ok _ => cached_base_url st' = Some "https://daddylive.sx/"
               | Raise _ => st' = snd (make_robust_request "https://daddylive.sx/" [] 3 2 st)
                            /\ cached_base_url st' = cached_base_url st
               end)).
Proof.
  assert (P : forall s, cached_base_url s = None \/ cached_base_url s = Some EmptyString ->
                        exists st',
                          probe_base_url s = (Ok "https://daddylive.sx/", st')
                          /\ match fst (make_robust_request "https://daddylive.sx/" [] 3 2 s) with
                             | Ok _ => cached_base_url st' = Some "https://daddylive.sx/"
                             | Raise _ =>
                                 st' = snd (make_robust_request "https://daddylive.sx/" [] 3 2 s)
                                 /\ cached_base_url st' = cached_base_url s
                             end).
  { intros s _. unfold probe_base_url, catch, bind, modify, ret.
    pose proof (request_keeps_base "https://daddylive.sx/" [] 3 2 s) as K.
    destruct (make_robust_request "https://daddylive.sx/" [] 3 2 s) as [[r | e] s1];
      cbn [fst snd] in *; eexists; (split; [reflexivity |]).
    - reflexivity.
    - split; [reflexivity | exact K]. }
  unfold get_daddylive_base_url, bind, get_state.
  destruct (cached_base_url st) as [u |] eqn:C.
  - destruct u as [| a u].
    + destruct (P st) as (st' & H1 & H2); [right; exact C |].
      exists "https://daddylive.sx/", st'. cbn [nonempty].
      split; [exact H1 |]. split; [reflexivity |]. right.
      split; [reflexivity |]. split; [right; reflexivity | rewrite C in H2; exact H2].
    + exists (String a u), st. cbn [nonempty]. repeat split. left. split; reflexivity.
  - destruct (P st) as (st' & H1 & H2); [left; exact C |].
    exists "https://daddylive.sx/", st'.
    split; [exact H1 |]. split; [reflexivity |]. right.
    split; [reflexivity |]. split; [left; reflexivity | rewrite C in H2; exact H2].
Qed.

End WithEnv.

(** A stream URL requested after the iframe was seen, over lower-case base
    headers, and a page of the site itself. *)
Lemma header_policy_example :
  (exists h,
      @get_headers_for_url Sample.site "https://abcnew.newkso.ru/abc/premium123/mono.m3u8"
        [("user-agent", "curl"); ("Accept", "*/*")]
        (set_iframe_context (Some "https://frame.test/embed/1.php") Sample.fresh)
      = (Ok h, set_iframe_context (Some "https://frame.test/embed/1.php") Sample.fresh)
      /\ PyDict.get "User-Agent" h = Some user_agent
      /\ PyDict.get "Referer" h = Some "https://frame.test/embed/1.php"
      /\ PyDict.get "Origin" h = Some "https://frame.test"
      /\ (forall k, k <> "User-Agent" -> k <> "Referer" -> k <> "Origin" ->
                    PyDict.get k h
                    = PyDict.get k [("user-agent", "curl"); ("Accept", "*/*")]))
  /\ @get_headers_for_url Sample.site "https://daddylive.sx/stream/stream-1.php"
       [("Accept", "*/*")] Sample.fresh
     = (Ok [("Accept", "*/*")], Sample.fresh).
Proof.
  split.
  - apply (proj1 (proj2 (@header_policy Sample.site
                           "https://abcnew.newkso.ru/abc/premium123/mono.m3u8"
                           [("user-agent", "curl"); ("Accept", "*/*")]
                           (set_iframe_context (Some "https://frame.test/embed/1.php")
                                               Sample.fresh)
                           ("https", "abcnew.newkso.ru") eq_refl))
             eq_refl "https://frame.test/embed/1.php" ("https", "frame.test")
             eq_refl eq_refl eq_refl).
  - apply (proj1 (@header_policy Sample.site "https://daddylive.sx/stream/stream-1.php"
                    [("Accept", "*/*")] Sample.fresh ("https", "daddylive.sx") eq_refl)
             eq_refl).
Defined.

End PolicyFacts.

(** ** More on the channel identifier *)
Module ChannelIdMore.
Import PyStr Regex Json Extractor StrFacts RegexFacts Observe Case ChannelIdFacts.

#[local] Ltac each_ascii c :=
  destruct c as [[] [] [] [] [] [] [] []]; vm_compute; reflexivity.

Lemma lower_idem (c : ascii) : lower (lower c) = lower c.
Proof. each_ascii c. Qed.

Lemma digit_lower (c : ascii) : digit (lower c) = digit c.
Proof. each_ascii c. Qed.

Lemma newline_lower (c : ascii) : Ascii.eqb (lower c) "010" = Ascii.eqb c "010".
Proof. each_ascii c. Qed.

Lemma digit_fixed (c : ascii) : digit c = true -> lower c = c.
Proof. destruct c as [[] [] [] [] [] [] [] []]; vm_compute; congruence. Qed.

Lemma casefold_length (s : string) : String.length (casefold s) = String.length s.
Proof. induction s as [| a s IH]; simpl; congruence. Qed.

Lemma casefold_app (s t : string) : casefold (s ++ t) = casefold s ++ casefold t.
Proof. induction s as [| a s IH]; simpl; congruence. Qed.

Lemma casefold_idem (s : string) : casefold (casefold s) = casefold s.
Proof. induction s as [| a s IH]; simpl; [reflexivity | now rewrite lower_idem, IH]. Qed.

Lemma casefold_take (n : nat) (s : string) : take n (casefold s) = casefold (take n s).
Proof.
  unfold take. revert n. induction s as [| a s IH]; intros [| n]; simpl; try reflexivity.
  now rewrite IH.
Qed.

Lemma casefold_numeric (d : string) : numeric d = true -> casefold d = d.
Proof.
  unfold numeric. intros H. apply andb_prop in H. destruct H as [_ H].
  induction d as [| a d IH]; [reflexivity |].
  cbn [chars forallb] in H. apply andb_prop in H. destruct H as [Ha Hd].
  simpl. now rewrite (digit_fixed a Ha), IH.
Qed.

(** Matching with [re.IGNORECASE] does not see the case of the subject. *)
Lemma lit_rest_casefold (lit s : string) :
  lit_rest true lit (casefold s) = option_map casefold (lit_rest true lit s).
Proof.
  revert s. induction lit as [| a lit IH]; intros s; [reflexivity |].
  destruct s as [| b s]; [reflexivity |]. cbn [casefold lit_rest].
  unfold chr_eq. rewrite lower_idem. destruct (Ascii.eqb (lower a) (lower b)); auto.
Qed.

Lemma rep_casefold {A B} (rel : A -> B -> Prop) (p : ascii -> bool)
      (k' : string -> option A) (k : string -> option B) :
  (forall c, p (lower c) = p c) ->
  (forall s, agree rel (k' (casefold s)) (k s)) ->
  forall s, agree rel (rep p k' (casefold s)) (rep p k s).
Proof.
  intros Hp Hk. induction s as [| a s IH]; cbn [casefold rep].
  - apply (Hk EmptyString).
  - rewrite Hp. destruct (p a); [| apply (Hk (String a s))].
    destruct (rep p k' (casefold s)), (rep p k s); cbn in IH |- *;
      try contradiction; [exact IH | apply (Hk (String a s))].
Qed.

Lemma run_casefold {A B} (rel : A -> B -> Prop) (r : re) :
  case_blind r ->
  forall (s g : string) (k' : string -> string -> option A)
         (k : string -> string -> option B),
    (forall s1 g1, agree rel (k' (casefold s1) (casefold g1)) (k s1 g1)) ->
    agree rel (run true r (casefold s) (casefold g) k') (run true r s g k).
Proof.
  induction r as [| lit | p | p | r1 IH1 r2 IH2 | r1 IH1 r2 IH2 | r IH |];
    cbn [run case_blind]; intros C s g k' k Hk.
  - apply Hk.
  - rewrite lit_rest_casefold. destruct (lit_rest true lit s); cbn; [apply Hk | exact I].
  - destruct s as [| a s]; cbn [casefold]; [exact I |].
    rewrite C. destruct (p a); [apply Hk | exact I].
  - apply (rep_casefold rel p _ _ C). intros s1. apply Hk.
  - destruct C as [C1 C2]. apply (IH1 C1). intros s1 g1. apply (IH2 C2), Hk.
  - destruct C as [C1 C2].
    pose proof (IH1 C1 s g k' k Hk) as H1. pose proof (IH2 C2 s g k' k Hk) as H2.
    destruct (run true r1 (casefold s) (casefold g) k'), (run true r1 s g k);
      cbn in H1 |- *; try contradiction; [exact H1 | exact H2].
  - apply (IH C). intros s1 g1. rewrite !casefold_length, casefold_take. apply Hk.
  - destruct s as [| a [| b s]]; cbn [casefold].
    + apply (Hk EmptyString).
    + rewrite newline_lower. destruct (Ascii.eqb a "010"); [| exact I].
      apply (Hk (String a EmptyString)).
    + exact I.
Qed.

Lemma match_here_casefold (r : re) (s : string) :
  case_blind r ->
  agree (fun x y => fst x = casefold (fst y))
        (match_here true r (casefold s)) (match_here true r s).
Proof.
  intros C. unfold match_here.
  apply (run_casefold (fun x y => fst x = casefold (fst y)) r C
           s EmptyString (fun s' g => Some (g, s')) (fun s' g => Some (g, s'))).
  intros s1 g1. reflexivity.
Qed.

Lemma search_step (ic : bool) (r : re) (s : string) :
  search ic r s
  = group_or (match_here ic r s)
             match s with
             | String _ s' => search ic r s'
             | EmptyString => None
             end.
Proof. destruct s; reflexivity. Qed.

Lemma group_or_casefold (m' m : option (string * string)) (t' t : option string) :
  agree (fun x y => fst x = casefold (fst y)) m' m ->
  t' = option_map casefold t ->
  group_or m' t' = option_map casefold (group_or m t).
Proof.
  destruct m' as [[g1 r1] |], m as [[g2 r2] |]; cbn; try contradiction; congruence.
Qed.

Lemma search_casefold (r : re) (s : string) :
  case_blind r -> search true r (casefold s) = option_map casefold (search true r s).
Proof.
  intros C. induction s as [| a s IH].
  - rewrite (search_step true r (casefold EmptyString)), (search_step true r EmptyString).
    apply group_or_casefold; [apply match_here_casefold, C | reflexivity].
  - rewrite (search_step true r (casefold (String a s))),
            (search_step true r (String a s)).
    apply group_or_casefold; [apply match_here_casefold, C | exact IH].
Qed.

Lemma first_match_casefold (ps : list re) (s : string) :
  Forall case_blind ps ->
  first_match true ps (casefold s) = option_map casefold (first_match true ps s).
Proof.
  induction 1 as [| p ps Hp _ IH]; cbn [first_match]; [reflexivity |].
  rewrite (search_casefold p s Hp). destruct (search true p s); [reflexivity | exact IH].
Qed.

Lemma channel_id_patterns_blind : Forall case_blind channel_id_patterns.
Proof.
  unfold channel_id_patterns, digits, plus.
  repeat apply Forall_cons; try apply Forall_nil; cbn; repeat split;
    try apply digit_lower.
Qed.

Lemma extract_channel_id_casefold (url : string) :
  extract_channel_id (casefold url) = extract_channel_id url.
Proof.
  unfold extract_channel_id.
  rewrite (first_match_casefold _ url channel_id_patterns_blind).
  destruct (first_match true channel_id_patterns url) as [cid |] eqn:F; [| reflexivity].
  cbn. f_equal. apply casefold_numeric. apply (extract_channel_id_numeric url), F.
Qed.

(** X9. The channel identifier does not depend on the case of the letters
    of the URL: two URLs that differ only in the case of ASCII letters give
    the same result, an identifier or none. *)
Theorem channel_id_ignores_case (url1 url2 : string) :
  casefold url1 = casefold url2 ->
  extract_channel_id url1 = extract_channel_id url2.
Proof.
  intros H. rewrite <- (extract_channel_id_casefold url1), H.
  apply extract_channel_id_casefold.
Qed.

Lemma channel_id_ignores_case_example :
  extract_channel_id "HTTPS://DaddyLive.SX/Watch/Stream-123.PHP"
  = extract_channel_id "https://daddylive.sx/watch/stream-123.php".
Proof. apply channel_id_ignores_case. reflexivity. Defined.

(** Where a match leaves off is a suffix of where it began. *)
Lemma lit_rest_suffix (ic : bool) (lit : string) :
  forall s s', lit_rest ic lit s = Some s' -> exists p, s = p ++ s'.
Proof.
  induction lit as [| a lit IH]; intros s s' H.
  - cbn in H. injection H as <-. exists EmptyString. reflexivity.
  - destruct s as [| b s]; [discriminate |]. cbn [lit_rest] in H.
    destruct (chr_eq ic a b); [| discriminate].
    destruct (IH s s' H) as (p & ->). exists (String b p). reflexivity.
Qed.

Lemma run_suffix {A} (ic : bool) (r : re) :
  forall (s g : string) (k : string -> string -> option A) (x : A),
    run ic r s g k = Some x -> exists p s' g', s = p ++ s' /\ k s' g' = Some x.
Proof.
  induction r as [| lit | p | p | r1 IH1 r2 IH2 | r1 IH1 r2 IH2 | r IH |];
    cbn [run]; intros s g k x H.
  - exists EmptyString, s, g. auto.
  - destruct (lit_rest ic lit s) as [s' |] eqn:L; [| discriminate].
    destruct (lit_rest_suffix ic lit s s' L) as (p & ->). eauto.
  - destruct s as [| a s]; [discriminate |]. destruct (p a); [| discriminate].
    exists (String a EmptyString), s, g. auto.
  - apply rep_inv in H. destruct H as (d & s' & -> & _ & H). eauto.
  - apply IH1 in H. destruct H as (p1 & s1 & g1 & -> & H).
    apply IH2 in H. destruct H as (p2 & s2 & g2 & -> & H).
    exists (p1 ++ p2), s2, g2. split; [now rewrite append_assoc | exact H].
  - destruct (run ic r1 s g k) eqn:R.
    + injection H as ->. apply (IH1 _ _ _ _ R).
    + apply (IH2 _ _ _ _ H).
  - apply IH in H. destruct H as (p & s' & g' & -> & H). eauto.
  - destruct s as [| a [| b s]]; [| | discriminate].
    + exists EmptyString, EmptyString, g. auto.
    + destruct (Ascii.eqb a "010"); [| discriminate].
      exists EmptyString, (String a EmptyString), g. auto.
Qed.

(** The digits a pattern captures stand in the subject. *)
Lemma run_captures_within {A} (ic : bool) (r : re) :
  captures_digits r ->
  forall (s g : string) (k : string -> string -> option A) (x : A),
    run ic r s g k = Some x ->
    exists pre d post s', s = pre ++ d ++ post /\ k s' d = Some x.
Proof.
  induction 1 as [| r1 r2 _ IH1 F2 | r1 r2 _ IH2 | r1 r2 _ IH1 _ IH2];
    intros s g k x H.
  - apply run_digits_group in H. destruct H as (s' & d & _ & -> & H).
    exists EmptyString, d, s', s'. auto.
  - cbn [run] in H. apply IH1 in H. destruct H as (pre & d & post & s1 & -> & H).
    apply (run_groupfree ic r2 F2) in H. destruct H as (s' & H). eauto 6.
  - cbn [run] in H. apply run_suffix in H. destruct H as (p & s1 & g1 & -> & H).
    apply IH2 in H. destruct H as (pre & d & post & s' & -> & H).
    exists (p ++ pre), d, post, s'. split; [now rewrite append_assoc | exact H].
  - cbn [run] in H. destruct (run ic r1 s g k) eqn:R.
    + injection H as ->. apply (IH1 _ _ _ _ R).
    + apply (IH2 _ _ _ _ H).
Qed.

Lemma search_within (ic : bool) (r : re) (s g : string) :
  captures_digits r -> search ic r s = Some g -> exists pre post, s = pre ++ g ++ post.
Proof.
  intros C. revert g. induction s as [| a s IH]; intros g; rewrite search_step;
    unfold match_here;
    match goal with
    | |- context [run ic r ?u EmptyString ?k] =>
        destruct (run ic r u EmptyString k) as [[g' rest] |] eqn:R
    end; cbn [group_or]; try discriminate.
  - intros [= ->]. apply (run_captures_within ic r C) in R.
    destruct R as (pre & d & post & s' & -> & [= <- _]). eauto.
  - intros [= ->]. apply (run_captures_within ic r C) in R.
    destruct R as (pre & d & post & s' & E & [= <- _]). rewrite E. eauto.
  - intros H. destruct (IH g H) as (pre & post & ->).
    exists (String a pre), post. reflexivity.
Qed.

(** A match further on is found, if none comes before it. *)
Lemma search_finds (ic : bool) (r : re) (pre s : string) (x : string * string) :
  match_here ic r s = Some x -> exists g, search ic r (pre ++ s) = Some g.
Proof.
  intros H. induction pre as [| a pre IH]; rewrite search_step.
  - cbn [append]. rewrite H. destruct x. cbn. eauto.
  - destruct (match_here ic r (String a pre ++ s)) as [[g rest] |]; cbn [group_or];
      [eauto | exact IH].
Qed.

Lemma lit_rest_same (lit s : string) : lit_rest true lit (lit ++ s) = Some s.
Proof.
  induction lit as [| a lit IH]; [reflexivity |]. cbn [append lit_rest].
  unfold chr_eq. now rewrite Ascii.eqb_refl.
Qed.

Lemma rep_through {A} (p : ascii -> bool) (k : string -> option A) (d s : string) (x : A) :
  forallb p (chars d) = true -> rep p k s = Some x -> rep p k (d ++ s) = Some x.
Proof.
  intros Hd Hs. induction d as [| a d IH]; [exact Hs |].
  cbn [chars forallb] in Hd. apply andb_prop in Hd. destruct Hd as [Ha Hd].
  cbn [append rep]. now rewrite Ha, (IH Hd).
Qed.

(** The last pattern at a stream page name. *)
Lemma stream_page_matches (ds post : string) :
  numeric ds = true ->
  match_here true (Str "stream-" +++ Grp digits +++ Str ".php")
             ("stream-" ++ ds ++ ".php" ++ post)
  = Some (ds, post).
Proof.
  unfold numeric. intros H. apply andb_prop in H. destruct H as [Hn Hd].
  destruct ds as [| a ds]; [discriminate |].
  cbn [chars forallb] in Hd. apply andb_prop in Hd. destruct Hd as [Ha Hd].
  unfold match_here, digits, plus. cbn [run].
  rewrite lit_rest_same. cbn [append]. rewrite Ha.
  rewrite (rep_through digit _ ds (".php" ++ post)
             (String a ds, post) Hd); [reflexivity |].
  cbn [append rep]. replace (digit ".") with false by reflexivity.
  change (String "." (String "p" (String "h" (String "p" post))))
    with (".php" ++ post).
  rewrite lit_rest_same. f_equal. f_equal.
  change (String a (ds ++ ".php" ++ post)) with (String a ds ++ (".php" ++ post)).
  rewrite length_append, Nat.add_sub. apply take_prefix.
Qed.

(** X10. What [extract_channel_id] finds and what it cannot miss.  An
    identifier it returns is a run of digits that stands in the URL.  And a
    URL that holds a stream page name, [stream-], digits, [.php], in any
    letter case, always gives an identifier. *)
Theorem channel_id_found (url : string) :
  (forall cid, extract_channel_id url = Some cid ->
               numeric cid = true /\ exists pre post, url = pre ++ cid ++ post)
  /\ (forall pre w ds e post,
         url = pre ++ w ++ ds ++ e ++ post ->
         casefold w = "stream-" -> numeric ds = true -> casefold e = ".php" ->
         exists cid, extract_channel_id url = Some cid).
Proof.
  split.
  - intros cid H. split; [apply (extract_channel_id_numeric url), H |].
    unfold extract_channel_id in H.
    pose proof channel_id_patterns_capture as C. revert H.
    induction C as [| p ps Hp _ IH]; cbn [first_match]; [discriminate |].
    destruct (search true p url) as [g |] eqn:S; [| exact IH].
    intros [= ->]. apply (search_within true p url cid Hp S).
  - intros pre w ds e post -> Hw Hds He.
    rewrite <- extract_channel_id_casefold.
    rewrite !casefold_app, Hw, He, (casefold_numeric ds Hds).
    destruct (search_finds true (Str "stream-" +++ Grp digits +++ Str ".php")
                (casefold pre) _ _ (stream_page_matches ds (casefold post) Hds))
      as (g & Hg).
    unfold extract_channel_id, channel_id_patterns. cbn [first_match].
    do 4 match goal with
         | |- exists cid, match search true ?r ?u with _ => _ end = _ =>
             destruct (search true r u) eqn:?; [eauto |]
         end.
    rewrite Hg. eauto.
Qed.

Lemma channel_id_found_example :
  exists cid,
    extract_channel_id "https://daddylive.sx/embed/STREAM-77.Php?x=1" = Some cid.
Proof.
  apply (proj2 (channel_id_found "https://daddylive.sx/embed/STREAM-77.Php?x=1")
           "https://daddylive.sx/embed/" "STREAM-" "77" ".Php" "?x=1");
    reflexivity.
Defined.

End ChannelIdMore.

(** ** The parameter decoder inverts the encoding of the pages *)
Module BundleFacts.
Import PyStr Regex Base64 Json Extractor JsonWf StrFacts Observe Bundle.
Import CodecFacts JsonFacts CacheFacts.

(** [base64.b64decode(...).decode('utf-8')] undoes the encoding of a text. *)
Lemma text_decodes (s : string) : b64decode_utf8 (b64encode (Utf8.encode s)) = Some s.
Proof. unfold b64decode_utf8. now rewrite b64_roundtrip, utf8_roundtrip. Qed.

Lemma packed_keys (m : list (string * string)) :
  map fst (map (fun kv : string * string =>
                  (fst kv, JStr (b64encode (Utf8.encode (snd kv))))) m)
  = map fst m.
Proof. rewrite map_map. reflexivity. Qed.

Lemma packed_wf (m : list (string * string)) :
  distinct (map fst m) = true -> wf (packed m) = true.
Proof.
  intros D. cbn [packed wf]. rewrite packed_keys, D. cbn [andb].
  induction m as [| kv m IH]; [reflexivity |]. cbn [map forallb snd wf andb].
  apply IH. cbn [map distinct] in D. apply andb_prop in D. apply D.
Qed.

Lemma decode_items_from (m : list (string * string)) :
  forall acc : PyDict.dict json,
    distinct (map fst acc ++ map fst m)%list = true ->
    fold_left (fun decoded kv => PyDict.set (fst kv) (decode_value (snd kv)) decoded)
              (map (fun kv : string * string =>
                      (fst kv, JStr (b64encode (Utf8.encode (snd kv))))) m) acc
    = (acc ++ plain m)%list.
Proof.
  induction m as [| [k v] m IH]; intros acc D.
  - cbn. now rewrite List.app_nil_r.
  - cbn [map fold_left fst snd plain] in *.
    destruct (distinct_app_one (map fst acc) k (map fst m) D) as [Hk Hd].
    cbn [decode_value]. rewrite text_decodes, (set_fresh k (JStr v) acc Hk).
    rewrite IH; [now rewrite <- app_assoc |].
    rewrite map_app. exact Hd.
Qed.

Lemma decode_bundle_pack (m : list (string * string)) :
  distinct (map fst m) = true -> decode_bundle (pack m) = Some (plain m).
Proof.
  intros D. unfold decode_bundle, pack. rewrite text_decodes.
  rewrite (loads_dumps _ (packed_wf m D)). cbn [packed]. f_equal.
  unfold decode_items. now rewrite (decode_items_from m []).
Qed.

Lemma pack_nonempty (m : list (string * string)) : nonempty (pack m) = true.
Proof. apply (cache_text_nonempty (packed m)). Qed.



End BundleFacts.

(** ** What a resolution returns *)
Module ResultFacts.
Import PyStr Regex Json Extractor StrFacts Observe Within ExecutorFacts FrameFacts.
Import PolicyFacts DecoderFacts.

Lemma returns_ret {A} (P : A -> Prop) (a : A) : P a -> returns_only P (ret a).
Proof. intros H st v st' [= <- _]. exact H. Qed.

Lemma returns_raise {A} (P : A -> Prop) (e : exn) : returns_only P (@raise A e).
Proof. intros st v st' H. discriminate H. Qed.

Lemma returns_bind {A B} (Q : A -> Prop) (P : B -> Prop) (m : M A) (k : A -> M B) :
  returns_only Q m -> (forall a, Q a -> returns_only P (k a)) ->
  returns_only P (bind m k).
Proof.
  intros Hm Hk st v st'. unfold bind.
  destruct (m st) as [[a | e] st1] eqn:R; [| discriminate].
  apply (Hk a (Hm st a st1 R)).
Qed.

Lemma returns_then {A B} (P : B -> Prop) (m : M A) (k : A -> M B) :
  (forall a, returns_only P (k a)) -> returns_only P (bind m k).
Proof.
  intros Hk. apply (returns_bind (fun _ => True)); [intros st v st' _; exact I |].
  intros a _. apply Hk.
Qed.

Lemma returns_catch {A} (P : A -> Prop) (m : M A) (h : exn -> M A) :
  returns_only P m -> (forall e, returns_only P (h e)) -> returns_only P (catch m h).
Proof.
  intros Hm Hh st v st'. unfold catch.
  destruct (m st) as [[a | e] st1] eqn:R.
  - intros [= <- <-]. apply (Hm st a st1 R).
  - apply Hh.
Qed.

(** The stream URL, whatever the server key. *)
Lemma startswith_same (p s : string) : startswith p (p ++ s) = true.
Proof.
  induction p as [| a p IH]; [reflexivity |]. cbn [append startswith].
  now rewrite Ascii.eqb_refl, IH.
Qed.

Lemma chars_app (a b : string) : chars (a ++ b) = (chars a ++ chars b)%list.
Proof.
  unfold chars. induction a as [| x a IH]; cbn [append list_ascii_of_string app];
    [reflexivity | now rewrite IH].
Qed.

Lemma endswith_same (p s : string) : endswith p (s ++ p) = true.
Proof.
  unfold endswith. rewrite chars_app, rev_app_distr, text_app. apply startswith_same.
Qed.

Lemma contains_later (sub s t : string) :
  contains sub t = true -> contains sub (s ++ t) = true.
Proof.
  intros H. induction s as [| a s IH]; [exact H |].
  cbn [append contains]. rewrite IH. apply orb_true_r.
Qed.

Lemma contains_step (sub s : string) :
  contains sub s
  = startswith sub s || match s with
                        | String _ s' => contains sub s'
                        | EmptyString => false
                        end.
Proof. destruct s; reflexivity. Qed.

Lemma contains_here (sub s : string) : contains sub (sub ++ s) = true.
Proof. rewrite contains_step. now rewrite startswith_same. Qed.

Lemma stream_url_shape (server_key : json) (channel_key : string) :
  startswith "https://" (clean_m3u8_url server_key channel_key) = true
  /\ contains "newkso.ru" (clean_m3u8_url server_key channel_key) = true
  /\ endswith ("/" ++ channel_key ++ "/mono.m3u8")
              (clean_m3u8_url server_key channel_key) = true.
Proof.
  unfold clean_m3u8_url. destruct (eq_str server_key "top1/cdn").
  - split; [apply (startswith_same "https://") |]. split.
    + apply (contains_later "newkso.ru" "https://top1.").
      apply (contains_here "newkso.ru").
    + apply (endswith_same _ "https://top1.newkso.ru/top1/cdn").
  - split; [apply (startswith_same "https://") |]. split.
    + apply (contains_later "newkso.ru" "https://"), contains_later.
      apply (contains_later "newkso.ru" "new."). apply (contains_here "newkso.ru").
    + replace ("https://" ++ PyFormat.str server_key ++ "new.newkso.ru/"
               ++ PyFormat.str server_key ++ "/" ++ channel_key ++ "/mono.m3u8")
        with (("https://" ++ PyFormat.str server_key ++ "new.newkso.ru/"
               ++ PyFormat.str server_key) ++ ("/" ++ channel_key ++ "/mono.m3u8"))
        by (now rewrite !append_assoc).
      apply endswith_same.
Qed.

Lemma missing_nil (ck : option string) (f : auth_fields) :
  missing_params ck f = [] ->
  truthy (auth_ts f) = true /\ truthy (auth_rnd f) = true
  /\ truthy (auth_sig f) = true /\ truthy (auth_host f) = true
  /\ truthy (auth_php f) = true.
Proof.
  unfold missing_params.
  destruct (match ck with Some k => nonempty k | None => false end);
    destruct (truthy (auth_ts f)); destruct (truthy (auth_rnd f));
    destruct (truthy (auth_sig f)); destruct (truthy (auth_host f));
    destruct (truthy (auth_php f)); cbn; intros H; try discriminate H; auto.
Qed.

Section WithEnv.
Context {E : Env}.

Lemma returns_lib_error {A} (P : A -> Prop) (f : fault) :
  returns_only P (@lib_error E A f).
Proof. apply returns_raise. Qed.

Lemma returns_parse_url (u : string) :
  returns_only (fun p => urlparse u = Some p) (parse_url u).
Proof.
  unfold parse_url. destruct (urlparse u) as [p |];
    [now apply returns_ret | apply returns_lib_error].
Qed.

Lemma returns_as_str (op : string) (v : json) :
  returns_only (fun s => v = JStr s) (as_str op v).
Proof.
  unfold as_str. destruct v; try apply returns_lib_error. now apply returns_ret.
Qed.

Lemma returns_check_params (ck : option string) (f : auth_fields) :
  returns_only (fun k => nonempty k = true /\ missing_params (Some k) f = [])
               (check_params ck f).
Proof.
  unfold check_params. destruct (missing_params ck f) eqn:M; [| apply returns_raise].
  destruct (missing_none_key ck f M) as (k & -> & N). now apply returns_ret.
Qed.

Lemma returns_server_resolution (iframe_url : string) (p : string * string)
      (hdrs : headers) (channel_key : string) (ts rnd : json) (sig host php0 php : string) :
  urlparse iframe_url = Some p ->
  PyDict.get "User-Agent" hdrs = Some user_agent ->
  nonempty channel_key = true -> truthy ts = true -> truthy rnd = true ->
  nonempty sig = true -> nonempty host = true -> nonempty php = true ->
  returns_only stream_descriptor
    (server_resolution iframe_url (snd p) hdrs channel_key
       (mkFields (JStr host) (JStr php0) ts rnd (JStr sig)) php).
Proof.
  intros Hp Hua Hk Hts Hrnd Hsig Hhost Hphp. unfold server_resolution. cbv zeta.
  apply returns_then. intros lookup_text.
  apply returns_then. intros server_data.
  apply returns_then. intros server_key.
  destruct (truthy server_key); [| apply returns_raise].
  rewrite Hua. unfold bind at 1, ret at 1.
  destruct (stream_url_shape server_key channel_key) as (S1 & S2 & S3).
  rewrite S2. apply returns_ret.
  exists (clean_m3u8_url server_key channel_key), iframe_url, channel_key,
         sig, host, php, p, ts, rnd.
  cbn [auth_ts auth_rnd auth_sig auth_host]. repeat split; assumption.
Qed.

Lemma normalize_nonempty (php : string) :
  nonempty php = true -> nonempty (normalize_auth_php php) = true.
Proof.
  intros H. unfold normalize_auth_php. rewrite H.
  destruct (String.eqb _ _); [reflexivity | exact H].
Qed.

Lemma returns_handshake (iframe_url : string) (hdrs : headers) (k : string)
      (f : auth_fields) :
  PyDict.get "User-Agent" hdrs = Some user_agent ->
  nonempty k = true ->
  missing_params (Some k) f = [] ->
  returns_only stream_descriptor (handshake iframe_url hdrs k f).
Proof.
  intros Hua Hk M. destruct (missing_nil _ _ M) as (Hts & Hrnd & Hsig & Hhost & Hphp).
  destruct f as [host php ts rnd sig]. cbn [auth_ts auth_rnd auth_sig auth_host auth_php] in *.
  unfold handshake. cbn [auth_ts auth_rnd auth_sig auth_host auth_php].
  apply (returns_bind (fun s => sig = JStr s)); [apply returns_as_str |].
  intros sig' ->.
  apply (returns_bind (fun s => php = JStr s)); [apply returns_as_str |].
  intros php' ->.
  apply (returns_bind (fun s => host = JStr s)); [apply returns_as_str |].
  intros host' ->. cbv zeta.
  apply (returns_bind (fun p => urlparse iframe_url = Some p)); [apply returns_parse_url |].
  intros p Hp. apply returns_then. intros _.
  apply returns_server_resolution; try assumption.
  apply normalize_nonempty, Hphp.
Qed.

Lemma returns_param_stage (iframe_url : string) (hdrs : headers) (content : string) :
  PyDict.get "User-Agent" hdrs = Some user_agent ->
  returns_only stream_descriptor (param_stage iframe_url hdrs content).
Proof.
  intros Hua. unfold param_stage. apply returns_catch; [| intros e; apply returns_raise].
  cbv zeta.
  apply (returns_bind (fun k => nonempty k = true
                                /\ missing_params (Some k)
                                     (snd (decode_fields content)) = []));
    [apply returns_check_params |].
  intros k [Hk M]. now apply returns_handshake.
Qed.

Lemma returns_player_loop (baseurl : string) (links : list string) :
  forall hdrs last,
    PyDict.get "User-Agent" hdrs = Some user_agent ->
    returns_only (fun r => PyDict.get "User-Agent" (fst (fst r)) = Some user_agent)
                 (player_loop baseurl links hdrs last).
Proof.
  induction links as [| link links IH]; intros hdrs last Hua; cbn [player_loop].
  - now apply returns_ret.
  - cbv zeta.
    assert (H1 : PyDict.get "User-Agent"
                   (PyDict.set "Referer" (absolute_link baseurl link) hdrs)
                 = Some user_agent)
      by (rewrite get_set_other by discriminate; exact Hua).
    destruct (urlparse (absolute_link baseurl link)) as [[scheme netloc] |];
      [| apply IH, H1].
    assert (H2 : PyDict.get "User-Agent"
                   (PyDict.set "Origin" (scheme ++ "://" ++ netloc)
                      (PyDict.set "Referer" (absolute_link baseurl link) hdrs))
                 = Some user_agent)
      by (rewrite get_set_other by discriminate; exact H1).
    intros st v st'.
    destruct (fetch _ _ st) as [[content | e] st1]; [| apply IH, H2].
    destruct (findall iframe_pattern content); [apply IH, H2 |].
    intros [= <- _]. exact H2.
Qed.

Lemma returns_legacy_player (baseurl content : string) (hdrs : headers)
      (last : option exn) :
  PyDict.get "User-Agent" hdrs = Some user_agent ->
  returns_only (fun r => PyDict.get "User-Agent" (fst r) = Some user_agent)
               (legacy_player baseurl content hdrs last).
Proof.
  intros Hua. unfold legacy_player.
  destruct (findall anchor_pattern content) as [| link0 rest]; [apply returns_raise |].
  cbv zeta. apply returns_then. intros o. apply returns_then. intros content2.
  destruct (findall iframe_pattern content2); [apply returns_raise |].
  apply returns_ret. cbn [fst]. now rewrite !get_set_other by discriminate.
Qed.

Lemma returns_try_endpoint (baseurl endpoint cid : string) :
  returns_only stream_descriptor (try_endpoint baseurl endpoint cid).
Proof.
  unfold try_endpoint. cbv zeta.
  apply returns_then. intros daddy_origin.
  apply returns_then. intros content1.
  apply (returns_bind
           (fun r : headers * option exn * option (string * string) =>
              PyDict.get "User-Agent" (fst (fst r)) = Some user_agent));
    [apply returns_player_loop; reflexivity |].
  intros r Hr.
  apply (returns_bind
           (fun found : headers * (string * string) =>
              PyDict.get "User-Agent" (fst found) = Some user_agent)).
  - destruct (snd r); [now apply returns_ret | now apply returns_legacy_player].
  - intros found Hf. apply returns_then. intros iframe_url.
    apply returns_then. intros _. apply returns_then. intros iframe_content.
    now apply returns_param_stage.
Qed.

Lemma returns_endpoint_loop (baseurl cid : string) (eps : list string) :
  forall last, returns_only stream_descriptor (endpoint_loop baseurl cid eps last).
Proof.
  induction eps as [| ep eps IH]; intros last; cbn [endpoint_loop];
    [apply returns_raise |].
  apply returns_catch; [| intros e; apply IH].
  apply (returns_bind stream_descriptor); [apply returns_try_endpoint |].
  intros r Hr. apply returns_then. intros _. apply returns_then. intros _.
  now apply returns_ret.
Qed.

Lemma returns_fresh_resolution (cid : string) :
  returns_only stream_descriptor (fresh_resolution cid).
Proof.
  unfold fresh_resolution. apply returns_then. intros baseurl.
  apply returns_endpoint_loop.
Qed.

(** A hit of the cache check is the entry the cache held. *)
Lemma cache_probe_hit (cid : string) (st st' : state) (v : json) :
  cache_probe cid st = (Ok (Some v), st') ->
  exists c, stream_data_cache st = JObj c /\ PyDict.get cid c = Some v.
Proof.
  intros H. unfold cache_probe in H. unfold bind at 1, get_state at 1 in H.
  remember (stream_data_cache st) as c0 eqn:C. clear C.
  match type of H with
  | ?m st = _ =>
      assert (R : returns_only
                    (fun hit => forall x, hit = Some x ->
                                          exists c, c0 = JObj c /\ PyDict.get cid c = Some x)
                    m)
  end.
  { clear H.
    assert (Broken : forall (P : option json -> Prop) (k : json -> M (option json)),
               returns_only P (bind (lib_error (BadOperand "getitem" c0)) k)).
    { intros P k. apply (returns_bind (fun _ => False));
        [apply returns_lib_error | contradiction]. }
    assert (Miss : returns_only
                     (fun hit : option json =>
                        forall x, hit = Some x ->
                                  exists c, c0 = JObj c /\ PyDict.get cid c = Some x)
                     (ret None)).
    { apply returns_ret. discriminate. }
    destruct c0 as [| b | z | s | l | c]; cbn [cache_contains];
      try (apply (returns_bind (fun _ => False));
           [apply returns_lib_error | contradiction]);
      try (apply returns_then; intros [|]; [apply Broken | apply Miss]).
    apply returns_then. intros [|]; [| apply Miss]. cbn [cache_getitem].
    apply (returns_bind (fun x => PyDict.get cid c = Some x)).
    { destruct (PyDict.get cid c); [now apply returns_ret | apply returns_lib_error]. }
    intros x G. apply returns_then. intros d. apply returns_then. intros [|].
    - apply returns_ret. intros y [= <-]. eauto.
    - apply returns_then. intros _. apply returns_then. intros _. apply Miss. }
  apply (R st (Some v) st' H v eq_refl).
Qed.


End WithEnv.


End ResultFacts.

(** ** The old page format, and the cache at start-up *)
Module StartFacts.
Import PyStr Regex Base64 Json Extractor JsonWf StrFacts Observe Within Bundle.
Import ExecutorFacts FrameFacts CodecFacts JsonFacts CacheFacts BundleFacts.

Lemma old_format_first (js name v : string) :
  search false (nth 0 (old_format_patterns name) Eps) js
  = Some (b64encode (Utf8.encode v)) ->
  extract_var_old_format js name = Some v.
Proof.
  unfold extract_var_old_format, old_format_patterns. cbn [nth old_format_loop].
  intros ->. now rewrite text_decodes.
Qed.



Lemma load_empty_or_not (s : string) :
  nonempty (b64encode (Utf8.encode s)) = nonempty s.
Proof.
  destruct s as [| a s]; [reflexivity |].
  unfold b64encode, Utf8.encode. rewrite chars_text.
  cbn [chars list_ascii_of_string flat_map nonempty].
  pose proof (utf8_char_nonempty a) as Ha.
  destruct (Utf8.utf8_char a) as [| x l]; [contradiction |].
  pose proof (encode_list_nonempty ((x :: l) ++ flat_map Utf8.utf8_char
                                      (list_ascii_of_string s))%list
                ltac:(discriminate)) as He.
  destruct (encode_list _); [contradiction | reflexivity].
Qed.

Section WithEnv.
Context {E : Env}.


End WithEnv.


End StartFacts.

(** ** The cache across calls *)
Module AgainFacts.
Import PyStr Regex Json Extractor StrFacts Observe Within.
Import ChannelIdFacts ExecutorFacts FrameFacts RespectFacts PolicyFacts ResultFacts.

Lemma bind_ok {A B} (m : M A) (k : A -> M B) (st st' : state) (v : B) :
  bind m k st = (Ok v, st') ->
  exists a st1, m st = (Ok a, st1) /\ k a st1 = (Ok v, st').
Proof.
  unfold bind. destruct (m st) as [[a | e] st1]; [eauto | discriminate].
Qed.

Section WithEnv.
Context {E : Env}.

Lemma save_cache_ok (st : state) :
  exists st', save_cache st = (Ok tt, st')
              /\ stream_data_cache st' = stream_data_cache st.
Proof.
  unfold save_cache. cbv zeta.
  destruct (file_write _ _); eexists; split; reflexivity.
Qed.

(** A result of the endpoint loop is in the cache afterwards. *)
Lemma endpoint_loop_ok (baseurl cid : string) (eps : list string) :
  forall last st r st',
    endpoint_loop baseurl cid eps last st = (Ok r, st') ->
    exists c, stream_data_cache st' = JObj c /\ PyDict.get cid c = Some r.
Proof.
  induction eps as [| ep eps IH]; intros last st r st'; cbn [endpoint_loop];
    [discriminate |].
  unfold catch.
  destruct (bind (try_endpoint baseurl ep cid) _ st) as [[r1 | e] st1] eqn:B;
    [| apply IH].
  intros [= <- <-].
  apply bind_ok in B. destruct B as (r0 & s0 & _ & B).
  apply bind_ok in B. destruct B as ([] & s1 & S & B).
  apply bind_ok in B. destruct B as ([] & s2 & W & B).
  injection B as <- <-.
  unfold cache_setitem in S. apply bind_ok in S. destruct S as (s & s' & G & S).
  injection G as <- <-.
  destruct (stream_data_cache s0) as [| | | | | c]; try discriminate S.
  injection S as <-.
  destruct (save_cache_ok (set_cache (JObj (PyDict.set cid r0 c)) s0)) as (s3 & W' & C).
  rewrite W' in W. injection W as <-.
  exists (PyDict.set cid r0 c). split; [exact C | apply get_set_eq].
Qed.

Lemma head_probe_keeps (u h : json) (st : state) :
  stream_data_cache (snd (head_probe u h st)) = stream_data_cache st.
Proof.
  apply (respects_head_probe (fun a b => stream_data_cache b = stream_data_cache a));
    try reflexivity.
  intros a b c H1 H2. congruence.
Qed.

Lemma head_probe_sends_no_get (u h : json) (st : state) :
  gets (trace (snd (head_probe u h st))) = gets (trace st).
Proof.
  apply (respects_head_probe (fun a b => gets (trace b) = gets (trace a)));
    try reflexivity.
  - intros a b c H1 H2. congruence.
  - intros s _. cbn [trace emit set_session]. rewrite gets_app. cbn. lia.
  - intros u0 h0 s. cbn [trace emit]. rewrite gets_app. cbn. lia.
Qed.

(** A hit of the cache check: the entry, its URL, and the cache as it was. *)
Lemma cache_probe_hit_state (cid : string) (st st' : state) (v : json) :
  cache_probe cid st = (Ok (Some v), st') ->
  exists c d,
    stream_data_cache st = JObj c /\ PyDict.get cid c = Some v /\ v = JObj d
    /\ truthy (field d "destination_url") = true
    /\ stream_data_cache st' = stream_data_cache st.
Proof.
  intros H. destruct (cache_probe_hit cid st st' v H) as (c & Hc & G).
  unfold cache_probe in H.
  apply bind_ok in H. destruct H as (s & s' & S & H). injection S as <- <-.
  apply bind_ok in H. destruct H as (present & s1 & P & H).
  rewrite Hc in P, H. cbn [cache_contains cache_getitem] in P, H.
  injection P as <- <-. unfold PyDict.mem in H. rewrite G in H.
  apply bind_ok in H. destruct H as (x & s2 & X & H). injection X as <- <-.
  apply bind_ok in H. destruct H as (d & s3 & D & H).
  destruct v as [| | | | | d0]; try discriminate D. injection D as <- <-.
  cbv zeta in H.
  apply bind_ok in H. destruct H as (is_valid & s4 & V & H).
  assert (Miss : forall s, (cache_delitem cid ;;; save_cache ;;; ret (@None json)) s
                           <> (Ok (Some (JObj d0)), st')).
  { intros s K. apply bind_ok in K. destruct K as (? & ? & _ & K).
    apply bind_ok in K. destruct K as (? & ? & _ & K). discriminate K. }
  exists c, d0. repeat (split; [first [assumption | reflexivity] |]).
  destruct (truthy (field d0 "destination_url")) eqn:T.
  - split; [reflexivity |].
    destruct is_valid; [| now apply Miss in H].
    injection H as <-.
    pose proof (head_probe_keeps (field d0 "destination_url")
                  match PyDict.get "request_headers" d0 with
                  | Some h => h
                  | None => JObj []
                  end st) as K.
    now rewrite V in K.
  - injection V as <- <-. now apply Miss in H.
Qed.

(** Whatever [extract] returns is the entry of the channel afterwards. *)
Lemma extract_ok_cached (url : string) (force_refresh : bool) (st st1 : state)
      (v : json) :
  extract url force_refresh st = (Ok v, st1) ->
  exists cid c1 d,
    extract_channel_id url = Some cid
    /\ stream_data_cache st1 = JObj c1 /\ PyDict.get cid c1 = Some v
    /\ v = JObj d /\ truthy (field d "destination_url") = true.
Proof.
  intros H.
  assert (Fresh : forall cid s, fresh_resolution cid s = (Ok v, st1) ->
                    exists c1 d, stream_data_cache st1 = JObj c1
                                 /\ PyDict.get cid c1 = Some v
                                 /\ v = JObj d
                                 /\ truthy (field d "destination_url") = true).
  { intros cid s F.
    pose proof (returns_fresh_resolution cid s v st1 F) as D.
    unfold fresh_resolution in F. apply bind_ok in F.
    destruct F as (b & s0 & _ & F).
    destruct (endpoint_loop_ok _ _ _ _ _ _ _ F) as (c1 & C1 & G1).
    destruct D as (u & iframe_url & ck & sig & host & php & p & ts & rnd
                   & -> & _ & Hu & _).
    exists c1. eexists. repeat (split; [first [eassumption | reflexivity] |]).
    unfold field. cbn [PyDict.get]. rewrite String.eqb_refl. cbn [truthy].
    destruct u; [discriminate Hu | reflexivity]. }
  unfold extract, catch in H.
  destruct (extract_channel_id url) as [cid |] eqn:Hid; [| discriminate].
  destruct (nonempty cid); [| discriminate].
  match type of H with
  | match ?m st with _ => _ end = _ => destruct (m st) as [[r | e] s1] eqn:B
  end; [| discriminate].
  injection H as <- <-.
  apply bind_ok in B. destruct B as (hit & s0 & P & B).
  exists cid. destruct hit as [x |].
  - injection B as <- <-. destruct force_refresh; [discriminate P |].
    destruct (cache_probe_hit_state cid st s0 x P) as (c & d & Hc & G & -> & T & K).
    exists c, d. rewrite K. auto.
  - destruct (Fresh cid s0 B) as (c1 & d & ?). exists c1, d. auto.
Qed.

(** The cache check on a live entry. *)
Lemma cache_probe_valid (cid : string) (c d : PyDict.dict json) (st : state) :
  stream_data_cache st = JObj c ->
  PyDict.get cid c = Some (JObj d) ->
  truthy (field d "destination_url") = true ->
  let u := field d "destination_url" in
  let h := match PyDict.get "request_headers" d with
           | Some h => h
           | None => JObj []
           end in
  fst (head_probe u h st) = Ok true ->
  cache_probe cid st = (Ok (Some (JObj d)), snd (head_probe u h st)).
Proof.
  intros Hc G T u h V. unfold cache_probe, bind at 1, get_state at 1.
  rewrite Hc. cbn [cache_contains cache_getitem]. unfold PyDict.mem. rewrite G.
  unfold bind at 1, ret at 1. unfold bind at 1, ret at 1. unfold bind at 1, ret at 1.
  cbv zeta. rewrite T. fold u h. unfold bind.
  destruct (head_probe u h st) as [[b | e] s1]; cbn [fst snd] in *;
    [| discriminate V].
  injection V as ->. reflexivity.
Qed.


(** With a cache that is not an object no endpoint can store its result. *)
Lemma endpoint_loop_blocked (baseurl cid : string) (eps : list string) :
  forall last st,
    (forall d, stream_data_cache st <> JObj d) ->
    exists e st', endpoint_loop baseurl cid eps last st = (Raise e, st').
Proof.
  induction eps as [| ep eps IH]; intros last st H; cbn [endpoint_loop].
  - eexists. eexists. reflexivity.
  - unfold catch. unfold bind at 1.
    pose proof (keeps_try_endpoint baseurl ep cid st) as K.
    destruct (try_endpoint baseurl ep cid st) as [[r0 | e0] s0]; cbn [snd] in K.
    + unfold bind at 1, cache_setitem, bind at 1, get_state at 1.
      destruct (stream_data_cache s0) as [| b | z | s | l | c] eqn:C;
        [| | | | | exfalso; apply (H c); congruence];
        unfold lib_error, raise; cbv beta iota;
        apply IH; intros d; rewrite C; discriminate.
    + apply IH. intros d. rewrite K. apply H.
Qed.

Lemma cache_probe_blocked (cid : string) (st : state) :
  (forall d, stream_data_cache st <> JObj d) ->
  cache_probe cid st = (Ok None, st) \/ exists e, cache_probe cid st = (Raise e, st).
Proof.
  intros H. unfold cache_probe, bind, get_state.
  destruct (stream_data_cache st) as [| b | z | s | l | c];
    [| | | | | exfalso; apply (H c); reflexivity];
    cbn [cache_contains cache_getitem]; unfold lib_error, raise, ret;
    try (right; eexists; reflexivity).
  - destruct (contains cid s); [right; eexists | left]; reflexivity.
  - destruct (existsb _ l); [right; eexists | left]; reflexivity.
Qed.

(** X15. A cache that is not an object disables the extractor.  The cache
    is whatever JSON value the cache file held; when that value is not an
    object (an array, a string, a number, a boolean or null), no call of
    [extract] can succeed: the cache check fails on it or finds nothing,
    and every endpoint, even one that resolves the stream, fails when its
    result is stored, so the call ends in the terminal error. *)
Theorem non_object_cache_blocks (url : string) (force_refresh : bool) (st : state) :
  (forall d, stream_data_cache st <> JObj d) ->
  exists cause st', extract url force_refresh st = (Raise (terminal cause), st').
Proof.
  intros H.
  assert (Fresh : forall cid, exists e st', fresh_resolution cid st = (Raise e, st')).
  { intros cid. unfold fresh_resolution, bind.
    pose proof (keeps_get_daddylive_base_url st) as K.
    destruct (get_daddylive_base_url st) as [[b | e] s0]; cbn [snd] in K;
      [| eauto].
    apply endpoint_loop_blocked. intros d. rewrite K. apply H. }
  unfold extract, catch.
  destruct (extract_channel_id url) as [cid |]; [| eexists; eexists; reflexivity].
  destruct (nonempty cid); [| eexists; eexists; reflexivity].
  unfold bind at 1. destruct force_refresh.
  - unfold ret at 1. destruct (Fresh cid) as (e & st' & ->).
    eexists. eexists. reflexivity.
  - destruct (cache_probe_blocked cid st H) as [-> | (e & ->)].
    + destruct (Fresh cid) as (e & st' & ->). eexists. eexists. reflexivity.
    + eexists. eexists. reflexivity.
Qed.

End WithEnv.

(** A cache file that held the empty array: the stream of the sample site
    resolves, and the call fails all the same. *)
Lemma non_object_cache_blocks_example :
  exists cause st',
    @extract Sample.site Sample.watch_url true Scenario.array_cached
    = (Raise (terminal cause), st').
Proof.
  apply (@non_object_cache_blocks Sample.site). intros d. discriminate.
Defined.


End AgainFacts.

(** ** The quoted signature, the player headers and [close] *)
Module WireFacts.
Import PyStr Regex Json Extractor StrFacts Observe Within Query.
Import ExecutorFacts RespectFacts RunFacts PolicyFacts ResultFacts CodecFacts.

Lemma quote_byte_safe (b : ascii) : forallb query_safe (Quote.quote_byte b) = true.
Proof. destruct b as [[] [] [] [] [] [] [] []]; vm_compute; reflexivity. Qed.

Lemma quote_byte_read (b : ascii) (n : nat) (rest : list ascii) :
  unquote (S n) (Quote.quote_byte b ++ rest)%list = b :: unquote n rest.
Proof. destruct b as [[] [] [] [] [] [] [] []]; reflexivity. Qed.

Lemma quote_bytes_read (l : list ascii) :
  forall n, List.length l <= n -> unquote n (flat_map Quote.quote_byte l) = l.
Proof.
  induction l as [| b l IH]; intros n Hn.
  - destruct n; reflexivity.
  - destruct n as [| n]; [cbn in Hn; lia |].
    cbn [flat_map]. rewrite quote_byte_read, IH; [reflexivity | cbn in Hn; lia].
Qed.

Lemma quote_plus_safe (sig : string) :
  forallb query_safe (chars (Quote.quote_plus sig)) = true.
Proof.
  unfold Quote.quote_plus. rewrite chars_text.
  induction (chars (Utf8.encode sig)) as [| b l IH]; [reflexivity |].
  cbn [flat_map]. now rewrite forallb_app, quote_byte_safe, IH.
Qed.

Lemma quote_plus_injective (sig sig' : string) :
  Quote.quote_plus sig = Quote.quote_plus sig' -> sig = sig'.
Proof.
  unfold Quote.quote_plus. intros H.
  assert (L : chars (Utf8.encode sig) = chars (Utf8.encode sig')).
  { apply (f_equal chars) in H. rewrite !chars_text in H.
    set (a := chars (Utf8.encode sig)) in *. set (b := chars (Utf8.encode sig')) in *.
    pose proof (quote_bytes_read a (Nat.max (List.length a) (List.length b))
                  (Nat.le_max_l _ _)) as Ra.
    pose proof (quote_bytes_read b (Nat.max (List.length a) (List.length b))
                  (Nat.le_max_r _ _)) as Rb.
    rewrite H in Ra. congruence. }
  apply (f_equal text) in L. rewrite !text_chars in L.
  apply (f_equal Utf8.decode) in L. rewrite !utf8_roundtrip in L.
  now injection L.
Qed.

Lemma append_cancel_l (a x y : string) : a ++ x = a ++ y -> x = y.
Proof. induction a as [| c a IH]; cbn; [auto | intros [= H]; auto]. Qed.

(** X17. The signature travels safely in the auth URL.  The auth URL ends
    in [&sig=] and the quoted signature; the quoted signature consists only
    of letters, digits, the characters [_.-~], the plus sign and the
    percent sign, so it cannot end or add to the parameter it is put in;
    and nothing of the signature is lost: with the other parameters fixed,
    two signatures that give the same auth URL are equal. *)
Theorem auth_url_signature (channel_key ts rnd sig host php : string) :
  exists q,
    build_auth_url channel_key ts rnd sig host php
    = join_auth_url host (normalize_auth_php php)
      ++ "?channel_id=" ++ channel_key ++ "&ts=" ++ ts ++ "&rnd=" ++ rnd ++ "&sig=" ++ q
    /\ forallb query_safe (chars q) = true
    /\ forall sig',
        build_auth_url channel_key ts rnd sig' host php
        = build_auth_url channel_key ts rnd sig host php ->
        sig' = sig.
Proof.
  exists (Quote.quote_plus sig). unfold build_auth_url. cbv zeta.
  split; [reflexivity |]. split; [apply quote_plus_safe |].
  intros sig' H. apply quote_plus_injective.
  repeat (apply append_cancel_l in H). exact H.
Qed.

Section WithEnv.
Context {E : Env}.

(** The headers handed on by the search for the player page. *)
Lemma player_loop_headers (baseurl : string) (links : list string) :
  forall hdrs last,
    returns_only
      (fun r => forall iframe link,
           snd r = Some (iframe, link) ->
           exists scheme netloc,
             urlparse link = Some (scheme, netloc)
             /\ PyDict.get "Referer" (fst (fst r)) = Some link
             /\ PyDict.get "Origin" (fst (fst r)) = Some (scheme ++ "://" ++ netloc))
      (player_loop baseurl links hdrs last).
Proof.
  induction links as [| link0 links IH]; intros hdrs last; cbn [player_loop].
  - apply returns_ret. discriminate.
  - cbv zeta.
    destruct (urlparse (absolute_link baseurl link0)) as [[scheme netloc] |] eqn:U;
      [| apply IH].
    intros st v st'.
    destruct (fetch _ _ st) as [[content | e] st1]; [| apply IH].
    destruct (findall iframe_pattern content) as [| iframe rest]; [apply IH |].
    intros [= <- _] iframe' link' [= <- <-]. exists scheme, netloc.
    cbn [fst snd]. split; [exact U |]. split.
    + rewrite get_set_other by discriminate. apply get_set_eq.
    + apply get_set_eq.
Qed.

Lemma legacy_player_headers (baseurl content : string) (hdrs : headers)
      (last : option exn) :
  returns_only
    (fun r => exists scheme netloc,
         urlparse (snd (snd r)) = Some (scheme, netloc)
         /\ PyDict.get "Referer" (fst r) = Some (snd (snd r))
         /\ PyDict.get "Origin" (fst r) = Some (scheme ++ "://" ++ netloc))
    (legacy_player baseurl content hdrs last).
Proof.
  unfold legacy_player.
  destruct (findall anchor_pattern content) as [| link0 rest]; [apply returns_raise |].
  cbv zeta.
  apply (returns_bind
           (fun o => exists p,
                urlparse (replace "//cast" "/cast" (absolute_link baseurl link0)) = Some p
                /\ o = fst p ++ "://" ++ snd p)).
  { unfold origin_of.
    apply (returns_bind (fun p => urlparse (replace "//cast" "/cast"
                                              (absolute_link baseurl link0)) = Some p));
      [apply returns_parse_url |].
    intros p Hp. apply returns_ret. eauto. }
  intros o ([scheme netloc] & Hp & ->). apply returns_then. intros content2.
  destruct (findall iframe_pattern content2); [apply returns_raise |].
  apply returns_ret. exists scheme, netloc. cbn [fst snd]. split; [exact Hp |]. split.
  - rewrite get_set_other by discriminate. apply get_set_eq.
  - apply get_set_eq.
Qed.

(** X18. The player page found is the referer of what follows.  Whichever
    way the player page is found, by the buttons of the new page format or
    by the anchor of the old one, the headers handed on to the iframe
    request carry the URL of that player page as [Referer], its scheme and
    host as [Origin], and the fixed [User-Agent]. *)
Theorem player_headers (baseurl content1 : string) (links : list string)
        (origin : string) (st st' : state)
        (r : headers * option exn * option (string * string)) :
  player_loop baseurl links
    [("User-Agent", user_agent); ("Referer", baseurl); ("Origin", origin)] None st
  = (Ok r, st') ->
  (forall iframe link,
      snd r = Some (iframe, link) ->
      exists scheme netloc,
        urlparse link = Some (scheme, netloc)
        /\ PyDict.get "Referer" (fst (fst r)) = Some link
        /\ PyDict.get "Origin" (fst (fst r)) = Some (scheme ++ "://" ++ netloc)
        /\ PyDict.get "User-Agent" (fst (fst r)) = Some user_agent)
  /\ (snd r = None ->
      forall found st2,
        legacy_player baseurl content1 (fst (fst r)) (snd (fst r)) st' = (Ok found, st2) ->
        exists scheme netloc,
          urlparse (snd (snd found)) = Some (scheme, netloc)
          /\ PyDict.get "Referer" (fst found) = Some (snd (snd found))
          /\ PyDict.get "Origin" (fst found) = Some (scheme ++ "://" ++ netloc)
          /\ PyDict.get "User-Agent" (fst found) = Some user_agent).
Proof.
  intros H.
  pose proof (returns_player_loop baseurl links
                [("User-Agent", user_agent); ("Referer", baseurl); ("Origin", origin)]
                None eq_refl st r st' H) as Hua.
  split.
  - intros iframe link Hs.
    destruct (player_loop_headers baseurl links _ None st r st' H iframe link Hs)
      as (scheme & netloc & U & R & O).
    exists scheme, netloc. auto.
  - intros _ found st2 L.
    destruct (legacy_player_headers baseurl content1 _ _ st' found st2 L)
      as (scheme & netloc & U & R & O).
    exists scheme, netloc. repeat (split; [assumption |]).
    apply (returns_legacy_player baseurl content1 _ _ Hua st' found st2 L).
Qed.

(** X19. [close] releases what [extract] left open.  [close] never
    raises.  After a call of [extract] followed by [close], the extractor
    holds no session, and over the two calls sessions were built and closed
    in turn: every session built has been closed. *)
Theorem close_releases_sessions (url : string) (force_refresh : bool) (st : state) :
  let st1 := snd (extract url force_refresh st) in
  fst (close_session st1) = Ok tt
  /\ session (snd (close_session st1)) = false
  /\ exists evs,
      trace (snd (close_session st1)) = (trace st ++ evs)%list
      /\ session_run (session st) evs = Some false.
Proof.
  cbv zeta. pose proof (extract_balanced url force_refresh st) as B.
  set (st1 := snd (extract url force_refresh st)) in *.
  destruct B as (evs & T & R). unfold close_session.
  destruct (session st1) eqn:S; cbn [fst snd session emit set_session trace].
  - repeat split. exists (evs ++ [EvSessionClose])%list.
    split; [now rewrite T, app_assoc |].
    rewrite (session_run_app evs _ _ _ R). reflexivity.
  - repeat split; [exact S |]. exists evs. split; [exact T | exact R].
Qed.

End WithEnv.

(** The player page of the sample site. *)
Lemma player_headers_example :
  exists scheme netloc,
    Sample.split_url "https://daddylive.sx/player/p1.php" = Some (scheme, netloc)
    /\ PyDict.get "Referer"
         [("User-Agent", user_agent); ("Referer", "https://daddylive.sx/player/p1.php");
          ("Origin", "https://daddylive.sx")]
       = Some "https://daddylive.sx/player/p1.php"
    /\ PyDict.get "Origin"
         [("User-Agent", user_agent); ("Referer", "https://daddylive.sx/player/p1.php");
          ("Origin", "https://daddylive.sx")]
       = Some (scheme ++ "://" ++ netloc)
    /\ PyDict.get "User-Agent"
         [("User-Agent", user_agent); ("Referer", "https://daddylive.sx/player/p1.php");
          ("Origin", "https://daddylive.sx")]
       = Some user_agent.
Proof.
  apply (proj1 (@player_headers Sample.site "https://daddylive.sx/" Sample.stream_page
                  ["/player/p1.php"] "https://daddylive.sx" Sample.fresh
                  (snd (@player_loop Sample.site "https://daddylive.sx/" ["/player/p1.php"]
                          [("User-Agent", user_agent); ("Referer", "https://daddylive.sx/");
                           ("Origin", "https://daddylive.sx")] None Sample.fresh))
                  ([("User-Agent", user_agent);
                    ("Referer", "https://daddylive.sx/player/p1.php");
                    ("Origin", "https://daddylive.sx")], None,
                   Some ("https://frame.test/embed/1.php",
                         "https://daddylive.sx/player/p1.php"))
                  ltac:(vm_compute; reflexivity))
           "https://frame.test/embed/1.php" "https://daddylive.sx/player/p1.php" eq_refl).
Defined.

End WireFacts.
